(** * EcoAnalyzer: document field extraction and sustainability metrics

    A shallow embedding of [src/utils/ocrProcessor.ts] ([OCRProcessor]), of the
    [ExtractedData] interface of [src/types/sustainability.ts] and of
    [handleFileUpload] of [src/App.tsx], with the properties the specification
    states about them.

    Conventions of the embedding:
    - a JavaScript string is the list of its UTF-16 code units ([jstring]);
    - a JavaScript number is [NaN], an infinity or a finite value; finite
      values are exact rationals ([Qc]), so rounding to a double, overflow and
      the sign of zero are outside the model;
    - an object is the finite map of its own properties ([gmap string value]);
    - [Math.random()] and [new Date()] read an explicit [World], threaded
      through the code by a state monad. *)

From Stdlib Require Import Ascii String QArith Qcanon Qround Lia Lqa Permutation.
From stdpp Require Import base option list strings gmap fin_maps.

Local Open Scope Z_scope.
Local Open Scope Qc_scope.

(* ===================================================================== *)
(** * JavaScript values *)
(* ===================================================================== *)

(** ** Strings: lists of UTF-16 code units *)

Abbreviation jstring := (list N).

(** A Rocq string literal of ASCII characters as a JavaScript string. *)
Fixpoint js (s : string) : jstring :=
  match s with
  | EmptyString => []
  | String a s' => N_of_ascii a :: js s'
  end.

Definition in_range (lo hi c : N) : bool := ((lo <=? c) && (c <=? hi))%N.

Definition is_upper (c : N) : bool := in_range 65 90 c.
Definition is_lower (c : N) : bool := in_range 97 122 c.
Definition is_digit (c : N) : bool := in_range 48 57 c.

(** [String.prototype.toLowerCase] on one code unit.  The ASCII letters are
    lowered; U+212A (Kelvin sign) and U+0130 (dotted capital I) are the two
    code units outside ASCII whose lower-case form contains an ASCII letter.
    Every other code unit outside ASCII is kept: its real lower-case form is
    outside ASCII too, so no comparison with an ASCII keyword can tell the
    difference. *)
Definition lower_unit (c : N) : jstring :=
  if is_upper c then [(c + 32)%N]
  else if (c =? 8490)%N then [107%N]
  else if (c =? 304)%N then [105%N; 775%N]
  else [c].

Definition toLowerCase (s : jstring) : jstring := concat (map lower_unit s).

(** [a.startsWith(b)] *)
Fixpoint starts_with (b a : jstring) : bool :=
  match b, a with
  | [], _ => true
  | x :: b', y :: a' => (x =? y)%N && starts_with b' a'
  | _ :: _, [] => false
  end.

(** [a.includes(b)] *)
Fixpoint includes (a b : jstring) : bool :=
  starts_with b a ||
  match a with
  | [] => false
  | _ :: a' => includes a' b
  end.

(** The longest prefix of [s] whose code units satisfy [p], and what follows it. *)
Fixpoint take_while (p : N -> bool) (s : jstring) : jstring :=
  match s with
  | c :: s' => if p c then c :: take_while p s' else []
  | [] => []
  end.

Fixpoint drop_while (p : N -> bool) (s : jstring) : jstring :=
  match s with
  | c :: s' => if p c then drop_while p s' else s
  | [] => []
  end.

(** ** Numbers *)

Inductive number : Type :=
  | NaN
  | Inf (negative : bool)
  | Fin (q : Qc).

Definition num (z : Z) : number := Fin (Q2Qc (inject_Z z)).

Definition Nneg (x : number) : number :=
  match x with
  | NaN => NaN
  | Inf s => Inf (negb s)
  | Fin q => Fin (- q)
  end.

Definition Nadd (x y : number) : number :=
  match x, y with
  | NaN, _ | _, NaN => NaN
  | Fin a, Fin b => Fin (a + b)
  | Inf s, Fin _ | Fin _, Inf s => Inf s
  | Inf s, Inf t => if Bool.eqb s t then Inf s else NaN
  end.

Definition Nsub (x y : number) : number := Nadd x (Nneg y).

Definition Qc_negative (q : Qc) : bool := bool_decide (q < 0).
Definition Qc_is_zero (q : Qc) : bool := bool_decide (q = 0).

Definition Nmul (x y : number) : number :=
  match x, y with
  | NaN, _ | _, NaN => NaN
  | Fin a, Fin b => Fin (a * b)
  | Inf s, Fin b | Fin b, Inf s =>
      if Qc_is_zero b then NaN else Inf (xorb s (Qc_negative b))
  | Inf s, Inf t => Inf (xorb s t)
  end.

Definition Ndiv (x y : number) : number :=
  match x, y with
  | NaN, _ | _, NaN => NaN
  | Fin a, Fin b =>
      if Qc_is_zero b
      then (if Qc_is_zero a then NaN else Inf (Qc_negative a))
      else Fin (a / b)
  | Inf s, Fin b => Inf (xorb s (Qc_negative b))
  | Fin _, Inf _ => Fin 0
  | Inf _, Inf _ => NaN
  end.

(** [Math.floor] *)
Definition Math_floor (x : number) : number :=
  match x with
  | Fin q => num (Qfloor q)
  | _ => x
  end.

(** [Math.max(x, y)] *)
Definition Math_max (x y : number) : number :=
  match x, y with
  | NaN, _ | _, NaN => NaN
  | Fin a, Fin b => if bool_decide (a <= b) then Fin b else Fin a
  | Inf false, _ | _, Inf false => Inf false
  | Inf true, z | z, Inf true => z
  end.

(** [0 <= x], false on [NaN] as every comparison with [NaN] is. *)
Definition nonneg (x : number) : Prop :=
  match x with
  | NaN => False
  | Inf s => s = false
  | Fin q => 0 <= q
  end.

Declare Scope num_scope.
Delimit Scope num_scope with num.
Bind Scope num_scope with number.
Infix "+" := Nadd : num_scope.
Infix "-" := Nsub : num_scope.
Infix "*" := Nmul : num_scope.
Infix "/" := Ndiv : num_scope.

(** ** Property values and objects *)

Inductive value : Type :=
  | VNum (n : number)
  | VStr (s : jstring).

(** An object is the map of its own properties; a property that was never
    assigned is absent ([!!] gives [None], JavaScript's [undefined]). *)
Abbreviation object := (gmap string value).

(** The falsy numbers are [0] and [NaN]. *)
Definition truthy (x : number) : bool :=
  match x with
  | NaN => false
  | Inf _ => true
  | Fin q => negb (Qc_is_zero q)
  end.

(** [item.k || 0] for a property [k] of type [number | undefined]. *)
Definition or_zero (o : object) (k : string) : number :=
  match o !! k with
  | Some (VNum x) => if truthy x then x else num 0
  | _ => num 0
  end.

(* ===================================================================== *)
(** * The world: random draws and the clock *)
(* ===================================================================== *)

(** [Math.random()] returns the next element of a sequence of draws, each in
    [[0,1)]; [new Date().toISOString()] returns the next reading of the
    clock, a string such as [2024-11-15T09:30:00.000Z]. *)
Record World : Type := mkWorld {
  draws : nat -> Qc;
  drawn : nat;
  readings : nat -> jstring;
  read : nat
}.

Definition M (A : Type) : Type := World -> A * World.

#[export] Instance M_ret : MRet M := fun A (a : A) w => (a, w).

#[export] Instance M_bind : MBind M :=
  fun A B (f : A -> M B) (m : M A) w => let (a, w') := m w in f a w'.

Definition Math_random : M number :=
  fun w => (Fin (draws w (drawn w)),
            mkWorld (draws w) (S (drawn w)) (readings w) (read w)).

Definition Date_toISOString : M jstring :=
  fun w => (readings w (read w),
            mkWorld (draws w) (drawn w) (readings w) (S (read w))).

(** Every draw of [Math.random()] lies in [[0,1)]. *)
Definition fair (w : World) : Prop := forall n, 0 <= draws w n /\ draws w n < 1.

(** [s.split('T')[0]]: the part of [s] before its first ['T']. *)
Fixpoint before_T (s : jstring) : jstring :=
  match s with
  | [] => []
  | c :: s' => if (c =? 84)%N then [] else c :: before_T s'
  end.

(** [new Date().toISOString().split('T')[0]] *)
Definition today : M jstring :=
  iso ← Date_toISOString; mret (before_T iso).

(** [Math.floor(Math.random() * range) + base] *)
Definition random_between (range base : Z) : M number :=
  r ← Math_random; mret (Math_floor (r * num range) + num base)%num.

(* ===================================================================== *)
(** * OCRProcessor.processDocument *)
(* ===================================================================== *)

(** The two members of a [File] the code reads, [file.name] and [file.size]. *)
Record File : Type := mkFile {
  file_name : jstring;
  file_size : N
}.

Definition processDocument (file : File) : M object :=
  let fileName := toLowerCase (file_name file) in
  let fileSize := file_size file in
  if includes fileName (js "electricity") || includes fileName (js "power")
     || includes fileName (js "mseb") then
    energyUsage ← random_between 500 200;
    amount ← random_between 5000 2000;
    billDate ← today;
    mret (<["billType" := VStr (js "electricity")]>
        (<["energyUsage" := VNum energyUsage]>
        (<["amount" := VNum amount]>
        (<["billDate" := VStr billDate]>
        (<["vendor" := VStr (js "Maharashtra State Electricity Board")]> ∅)))))
  else if includes fileName (js "water") || includes fileName (js "municipal") then
    waterConsumption ← random_between 10000 5000;
    amount ← random_between 1500 500;
    billDate ← today;
    mret (<["billType" := VStr (js "water")]>
        (<["waterConsumption" := VNum waterConsumption]>
        (<["amount" := VNum amount]>
        (<["billDate" := VStr billDate]>
        (<["vendor" := VStr (js "Municipal Water Department")]> ∅)))))
  else if includes fileName (js "fuel") || includes fileName (js "petrol")
          || includes fileName (js "diesel") then
    fuelConsumption ← random_between 100 50;
    amount ← random_between 8000 4000;
    billDate ← today;
    mret (<["billType" := VStr (js "fuel")]>
        (<["fuelConsumption" := VNum fuelConsumption]>
        (<["amount" := VNum amount]>
        (<["billDate" := VStr billDate]>
        (<["vendor" := VStr (js "Indian Oil Corporation")]> ∅)))))
  else
    amount ← random_between 3000 1000;
    billDate ← today;
    mret (<["billType" := VStr (js "other")]>
        (<["amount" := VNum amount]>
        (<["billDate" := VStr billDate]>
        (<["vendor" := VStr (js "Unknown Vendor")]> ∅)))).

(* ===================================================================== *)
(** * Regular expressions *)
(* ===================================================================== *)

(** The fragment of the regular expressions of JavaScript that the four
    patterns of [extractKeyFields] are written in.  [Group] is the one
    capturing group of a pattern; the others are non-capturing. *)
Inductive regex : Type :=
  | Eps
  | Chr (c : N)
  | Cls (p : N -> bool)
  | Seq (r1 r2 : regex)
  | Alt (r1 r2 : regex)
  | Star (r : regex)
  | Group (r : regex)
  | WordB.

(** [r+], [r?], a literal word, [r{n}] followed by [k], and [r{0,n}]. *)
Definition Plus (r : regex) : regex := Seq r (Star r).
Definition Opt (r : regex) : regex := Alt r Eps.
Definition Lit (s : string) : regex := foldr Seq Eps (map Chr (js s)).

Fixpoint Times (n : nat) (r k : regex) : regex :=
  match n with
  | O => k
  | S n' => Seq r (Times n' r k)
  end.

Fixpoint UpTo (n : nat) (r : regex) : regex :=
  match n with
  | O => Eps
  | S n' => Opt (Seq r (UpTo n' r))
  end.

(** [r{lo,hi}] *)
Definition Range (lo hi : nat) (r : regex) : regex := Times lo r (UpTo (hi - lo) r).

(** [\s]: the white space and line terminator code units. *)
Definition is_space (c : N) : bool :=
  in_range 9 13 c || (c =? 32)%N || (c =? 160)%N || (c =? 5760)%N
  || in_range 8192 8202 c || (c =? 8232)%N || (c =? 8233)%N
  || (c =? 8239)%N || (c =? 8287)%N || (c =? 12288)%N || (c =? 65279)%N.

(** [\w] *)
Definition is_word (c : N) : bool :=
  is_upper c || is_lower c || is_digit c || (c =? 95)%N.

(** Canonicalisation of a code unit under the [i] flag (without the [u]
    flag): ASCII letters compare by their upper-case form, and a code unit
    outside ASCII never becomes equal to an ASCII one.  The only pattern
    character outside ASCII is the rupee sign, which has no other case. *)
Definition canonical (ignoreCase : bool) (c : N) : N :=
  if ignoreCase && is_lower c then (c - 32)%N else c.

(** The state of a match: the code unit before the current position (for
    [\b]), the input from the current position on, and what group 1 has
    captured. *)
Record mstate : Type := mkState {
  prev : option N;
  rest : jstring;
  cap : option jstring
}.

Definition word_before (st : mstate) : bool :=
  match prev st with Some c => is_word c | None => false end.

Definition word_after (st : mstate) : bool :=
  match rest st with c :: _ => is_word c | [] => false end.

(** What was consumed between two states of one match. *)
Definition consumed (st st' : mstate) : jstring :=
  take (length (rest st) - length (rest st')) (rest st).

(** A greedy [r*]: [body] lists the ends of one iteration.  One more
    iteration is tried before stopping, and an iteration that consumes
    nothing is rejected; as every iteration consumes a code unit, the length
    of the input bounds the number of iterations ([fuel]). *)
Fixpoint iterate (body : mstate -> list mstate) (fuel : nat) (st : mstate)
  : list mstate :=
  match fuel with
  | O => [st]
  | S fuel' =>
      (st1 ← body st;
       if (length (rest st1) <? length (rest st))%nat
       then iterate body fuel' st1 else [])
      ++ [st]
  end.

(** Backtracking as a list of successes: [run i r st] lists the states in
    which a match of [r] started in [st] can end, in the order in which a
    backtracking matcher tries them. *)
Fixpoint run (i : bool) (r : regex) (st : mstate) : list mstate :=
  match r with
  | Eps => [st]
  | Chr c =>
      match rest st with
      | x :: s => if (canonical i x =? canonical i c)%N
                  then [mkState (Some x) s (cap st)] else []
      | [] => []
      end
  | Cls p =>
      match rest st with
      | x :: s => if p x then [mkState (Some x) s (cap st)] else []
      | [] => []
      end
  | Seq r1 r2 => st1 ← run i r1 st; run i r2 st1
  | Alt r1 r2 => run i r1 st ++ run i r2 st
  | Star r1 => iterate (run i r1) (length (rest st)) st
  | Group r1 =>
      (fun st1 => mkState (prev st1) (rest st1) (Some (consumed st st1)))
        <$> run i r1 st
  | WordB => if xorb (word_before st) (word_after st) then [st] else []
  end.

(** The first match of [r] in [s], trying the start positions from left to
    right; [p] is the code unit before [s]. *)
Fixpoint search (i : bool) (r : regex) (p : option N) (s : jstring) : option mstate :=
  match run i r (mkState p s None) with
  | st :: _ => Some st
  | [] =>
      match s with
      | [] => None
      | c :: s' => search i r (Some c) s'
      end
  end.

(** A pattern literal [/r/] or [/r/i]. *)
Record RegExp : Type := mkRegExp {
  source : regex;
  ignoreCase : bool
}.

(** [text.match(re)] for a pattern without the [g] flag: [None] is [null]. *)
Definition String_match (text : jstring) (re : RegExp) : option mstate :=
  search (ignoreCase re) (source re) None text.

(** [m[1]].  Group 1 takes part in every match of the four patterns below;
    an unset group would be [undefined]. *)
Definition group1 (m : mstate) : jstring := default (js "undefined") (cap m).

(** [s.replace(/,/g, '')] *)
Definition remove_commas (s : jstring) : jstring :=
  filter (fun c => c <> 44%N) s.

(** ** parseFloat *)

Fixpoint digits_value (acc : Z) (ds : jstring) : Z :=
  match ds with
  | [] => acc
  | d :: ds' => digits_value (10 * acc + (Z.of_N d - 48)) ds'
  end.

Definition pow10 (e : Z) : Qc :=
  if (0 <=? e)%Z then Q2Qc (inject_Z (10 ^ e)) else / Q2Qc (inject_Z (10 ^ (- e))).

(** The digits at the head of [s] as an exponent; none is no exponent. *)
Definition exponent_digits (negative : bool) (s : jstring) : Z :=
  match take_while is_digit s with
  | [] => 0%Z
  | ds => if negative then (- digits_value 0 ds)%Z else digits_value 0 ds
  end.

(** The exponent part [e±ddd] at the head of [s], if there is one. *)
Definition exponent (s : jstring) : Z :=
  match s with
  | c :: s1 =>
      if (c =? 101)%N || (c =? 69)%N then
        match s1 with
        | c1 :: s2 =>
            if (c1 =? 43)%N then exponent_digits false s2
            else if (c1 =? 45)%N then exponent_digits true s2
            else exponent_digits false s1
        | [] => 0%Z
        end
      else 0%Z
  | [] => 0%Z
  end.

(** The digits after a decimal point at the head of [s], and what follows. *)
Definition fraction_digits (s : jstring) : jstring :=
  match s with
  | c :: s' => if (c =? 46)%N then take_while is_digit s' else []
  | [] => []
  end.

Definition after_fraction (s : jstring) : jstring :=
  match s with
  | c :: s' => if (c =? 46)%N then drop_while is_digit s' else s
  | [] => []
  end.

(** The unsigned decimal literal at the head of [s]. *)
Definition unsigned_literal (negative : bool) (s : jstring) : number :=
  if starts_with (js "Infinity") s then Inf negative else
  let ip := take_while is_digit s in
  let fp := fraction_digits (drop_while is_digit s) in
  let s' := after_fraction (drop_while is_digit s) in
  match ip ++ fp with
  | [] => NaN
  | ds =>
      let mantissa := Q2Qc (inject_Z (digits_value 0 ds)) * pow10 (- Z.of_nat (length fp)) in
      let v := mantissa * pow10 (exponent s') in
      Fin (if negative then - v else v)
  end.

(** [parseFloat(s)]: leading white space is skipped, then the longest
    prefix that is a decimal literal is read; [NaN] when there is none. *)
Definition parseFloat (s : jstring) : number :=
  match drop_while is_space s with
  | c :: s' =>
      if (c =? 43)%N then unsigned_literal false s'
      else if (c =? 45)%N then unsigned_literal true s'
      else unsigned_literal false (c :: s')
  | [] => NaN
  end.

(* ===================================================================== *)
(** * OCRProcessor.extractKeyFields *)
(* ===================================================================== *)

Definition digit : regex := Cls is_digit.
Definition space : regex := Cls is_space.

(** [\d+(?:\.\d+)?] *)
Definition decimal : regex := Seq (Plus digit) (Opt (Seq (Chr 46) (Plus digit))).

(** [kwh|kw|units?] *)
Definition energy_units : regex :=
  Alt (Lit "kwh") (Alt (Lit "kw") (Seq (Lit "unit") (Opt (Chr 115)))).

(** [/(\d+(?:\.\d+)?)\s*(?:kwh|kw|units?)/i] *)
Definition patterns_energy : RegExp :=
  mkRegExp (Seq (Group decimal) (Seq (Star space) energy_units)) true.

(** [litres?|liters?|l\b] *)
Definition water_units : regex :=
  Alt (Seq (Lit "litre") (Opt (Chr 115)))
    (Alt (Seq (Lit "liter") (Opt (Chr 115))) (Seq (Chr 108) WordB)).

(** [/(\d+(?:\.\d+)?)\s*(?:litres?|liters?|l\b)/i] *)
Definition patterns_water : RegExp :=
  mkRegExp (Seq (Group decimal) (Seq (Star space) water_units)) true.

(** [₹|rs\.?|inr]; the rupee sign is U+20B9. *)
Definition currency : regex :=
  Alt (Chr 8377) (Alt (Seq (Lit "rs") (Opt (Chr 46))) (Lit "inr")).

(** [\d+(?:,\d+)*(?:\.\d+)?] *)
Definition grouped : regex :=
  Seq (Plus digit)
    (Seq (Star (Seq (Chr 44) (Plus digit))) (Opt (Seq (Chr 46) (Plus digit)))).

(** [/(?:₹|rs\.?|inr)\s*(\d+(?:,\d+)*(?:\.\d+)?)/i] *)
Definition patterns_amount : RegExp :=
  mkRegExp (Seq currency (Seq (Star space) (Group grouped))) true.

(** [[\/\-]] *)
Definition is_date_sep (c : N) : bool := (c =? 47)%N || (c =? 45)%N.

(** [/(\d{1,2}[\/\-]\d{1,2}[\/\-]\d{2,4})/] *)
Definition patterns_date : RegExp :=
  mkRegExp
    (Group (Seq (Range 1 2 digit)
              (Seq (Cls is_date_sep)
                 (Seq (Range 1 2 digit)
                    (Seq (Cls is_date_sep) (Range 2 4 digit))))))
    false.

Definition extractKeyFields (text : jstring) : object :=
  let extracted : object := ∅ in
  let energyMatch := String_match text patterns_energy in
  let extracted :=
    match energyMatch with
    | Some m => <["energyUsage" := VNum (parseFloat (group1 m))]> extracted
    | None => extracted
    end in
  let waterMatch := String_match text patterns_water in
  let extracted :=
    match waterMatch with
    | Some m => <["waterConsumption" := VNum (parseFloat (group1 m))]> extracted
    | None => extracted
    end in
  let amountMatch := String_match text patterns_amount in
  let extracted :=
    match amountMatch with
    | Some m => <["amount" := VNum (parseFloat (remove_commas (group1 m)))]> extracted
    | None => extracted
    end in
  let dateMatch := String_match text patterns_date in
  let extracted :=
    match dateMatch with
    | Some m => <["billDate" := VStr (group1 m)]> extracted
    | None => extracted
    end in
  extracted.

(* ===================================================================== *)
(** * App.handleFileUpload *)
(* ===================================================================== *)

(** The argument of [EmissionCalculator.calculateESGScore]. *)
Record ESGInput : Type := mkESGInput {
  carbonIntensity : number;
  energyEfficiency : number;
  waterEfficiency : number;
  wasteReduction : number
}.

(** [utils/emissionCalculator] is imported by [App.tsx]; its two static
    methods are an interface here, and [handleFileUpload] is modelled for
    every implementation of it. *)
Class EmissionCalculator : Type := {
  calculateCarbonFootprint : list object -> number;
  calculateESGScore : ESGInput -> number
}.

(** The [trends] member; its fields are [carbon], [energy], [water] and
    [waste] in the source. *)
Record Trends : Type := mkTrends {
  trends_carbon : list number;
  trends_energy : list number;
  trends_water : list number;
  trends_waste : list number
}.

(** [SustainabilityMetrics] of [types/sustainability.ts]. *)
Record SustainabilityMetrics : Type := mkMetrics {
  carbonFootprint : number;
  energyUsage : number;
  waterConsumption : number;
  wasteGeneration : number;
  esgScore : number;
  trends : Trends
}.

(** A finite decimal constant of the source. *)
Definition dec (q : Q) : number := Fin (Q2Qc q).

(** [processedData.reduce((sum, item) => sum + (item.k || 0), 0)] *)
Definition reduce_sum (k : string) (processedData : list object) : number :=
  foldl (fun sum item => (sum + or_zero item k)%num) (num 0) processedData.

(** The loop over [files]: [processDocument] never throws, so the [catch]
    branch is never taken and every file contributes one document. *)
Fixpoint process_files (files : list File) : M (list object) :=
  match files with
  | [] => mret []
  | file :: files' =>
      extracted ← processDocument file;
      processedData ← process_files files';
      mret (extracted :: processedData)
  end.

(** The input that the timer callback of [handleFileUpload] passes to
    [calculateESGScore]. *)
Definition esg_input `{EmissionCalculator} (processedData : list object) : ESGInput :=
  let carbonFootprint := calculateCarbonFootprint processedData in
  let energyUsage := reduce_sum "energyUsage" processedData in
  let waterConsumption := reduce_sum "waterConsumption" processedData in
  let wasteGeneration := reduce_sum "wasteGeneration" processedData in
  {| carbonIntensity := carbonFootprint;
     energyEfficiency := Math_max (num 0) (num 100 - energyUsage / num 1000)%num;
     waterEfficiency := Math_max (num 0) (num 100 - waterConsumption / num 10000)%num;
     wasteReduction := Math_max (num 0) (num 100 - wasteGeneration)%num |}.

(** The [metrics] object that the timer callback of [handleFileUpload]
    builds and hands to [setAnalysisData]. *)
Definition metrics_of `{EmissionCalculator} (processedData : list object)
  : SustainabilityMetrics :=
  let esgScore := calculateESGScore (esg_input processedData) in
  {| carbonFootprint := dec 2.4;
     energyUsage := num 1250;
     waterConsumption := num 850;
     wasteGeneration := num 45;
     esgScore := esgScore;
     trends :=
       {| trends_carbon := [dec 2.1; dec 2.3; dec 2.4; dec 2.2; dec 2.4];
          trends_energy := [num 1180; num 1200; num 1250; num 1220; num 1250];
          trends_water := [num 800; num 820; num 850; num 830; num 850];
          trends_waste := [num 42; num 44; num 45; num 43; num 45] |} |}.

(** The part of the component state that [handleFileUpload] writes from the
    documents (badges and pledges belong to the gamification module). *)
Record AppState : Type := mkApp {
  uploadedFiles : list File;
  extractedData : list object;
  analysisData : option SustainabilityMetrics
}.

Definition handleFileUpload `{EmissionCalculator} (files : list File) (app : AppState)
  : M AppState :=
  processedData ← process_files files;
  let metrics := metrics_of processedData in
  mret {| uploadedFiles := files;
          extractedData := processedData;
          analysisData := Some metrics |}.

(* ===================================================================== *)
(** * The emission calculator and the ESG scorer *)
(* ===================================================================== *)

(** [EmissionFactors] of [types/sustainability.ts], in kg CO2 per unit. *)
Record EmissionFactors : Type := mkFactors {
  electricity : Qc;
  water : Qc;
  petrol : Qc;
  diesel : Qc;
  waste : Qc
}.

Module Calculator.

(** Modelled from the spec: the reference constants of its section 6. *)
Definition reference_factors : EmissionFactors :=
  {| electricity := Q2Qc 0.82;
     water := Q2Qc 0.0003;
     petrol := Q2Qc 2.31;
     diesel := Q2Qc 2.68;
     waste := Q2Qc 0.5 |}.

(** Modelled from the spec: it has one [fuel] bill type and two fuel
    factors; which of the two a fuel document is charged with is a
    parameter. *)
Inductive FuelKind : Type := Petrol | Diesel.

Record Config : Type := mkConfig {
  factors : EmissionFactors;
  fuel_kind : FuelKind
}.

(** Modelled from the spec: the category of a document, the quantity field
    relevant to it and the factor of the category; [None] for [other] and
    for anything else. *)
Definition category (c : Config) (billType : jstring)
  : option (string * string * Qc) :=
  if decide (billType = js "electricity")
  then Some ("electricity", "energyUsage", electricity (factors c))
  else if decide (billType = js "water")
  then Some ("water", "waterConsumption", water (factors c))
  else if decide (billType = js "fuel")
  then Some ("fuel", "fuelConsumption",
             match fuel_kind c with
             | Petrol => petrol (factors c)
             | Diesel => diesel (factors c)
             end)
  else if decide (billType = js "waste")
  then Some ("waste", "wasteGeneration", waste (factors c))
  else None.

Definition quantity_fields : list string :=
  ["energyUsage"; "waterConsumption"; "fuelConsumption"; "wasteGeneration"].

Definition reference_config : Config :=
  {| factors := reference_factors; fuel_kind := Petrol |}.

(** Modelled from the spec (section 7 (d)): a populated quantity must be a
    finite number that is not negative. *)
Definition valid_quantity (v : option value) : bool :=
  match v with
  | None => true
  | Some (VNum (Fin q)) => bool_decide (0 <= q)
  | Some _ => false
  end.

Definition valid_document (d : object) : bool :=
  forallb (fun k => valid_quantity (d !! k)) quantity_fields.

(** Modelled from the spec: what one document adds, its category and the
    emissions of its relevant quantity, when the quantity is populated. *)
Definition contribution (c : Config) (d : object) : option (string * Qc) :=
  match d !! "billType" with
  | Some (VStr b) =>
      match category c b with
      | Some (cat, field, factor) =>
          match d !! field with
          | Some (VNum (Fin q)) => Some (cat, q * factor)
          | _ => None
          end
      | None => None
      end
  | _ => None
  end.

Record Emissions : Type := mkEmissions {
  totalEmissions : Qc;
  breakdown : gmap string Qc
}.

(** Modelled from the spec: the contribution of a document is added to the
    running total and to the entry of its category in the breakdown. *)
Definition accumulate (c : Config) (acc : Emissions) (d : object) : Emissions :=
  match contribution c d with
  | Some (cat, e) =>
      {| totalEmissions := totalEmissions acc + e;
         breakdown := <[cat := default 0 (breakdown acc !! cat) + e]> (breakdown acc) |}
  | None => acc
  end.

(** Modelled from the spec: [EmissionCalculator.calculateCarbonFootprint]
    of [utils/emissionCalculator], which is not among the sources.  Section
    4.4: every populated quantity relevant to the category of its document
    is multiplied by the factor of the category and accumulated into
    [breakdown[category]] and into a running total; categories absent from
    the batch are absent from the breakdown; [other] adds nothing.  Section
    7 (d): a batch with a negative quantity is rejected as a whole
    ([None]).  Total and breakdown are both in kg CO2e. *)
Definition calculate (c : Config) (documents : list object) : option Emissions :=
  if forallb valid_document documents
  then Some (foldl (accumulate c) {| totalEmissions := 0; breakdown := ∅ |} documents)
  else None.

End Calculator.

Module ESG.

(** Modelled from the spec: the four weights of the composite score. *)
Record Weights : Type := mkWeights {
  w_carbon : Qc;
  w_energy : Qc;
  w_water : Qc;
  w_waste : Qc
}.

(** Weights of a weighted average: none negative, summing to one. *)
Definition valid_weights (w : Weights) : Prop :=
  0 <= w_carbon w /\ 0 <= w_energy w /\ 0 <= w_water w /\ 0 <= w_waste w /\
  w_carbon w + w_energy w + w_water w + w_waste w = 1.

(** Modelled from the spec: the four input dimensions, three
    better-is-higher scores and a carbon-intensity measure, which the
    specification treats alike. *)
Record Input : Type := mkInput {
  carbon : Qc;
  energy : Qc;
  water_eff : Qc;
  waste_red : Qc
}.

Definition hundred : Qc := Q2Qc 100.

(** Modelled from the spec: clamping to [[0,100]]. *)
Definition clamp (x : Qc) : Qc :=
  if bool_decide (x <= 0) then 0
  else if bool_decide (hundred <= x) then hundred
  else x.

Definition clamp_input (i : Input) : Input :=
  {| carbon := clamp (carbon i);
     energy := clamp (energy i);
     water_eff := clamp (water_eff i);
     waste_red := clamp (waste_red i) |}.

(** Modelled from the spec: [EmissionCalculator.calculateESGScore] of
    [utils/emissionCalculator], which is not among the sources.  Section
    4.5: a weighted average across the four input dimensions, the weights
    fixed and summing to 1.0, each input clamped to [0,100] before
    weighting.  The specification does not give the weights; they are a
    parameter. *)
Definition score (w : Weights) (i : Input) : Qc :=
  w_carbon w * clamp (carbon i) + w_energy w * clamp (energy i)
  + w_water w * clamp (water_eff i) + w_waste w * clamp (waste_red i).

(** Equal weights, one quarter each. *)
Definition quarters : Weights :=
  {| w_carbon := Q2Qc 0.25; w_energy := Q2Qc 0.25;
     w_water := Q2Qc 0.25; w_waste := Q2Qc 0.25 |}.

End ESG.

(* ===================================================================== *)
(** * Vocabulary of the properties *)
(* ===================================================================== *)

(** The keywords that [processDocument] looks for in the file name. *)
Definition keywords : list string :=
  ["electricity"; "power"; "mseb"; "water"; "municipal"; "fuel"; "petrol"; "diesel"].

(** The file name contains none of them. *)
Definition unclassified (file : File) : bool :=
  forallb (fun k => negb (includes (toLowerCase (file_name file)) (js k))) keywords.

(** The value read from the clock by the next [new Date()]. *)
Definition date_now (w : World) : jstring := before_T (readings w (read w)).

(** A world in which every draw is one half and the clock shows the morning
    of 15 November 2024. *)
Definition sample_world : World :=
  mkWorld (fun _ => Q2Qc 0.5) 0 (fun _ => js "2024-11-15T09:30:00.000Z") 0.

Definition empty_file : File := mkFile [] 0.
Definition receipt_file : File := mkFile (js "receipt.png") 2048.
Definition mseb_file : File := mkFile (js "mseb_bill.jpg") 2048.

(** Two documents of a batch. *)
Definition electricity_doc : object :=
  <["billType" := VStr (js "electricity")]> (<["energyUsage" := VNum (dec 245.5)]> ∅).

Definition water_doc : object :=
  <["billType" := VStr (js "water")]> (<["waterConsumption" := VNum (num 9000)]> ∅).

(** A calculator that reports nothing, for examples in which the
    calculator plays no part. *)
Definition silent_calculator : EmissionCalculator :=
  {| calculateCarbonFootprint := fun _ => num 0;
     calculateESGScore := fun _ => num 0 |}.

(** The text of the end-to-end example of the specification. *)
Definition bill_text : jstring := js "245.5 kWh Rs. 3,250 15/11/2024".

(* ===================================================================== *)
(** * What a pattern matches *)
(* ===================================================================== *)

(** The code unit before the position reached after reading [w]. *)
Definition prev_after (p : option N) (w : jstring) : option N :=
  match last w with
  | Some c => Some c
  | None => p
  end.

(** The state reached from [st] by reading [w], with [s'] left to read. *)
Definition advance (st : mstate) (w s' : jstring) : mstate :=
  mkState (prev_after (prev st) w) s' (cap st).

(** [matches i r st st']: a match of [r] started in [st] can end in [st']. *)
Inductive matches (i : bool) : regex -> mstate -> mstate -> Prop :=
  | m_eps st :
      matches i Eps st st
  | m_chr c x st s :
      rest st = x :: s -> canonical i x = canonical i c ->
      matches i (Chr c) st (mkState (Some x) s (cap st))
  | m_cls (p : N -> bool) x st s :
      rest st = x :: s -> p x = true ->
      matches i (Cls p) st (mkState (Some x) s (cap st))
  | m_seq r1 r2 st st1 st2 :
      matches i r1 st st1 -> matches i r2 st1 st2 ->
      matches i (Seq r1 r2) st st2
  | m_alt_l r1 r2 st st1 :
      matches i r1 st st1 -> matches i (Alt r1 r2) st st1
  | m_alt_r r1 r2 st st2 :
      matches i r2 st st2 -> matches i (Alt r1 r2) st st2
  | m_star_stop r st :
      matches i (Star r) st st
  | m_star_step r st st1 st2 :
      matches i r st st1 ->
      (length (rest st1) < length (rest st))%nat ->
      matches i (Star r) st1 st2 ->
      matches i (Star r) st st2
  | m_group r st st1 :
      matches i r st st1 ->
      matches i (Group r) st (mkState (prev st1) (rest st1) (Some (consumed st st1)))
  | m_wordb st :
      xorb (word_before st) (word_after st) = true ->
      matches i WordB st st.

(** Patterns without a group, and patterns with neither a group nor [\b]:
    what the latter match is a set of words. *)
Fixpoint groupless (r : regex) : bool :=
  match r with
  | Eps | Chr _ | Cls _ | WordB => true
  | Seq r1 r2 | Alt r1 r2 => groupless r1 && groupless r2
  | Star r1 => groupless r1
  | Group _ => false
  end.

Fixpoint pure (r : regex) : bool :=
  match r with
  | Eps | Chr _ | Cls _ => true
  | Seq r1 r2 | Alt r1 r2 => pure r1 && pure r2
  | Star r1 => pure r1
  | Group _ | WordB => false
  end.

Fixpoint lang (i : bool) (r : regex) (w : jstring) : Prop :=
  match r with
  | Eps => w = []
  | Chr c => exists x, w = [x] /\ canonical i x = canonical i c
  | Cls p => exists x, w = [x] /\ p x = true
  | Seq r1 r2 => exists w1 w2, w = w1 ++ w2 /\ lang i r1 w1 /\ lang i r2 w2
  | Alt r1 r2 => lang i r1 w \/ lang i r2 w
  | Star r1 => exists ws, w = concat ws /\ Forall (fun u => u <> [] /\ lang i r1 u) ws
  | Group r1 => lang i r1 w
  | WordB => w = []
  end.

(* ===================================================================== *)
(** * Vocabulary of the extraction properties *)
(* ===================================================================== *)

Definition digits (s : jstring) : Prop := Forall (fun c => is_digit c = true) s.
Definition spaces (s : jstring) : Prop := Forall (fun c => is_space c = true) s.

(** [u] is the word [t] up to the case of its ASCII letters. *)
Definition same_word (t : string) (u : jstring) : Prop :=
  map (canonical true) u = map (canonical true) (js t).

(** A number: digits, then possibly a point and digits. *)
Inductive decimal_numeral : jstring -> Prop :=
  | numeral_int ip :
      ip <> [] -> digits ip -> decimal_numeral ip
  | numeral_frac ip fp :
      ip <> [] -> fp <> [] -> digits ip -> digits fp ->
      decimal_numeral (ip ++ 46%N :: fp).

(** The part of [s] before its first point, and the part after it. *)
Fixpoint before_point (s : jstring) : jstring :=
  match s with
  | [] => []
  | c :: s' => if (c =? 46)%N then [] else c :: before_point s'
  end.

Fixpoint after_point (s : jstring) : jstring :=
  match s with
  | [] => []
  | c :: s' => if (c =? 46)%N then s' else after_point s'
  end.

(** The value of a number: its integer part plus its fraction part scaled
    by the number of fraction digits. *)
Definition decimal_value (s : jstring) : Qc :=
  Q2Qc (inject_Z (digits_value 0 (before_point s)))
  + Q2Qc (inject_Z (digits_value 0 (after_point s)))
    * pow10 (- Z.of_nat (length (after_point s))).

(** ** Energy *)

Definition energy_unit (u : jstring) : Prop :=
  same_word "kwh" u \/ same_word "kw" u \/ same_word "unit" u \/ same_word "units" u.

(** [s] begins with the number [n], white space and a unit token. *)
Definition energy_at (s n : jstring) : Prop :=
  exists ws u post,
    s = n ++ ws ++ u ++ post /\ decimal_numeral n /\ spaces ws /\ energy_unit u.

(** [n] is the number of the first occurrence, in document order, of a
    number followed by a unit token in [text]. *)
Definition first_energy (text n : jstring) : Prop :=
  exists pre s,
    text = pre ++ s /\ energy_at s n /\
    forall pre' s' n',
      text = pre' ++ s' -> energy_at s' n' -> (length pre <= length pre')%nat.

(** ** Amount *)

(** The currency markers: the rupee sign, [Rs], [Rs.] and [INR]. *)
Definition currency_marker (m : jstring) : Prop :=
  m = [8377%N] \/ same_word "rs" m \/ same_word "rs." m \/ same_word "inr" m.

(** What may follow a digit in the integer part of a number with comma
    grouping: digits, each possibly preceded by one comma. *)
Inductive group_tail : jstring -> Prop :=
  | group_tail_nil : group_tail []
  | group_tail_digit d w :
      is_digit d = true -> group_tail w -> group_tail (d :: w)
  | group_tail_comma d w :
      is_digit d = true -> group_tail w -> group_tail (44%N :: d :: w).

(** A number that may use comma grouping: groups of digits separated by
    single commas, then possibly a point and digits. *)
Inductive grouped_numeral : jstring -> Prop :=
  | grouped_int d w :
      is_digit d = true -> group_tail w -> grouped_numeral (d :: w)
  | grouped_frac d w fp :
      is_digit d = true -> group_tail w -> fp <> [] -> digits fp ->
      grouped_numeral ((d :: w) ++ 46%N :: fp).

(** [s] begins with a currency marker, white space and the number [n]
    with comma grouping, and [n] is the longest such number there. *)
Definition amount_at (s n : jstring) : Prop :=
  exists m ws post,
    s = m ++ ws ++ n ++ post /\ currency_marker m /\ spaces ws /\
    grouped_numeral n /\
    forall n' post',
      n ++ post = n' ++ post' -> grouped_numeral n' -> (length n' <= length n)%nat.

Definition first_amount (text n : jstring) : Prop :=
  exists pre s,
    text = pre ++ s /\ amount_at s n /\
    forall pre' s' n',
      text = pre' ++ s' -> amount_at s' n' -> (length pre <= length pre')%nat.

(** [s] begins with a currency marker, white space and a digit. *)
Definition amount_start (s : jstring) : Prop :=
  exists m ws d post,
    s = m ++ ws ++ d :: post /\ currency_marker m /\ spaces ws /\ is_digit d = true.

(** The greedy reading of a number with comma grouping: from a position
    after a digit, [after_digit] reads on through digits, and through a
    comma when a digit follows it; [after_digit_rest] is what it leaves. *)
Fixpoint after_digit (s : jstring) : jstring :=
  match s with
  | c :: s' =>
      if is_digit c then c :: after_digit s'
      else if (c =? 44)%N then
        match s' with
        | d :: _ => if is_digit d then c :: after_digit s' else []
        | [] => []
        end
      else []
  | [] => []
  end.

Fixpoint after_digit_rest (s : jstring) : jstring :=
  match s with
  | c :: s' =>
      if is_digit c then after_digit_rest s'
      else if (c =? 44)%N then
        match s' with
        | d :: _ => if is_digit d then after_digit_rest s' else s
        | [] => s
        end
      else s
  | [] => []
  end.

(** The groups [,ddd] at the head of [s], and what they leave. *)
Definition groups (s : jstring) : jstring :=
  match s with
  | c :: _ => if is_digit c then [] else after_digit s
  | [] => []
  end.

Definition groups_rest (s : jstring) : jstring :=
  match s with
  | c :: _ => if is_digit c then s else after_digit_rest s
  | [] => []
  end.

(** A separator [c0] and the digits after it at the head of [s], when at
    least one digit follows the separator; and what they leave. *)
Definition separated (c0 : N) (s : jstring) : jstring :=
  match s with
  | c :: d :: s' =>
      if (c =? c0)%N && is_digit d then c :: take_while is_digit (d :: s') else []
  | _ => []
  end.

Definition separated_rest (c0 : N) (s : jstring) : jstring :=
  match s with
  | c :: d :: s' =>
      if (c =? c0)%N && is_digit d then drop_while is_digit (d :: s') else s
  | _ => s
  end.

(** The number with comma grouping at the head of [s], read greedily. *)
Definition leading_number (s : jstring) : jstring :=
  match s with
  | d :: _ =>
      if is_digit d
      then after_digit s ++ separated 46 (after_digit_rest s)
      else []
  | [] => []
  end.

Definition leading_number_rest (s : jstring) : jstring :=
  match s with
  | d :: _ => if is_digit d then separated_rest 46 (after_digit_rest s) else s
  | [] => []
  end.

(** A text at whose head no code unit of the class [p] stands. *)
Definition stops (p : N -> bool) (s : jstring) : Prop :=
  match s with
  | c :: _ => p c = false
  | [] => True
  end.

(** What follows a marker: white space or the first digit. *)
Definition number_ahead (x : jstring) : Prop :=
  match x with
  | c :: _ => is_space c = true \/ is_digit c = true
  | [] => False
  end.

From stdpp Require pretty.

(* ===================================================================== *)
(** * Vocabulary of the further properties of extractKeyFields *)
(* ===================================================================== *)

(** [n] is what the first position, in document order, at which [text]
    has an occurrence described by [occurs] yields there. *)
Definition first_occurrence (occurs : jstring -> jstring -> Prop) (text n : jstring) : Prop :=
  exists pre s,
    text = pre ++ s /\ occurs s n /\
    forall pre' s' n',
      text = pre' ++ s' -> occurs s' n' -> (length pre <= length pre')%nat.

(** ** Water *)

(** The unit tokens of the water pattern, each before the text [post]: the
    words [litre], [litres], [liter], [liters], and a single [l] after
    which no letter, digit or underscore follows. *)
Definition water_unit (u post : jstring) : Prop :=
  same_word "litre" u \/ same_word "litres" u \/ same_word "liter" u
  \/ same_word "liters" u \/ (same_word "l" u /\ stops is_word post).

(** [s] begins with the number [n], white space and a unit token. *)
Definition water_at (s n : jstring) : Prop :=
  exists ws u post,
    s = n ++ ws ++ u ++ post /\ decimal_numeral n /\ spaces ws /\ water_unit u post.

(** ** Date *)

(** A date as the date pattern reads it: one or two digits, a slash or a
    hyphen, one or two digits, a slash or a hyphen, two to four digits. *)
Definition date_shape (n : jstring) : Prop :=
  exists d s1 m s2 y,
    n = d ++ s1 :: m ++ s2 :: y /\
    digits d /\ (1 <= length d <= 2)%nat /\ is_date_sep s1 = true /\
    digits m /\ (1 <= length m <= 2)%nat /\ is_date_sep s2 = true /\
    digits y /\ (2 <= length y <= 4)%nat.

(** [s] begins with the date [n], and [n] is the longest date there. *)
Definition date_at (s n : jstring) : Prop :=
  exists post,
    s = n ++ post /\ date_shape n /\
    forall n' post', s = n' ++ post' -> date_shape n' -> (length n' <= length n)%nat.

(** A calendar date in the ISO form [YYYY-MM-DD], from its eight digits. *)
Definition iso_date (y1 y2 y3 y4 m1 m2 d1 d2 : N) : jstring :=
  [y1; y2; y3; y4; 45%N; m1; m2; 45%N; d1; d2].

(** A text without a digit, and two sample texts. *)
Definition digitless (text : jstring) : bool := forallb (fun c => negb (is_digit c)) text.

Definition thanks_text : jstring := js "Thank you for your payment, kWh and Rs. are due".
Definition timestamp_text : jstring := js "2024-11-15T09:30:00.000Z".

(* ===================================================================== *)
(** * Vocabulary of the further properties of processDocument *)
(* ===================================================================== *)

(** What a kind of bill looks like: its [billType], its quantity property
    with the least and the greatest value it takes, the least and greatest
    [amount], and its vendor. *)
Record Profile : Type := mkProfile {
  bill_type : string;
  quantity : option (string * Z * Z);
  amount_least : Z;
  amount_greatest : Z;
  vendor_name : string
}.

Definition electricity_profile : Profile :=
  mkProfile "electricity" (Some ("energyUsage", 200, 699)%Z) 2000 6999
    "Maharashtra State Electricity Board".
Definition water_profile : Profile :=
  mkProfile "water" (Some ("waterConsumption", 5000, 14999)%Z) 500 1999
    "Municipal Water Department".
Definition fuel_profile : Profile :=
  mkProfile "fuel" (Some ("fuelConsumption", 50, 149)%Z) 4000 11999
    "Indian Oil Corporation".
Definition other_profile : Profile :=
  mkProfile "other" None 1000 3999 "Unknown Vendor".

(** The document of a profile with the quantity [q], the amount [a] and
    the bill date [date]: these properties and no other. *)
Definition profile_document (p : Profile) (q a : Z) (date : jstring) : object :=
  let rest : object :=
    <["amount" := VNum (num a)]>
      (<["billDate" := VStr date]> (<["vendor" := VStr (js (vendor_name p))]> ∅)) in
  <["billType" := VStr (js (bill_type p))]>
    match quantity p with
    | Some (k, _, _) => <[k := VNum (num q)]> rest
    | None => rest
    end.

Definition quantity_in_range (p : Profile) (q : Z) : Prop :=
  match quantity p with
  | Some (_, least, greatest) => (least <= q <= greatest)%Z
  | None => True
  end.

(** The lower-cased file name contains the keyword [k]. *)
Definition mentions (file : File) (k : string) : bool :=
  includes (toLowerCase (file_name file)) (js k).

Definition mentions_electricity (file : File) : bool :=
  mentions file "electricity" || mentions file "power" || mentions file "mseb".
Definition mentions_water (file : File) : bool :=
  mentions file "water" || mentions file "municipal".
Definition mentions_fuel (file : File) : bool :=
  mentions file "fuel" || mentions file "petrol" || mentions file "diesel".

(** The profile that the keywords in the name of a file select: the
    electricity keywords come first, then those of water, then those of
    fuel. *)
Definition profile_of (file : File) : Profile :=
  if mentions_electricity file then electricity_profile
  else if mentions_water file then water_profile
  else if mentions_fuel file then fuel_profile
  else other_profile.

(** Two strings that differ at most in the case of their ASCII letters. *)
Definition same_letters (a b : jstring) : Prop :=
  map (canonical true) a = map (canonical true) b.

(** Sample files. *)
Definition shouting_file : File := mkFile (js "MSEB_Bill.JPG") 10.
Definition mixed_file : File := mkFile (js "water_pump_power.pdf") 4096.

(* ===================================================================== *)
(** * App: badges *)
(* ===================================================================== *)

(** A [Date] is represented by the reading of the clock that made it, in
    the form [toISOString] gives. *)
Definition new_Date : M jstring := Date_toISOString.

(** [Array.prototype.map] with a callback that reads the world: the
    callback runs on the elements in index order. *)
Fixpoint map_M {A B : Type} (f : A -> M B) (l : list A) : M (list B) :=
  match l with
  | [] => mret []
  | x :: l' => y ← f x; ys ← map_M f l'; mret (y :: ys)
  end.

Inductive BadgeType : Type := bronze | silver | gold | platinum.

(** [Badge] of [types/sustainability.ts]; [id], [name], [description],
    [type] and [icon] carry the prefix [badge_] here. *)
Record Badge : Type := mkBadge {
  badge_id : jstring;
  badge_name : jstring;
  badge_description : jstring;
  badge_type : BadgeType;
  badge_icon : jstring;
  earned : bool;
  earnedDate : option jstring;
  progress : option number
}.

(** The [userStats] object that [handleFileUpload] builds. *)
Record UserStats : Type := mkUserStats {
  uploadsCount : nat;
  monthsActive : nat;
  completedPledges : nat;
  totalPledges : nat
}.

(** [utils/gamification] is imported by [App.tsx]; the two members that
    [App.tsx] uses are an interface here. *)
Class GamificationEngine : Type := {
  AVAILABLE_BADGES : list Badge;
  checkBadgeEligibility : jstring -> SustainabilityMetrics -> UserStats -> bool
}.

(** The initial value of the [badges] state:
    [AVAILABLE_BADGES.map(badge => ({...badge, earned: false,
    progress: Math.floor(Math.random() * 60)}))]. *)
Definition initial_badges `{GamificationEngine} : M (list Badge) :=
  map_M (fun badge =>
           r ← Math_random;
           mret {| badge_id := badge_id badge;
                   badge_name := badge_name badge;
                   badge_description := badge_description badge;
                   badge_type := badge_type badge;
                   badge_icon := badge_icon badge;
                   earned := false;
                   earnedDate := earnedDate badge;
                   progress := Some (Math_floor (r * num 60)%num) |})
    AVAILABLE_BADGES.

(** The updater that the timer callback of [handleFileUpload] hands to
    [setBadges]. *)
Definition update_badges `{GamificationEngine}
    (metrics : SustainabilityMetrics) (userStats : UserStats) (prev : list Badge)
  : M (list Badge) :=
  map_M (fun badge =>
           if negb (earned badge) && checkBadgeEligibility (badge_id badge) metrics userStats
           then
             now ← new_Date;
             mret {| badge_id := badge_id badge;
                     badge_name := badge_name badge;
                     badge_description := badge_description badge;
                     badge_type := badge_type badge;
                     badge_icon := badge_icon badge;
                     earned := true;
                     earnedDate := Some now;
                     progress := progress badge |}
           else mret badge)
    prev.

(* ===================================================================== *)
(** * App: pledges *)
(* ===================================================================== *)

Inductive PledgeCategory : Type :=
  | category_energy | category_water | category_carbon | category_waste.

Inductive PledgeStatus : Type := active | completed | failed.

(** [Omit<Pledge, 'id' | 'current' | 'status'>], the argument of
    [handleCreatePledge]. *)
Record PledgeData : Type := mkPledgeData {
  data_title : jstring;
  data_description : jstring;
  data_target : number;
  data_unit : jstring;
  data_deadline : jstring;
  data_category : PledgeCategory
}.

(** [Pledge] of [types/sustainability.ts]; its fields carry the prefix
    [pledge_] here. *)
Record Pledge : Type := mkPledge {
  pledge_id : jstring;
  pledge_title : jstring;
  pledge_description : jstring;
  pledge_target : number;
  pledge_current : number;
  pledge_unit : jstring;
  pledge_deadline : jstring;
  pledge_category : PledgeCategory;
  pledge_status : PledgeStatus
}.

(** [n.toString()] for the whole number [n] that [Date.now()] returns: a
    time value is at most 8.64e15, and a whole number below 1e21 is
    written with its decimal digits. *)
Definition Number_toString (n : N) : jstring := js (pretty.pretty n).

(** [handleCreatePledge(pledgeData)], as the state of [pledges] after it;
    [now] is what [Date.now()] returns. *)
Definition handleCreatePledge (now : N) (pledgeData : PledgeData) (prev : list Pledge)
  : list Pledge :=
  let newPledge :=
    {| pledge_id := Number_toString now;
       pledge_title := data_title pledgeData;
       pledge_description := data_description pledgeData;
       pledge_target := data_target pledgeData;
       pledge_current := num 0;
       pledge_unit := data_unit pledgeData;
       pledge_deadline := data_deadline pledgeData;
       pledge_category := data_category pledgeData;
       pledge_status := active |} in
  prev ++ [newPledge].

(* ===================================================================== *)
(** * App: the panels of the main area *)
(* ===================================================================== *)

(** The children of the main area, by the component each one shows. *)
Inductive Panel : Type :=
  | Hero
  | FileUpload
  | EnhancedDashboard (data : SustainabilityMetrics)
  | Reports (data : SustainabilityMetrics)
  | Gamification
  | NoData.

(** [cond && <element>]: the element when [cond] holds, nothing otherwise. *)
Definition shown (cond : bool) (p : Panel) : list Panel := if cond then [p] else [].

Definition is_tab (activeTab : jstring) (t : string) : bool :=
  bool_decide (activeTab = js t).

(** The children that [App] renders in its main area, in source order. *)
Definition main_panels (activeTab : jstring) (analysisData : option SustainabilityMetrics)
  : list Panel :=
  shown (is_tab activeTab "home") Hero
  ++ shown (is_tab activeTab "upload") FileUpload
  ++ match analysisData with
     | Some data => shown (is_tab activeTab "dashboard") (EnhancedDashboard data)
     | None => []
     end
  ++ match analysisData with
     | Some data => shown (is_tab activeTab "reports") (Reports data)
     | None => []
     end
  ++ shown (is_tab activeTab "gamification") Gamification
  ++ shown (negb (bool_decide (is_Some analysisData))
            && (is_tab activeTab "dashboard" || is_tab activeTab "reports"
                || is_tab activeTab "gamification")) NoData.

(** A sample engine with two badges, of which the first is awarded to
    everyone. *)
Definition sample_badge (i : string) : Badge :=
  mkBadge (js i) (js "Badge") (js "A badge") bronze (js "leaf") false None None.

Definition sample_engine : GamificationEngine :=
  {| AVAILABLE_BADGES := [sample_badge "first-upload"; sample_badge "carbon-hero"];
     checkBadgeEligibility := fun i _ _ => bool_decide (i = js "first-upload") |}.

(* ===================================================================== *)
(** * Vocabulary of the case of letters *)
(* ===================================================================== *)

(** A class of code units that does not tell the two cases of an ASCII
    letter apart. *)
Definition caseless (p : N -> bool) : Prop :=
  forall x y, canonical true x = canonical true y -> p x = p y.

(** A pattern read without regard to case: all its classes are caseless,
    and it is matched under the [i] flag unless it has no literal
    character. *)
Fixpoint caseless_regex (i : bool) (r : regex) : Prop :=
  match r with
  | Eps | WordB => True
  | Chr _ => i = true
  | Cls p => caseless p
  | Seq r1 r2 | Alt r1 r2 => caseless_regex i r1 /\ caseless_regex i r2
  | Star r1 | Group r1 => caseless_regex i r1
  end.

(** Two states of a match on two texts that differ in case only. *)
Definition alike (st st' : mstate) : Prop :=
  same_letters (rest st) (rest st') /\
  option_Forall2 (fun x y => canonical true x = canonical true y) (prev st) (prev st') /\
  option_Forall2 same_letters (cap st) (cap st').

(** A code unit that is no ASCII letter. *)
Definition letterless (c : N) : Prop := is_lower c = false /\ is_upper c = false.

Definition shouting_text : jstring := js "USED 245.5 KWH AND 12 LITRES, RS. 3,250 ON 15/11/2024".
Definition quiet_text : jstring := js "used 245.5 kwh and 12 litres, rs. 3,250 on 15/11/2024".

(* ===================================================================== *)
(** * EnhancedChatbot *)
(* ===================================================================== *)

(** [x || d] for a number [x] that may be [undefined]. *)
Definition or_number (x : option number) (d : number) : number :=
  match x with
  | Some v => if truthy v then v else d
  | None => d
  end.

(** [a[i]] for an array of numbers: [undefined] outside the array. *)
Definition at_index (a : list number) (i : Z) : option number :=
  if (i <? 0)%Z then None else a !! Z.to_nat i.

(** An operand that may be [undefined], in arithmetic: [undefined] is
    [NaN] there. *)
Definition to_number (x : option number) : number := default NaN x.

(** [Math.round]: the nearest whole number, a tie going up. *)
Definition Math_round (x : number) : number :=
  match x with
  | Fin q => num (Qfloor (q + Q2Qc 0.5))
  | _ => x
  end.

(** [x > 0], false on [NaN]. *)
Definition positive_number (x : number) : bool :=
  match x with
  | NaN => false
  | Inf s => negb s
  | Fin q => bool_decide (0 < q)
  end.

(** [s.trim()] *)
Definition trim (s : jstring) : jstring :=
  reverse (drop_while is_space (reverse (drop_while is_space s))).

(** The branches of [generateAdvancedResponse], one per reply. *)
Inductive Topic : Type :=
  | topic_energy | topic_carbon | topic_cost | topic_water
  | topic_esg | topic_benchmark | topic_help | topic_other.

(** A value interpolated into a template literal. *)
Inductive Piece : Type :=
  | PNumber (x : option number)
  | PString (s : jstring).

(** The text of a message: the text typed by the user, or the template
    literal of a reply with the values interpolated into it, in the order
    of the source.  The fixed parts of the eight templates are not spelled
    out. *)
Inductive Text : Type :=
  | Typed (s : jstring)
  | Template (t : Topic) (pieces : list Piece).

(** The [metrics] member of a [Message]. *)
Record MessageMetrics : Type := mkMessageMetrics {
  metric_value : option number;
  metric_unit : jstring;
  metric_change : jstring
}.

(** [Message]; [id], [text] and [metrics] carry the prefix [message_]. *)
Record Message : Type := mkMessage {
  message_id : jstring;
  message_text : Text;
  isBot : bool;
  timestamp : jstring;
  message_metrics : option MessageMetrics;
  suggestions : option (list jstring)
}.

(** The part of the component state that the two handlers write. *)
Record ChatState : Type := mkChat {
  messages : list Message;
  inputText : jstring;
  isTyping : bool
}.

Section Chatbot.

(** [x.toFixed(1)], which is not modelled. *)
Variable Number_toFixed1 : number -> jstring.

(** The [analysisData] property of the component. *)
Variable analysisData : option SustainabilityMetrics.

(** [generateAdvancedResponse(userMessage)]; [now] is what [Date.now()]
    returns and [date] what [new Date()] makes. *)
Definition generateAdvancedResponse (now : N) (date : jstring) (userMessage : jstring)
  : Message :=
  let message := toLowerCase userMessage in
  let reply t pieces metrics suggestions :=
    {| message_id := Number_toString now;
       message_text := Template t pieces;
       isBot := true;
       timestamp := date;
       message_metrics := metrics;
       suggestions := Some (map js suggestions) |} in
  if includes message (js "energy")
     && (includes message (js "trend") || includes message (js "change")
         || includes message (js "usage")) then
    let energyData :=
      match analysisData with
      | Some data => trends_energy (trends data)
      | None => [num 1200; num 1180; num 1250; num 1220; num 1250]
      end in
    let currentUsage := at_index energyData (Z.of_nat (length energyData) - 1) in
    let previousUsage := at_index energyData (Z.of_nat (length energyData) - 2) in
    let change :=
      Number_toFixed1
        ((to_number currentUsage - to_number previousUsage) / to_number previousUsage
         * num 100)%num in
    reply topic_energy
      [PNumber currentUsage; PString change;
       PString (if positive_number (parseFloat change) then js "increase" else js "decrease")]
      (Some {| metric_value := currentUsage;
               metric_unit := js "kWh";
               metric_change := change ++ js "%" |})
      ["Show me LED retrofit ROI"; "Peak hour optimization tips";
       "Compare with industry benchmark"]
  else if includes message (js "carbon") || includes message (js "emission") then
    let carbonData := or_number (carbonFootprint <$> analysisData) (dec 2.4) in
    reply topic_carbon [PNumber (Some carbonData)]
      (Some {| metric_value := Some carbonData;
               metric_unit := [116; 67; 79; 8322; 101]%N;
               metric_change := js "-15%" |})
      ["Calculate solar panel ROI"; "EV transition timeline"; "Waste reduction program"]
  else if includes message (js "cost")
          && (includes message (js "reduce") || includes message (js "save")
              || includes message (js "low")) then
    reply topic_cost [] None
      ["Create implementation timeline"; "Calculate total ROI"; "Employee engagement tips"]
  else if includes message (js "water") then
    let waterData := or_number (waterConsumption <$> analysisData) (num 850) in
    reply topic_water
      [PNumber (Some waterData); PNumber (Some (Math_round (waterData * dec 0.05)%num))]
      (Some {| metric_value := Some waterData;
               metric_unit := js "L";
               metric_change := js "+18%" |})
      ["Rainwater harvesting feasibility"; "Leak detection setup";
       "Employee water conservation tips"]
  else if includes message (js "esg") || includes message (js "score") then
    let esgScore := or_number (esgScore <$> analysisData) (num 72) in
    reply topic_esg [PNumber (Some esgScore)]
      (Some {| metric_value := Some esgScore;
               metric_unit := js "/100";
               metric_change := js "Good" |})
      ["Create ESG improvement plan"; "Employee training program"; "Green financing options"]
  else if includes message (js "benchmark") || includes message (js "compare")
          || includes message (js "industry") then
    reply topic_benchmark [] None
      ["Water efficiency improvement plan"; "Top 10% achievement roadmap";
       "Sector-specific best practices"]
  else if includes message (js "help") || includes message (js "what can you") then
    reply topic_help [] None
      ["Create 6-month sustainability plan"; "Solar panel feasibility study";
       "Biggest emission source analysis"]
  else
    reply topic_other
      [PNumber (Some (or_number (esgScore <$> analysisData) (num 72)));
       PNumber (Some (or_number (carbonFootprint <$> analysisData) (dec 2.4)))]
      None
      ["Reduce carbon footprint by 25%"; "LED lighting ROI calculation";
       "Peak energy usage analysis"].

(** [handleSendMessage()] up to the point where it sets the timer: what it
    makes of the state. *)
Definition handleSendMessage (now : N) (date : jstring) (st : ChatState) : ChatState :=
  match trim (inputText st) with
  | [] => st
  | _ =>
      let userMessage :=
        {| message_id := Number_toString now;
           message_text := Typed (inputText st);
           isBot := false;
           timestamp := date;
           message_metrics := None;
           suggestions := None |} in
      {| messages := messages st ++ [userMessage];
         inputText := [];
         isTyping := true |}
  end.

(** The timer callback of [handleSendMessage], for the text [sent] that was
    in the input when the handler ran. *)
Definition bot_reply (now : N) (date : jstring) (sent : jstring) (st : ChatState)
  : ChatState :=
  let botResponse := generateAdvancedResponse now date sent in
  {| messages := messages st ++ [botResponse];
     inputText := inputText st;
     isTyping := false |}.

End Chatbot.

(** A stand-in for [toFixed(1)] in examples. *)
Definition sample_toFixed1 (x : number) : jstring := js "2.5".

Definition sample_chat : ChatState := mkChat [] (js "How is my carbon footprint?") false.

(* ===================================================================== *)
(** * Properties of the numbers *)
(* ===================================================================== *)

(** Closed equations between rationals in canonical form. *)
Ltac qc_closed := apply Qc_is_canon; vm_compute; reflexivity.

Lemma num_add (a b : Z) : (num a + num b)%num = num (a + b).
Proof.
  unfold num, Nadd. f_equal. apply Qc_is_canon. simpl.
  rewrite !Qred_correct, inject_Z_plus. reflexivity.
Qed.

Lemma num_inj (a b : Z) : num a = num b -> a = b.
Proof.
  unfold num. intros H. injection H as H.
  apply (f_equal Qfloor) in H. simpl in H.
  by rewrite !(Qfloor_comp _ _ (Qred_correct _)), !Qfloor_Z in H.
Qed.

Lemma num_nonneg (a : Z) : (0 <= a)%Z -> nonneg (num a).
Proof.
  intros Ha. unfold num, nonneg, Qcle. cbn [this Q2Qc]. rewrite !Qred_correct.
  change (inject_Z 0 <= inject_Z a)%Q. by rewrite <- Zle_Qle.
Qed.

(** The floor of a draw scaled by [k] is one of [0 .. k-1]. *)
Lemma floor_draw (r : Qc) (k : Z) :
  (0 < k)%Z -> 0 <= r -> r < 1 ->
  (0 <= Qfloor (r * Q2Qc (inject_Z k))%Qc < k)%Z.
Proof.
  intros Hk H0 H1.
  assert (Hr : (this (r * Q2Qc (inject_Z k)) == this r * inject_Z k)%Q).
  { simpl. rewrite !Qred_correct. reflexivity. }
  rewrite (Qfloor_comp _ _ Hr).
  unfold Qcle, Qclt in *. simpl in H0, H1.
  assert (Hk' : (0 < inject_Z k)%Q).
  { change 0%Q with (inject_Z 0). rewrite <- Zlt_Qlt. lia. }
  split.
  - change 0%Z with (Qfloor 0). apply Qfloor_resp_le.
    apply Qmult_le_0_compat; [done|]. by apply Qlt_le_weak.
  - rewrite Zlt_Qlt. eapply Qle_lt_trans; [apply Qfloor_le|].
    rewrite <- (Qmult_1_l (inject_Z k)) at 2.
    by apply Qmult_lt_compat_r.
Qed.

(* ===================================================================== *)
(** * Properties of processDocument *)
(* ===================================================================== *)

(** Unfolds the monadic plumbing of a run in a world. *)
Ltac run_world :=
  cbv [mbind M_bind mret M_ret random_between today Math_random Date_toISOString];
  cbn [fst snd draws drawn readings read].

(** What [Math.floor(Math.random() * range) + base] evaluates to. *)
Lemma random_value (r : Qc) (range base : Z) :
  (Math_floor (Fin r * num range) + num base)%num
  = num (Qfloor (r * Q2Qc (inject_Z range))%Qc + base).
Proof. unfold Nmul, num at 1, Math_floor. apply num_add. Qed.

Lemma sample_world_fair : fair sample_world.
Proof. intros n. split; by vm_compute. Qed.

Lemma unclassified_spec (file : File) :
  unclassified file = true ->
  forall k, k ∈ keywords -> includes (toLowerCase (file_name file)) (js k) = false.
Proof.
  unfold unclassified. rewrite forallb_forall. intros H k Hk.
  apply negb_true_iff, H. by apply list_elem_of_In.
Qed.

(** The default branch is the one taken by an unclassified file. *)
Lemma processDocument_unclassified (file : File) (w : World) :
  unclassified file = true ->
  processDocument file w
  = (amount ← random_between 3000 1000;
     billDate ← today;
     mret (<["billType" := VStr (js "other")]>
          (<["amount" := VNum amount]>
          (<["billDate" := VStr billDate]>
          (<["vendor" := VStr (js "Unknown Vendor")]> (∅ : object)))))) w.
Proof.
  intros H. pose proof (unclassified_spec file H) as Hk.
  unfold processDocument.
  rewrite !Hk by (unfold keywords; set_solver).
  reflexivity.
Qed.

(** ** C1 *)

(** C1, as stated, fails: the document produced for a file with an empty
    name, in the sample world, has no [confidence] property at all. *)
Lemma C1_confidence_missing :
  ~ exists c : number,
      fst (processDocument empty_file sample_world) !! "confidence" = Some (VNum c).
Proof. intros [c Hc]. vm_compute in Hc. discriminate. Qed.

(** C1 (amended): no document produced by [processDocument] has a
    [confidence] property, for any file and any world; the one required
    property of [ExtractedData], [billType], is always present and is one of
    ['electricity'], ['water'], ['fuel'] and ['other']. *)
Theorem C1_no_confidence_billType_required (file : File) (w : World) :
  fst (processDocument file w) !! "confidence" = None /\
  exists b : jstring,
    fst (processDocument file w) !! "billType" = Some (VStr b) /\
    b ∈ [js "electricity"; js "water"; js "fuel"; js "other"].
Proof.
  unfold processDocument.
  repeat case_match; run_world; (split; [by simplify_map_eq|]);
    eexists; (split; [by simplify_map_eq|]); set_solver.
Qed.

(** ** C2 *)

(** C2, as stated, fails: [receipt.png] matches no keyword, and its
    document has a vendor, a bill date and an amount. *)
Lemma C2_default_fields_populated :
  unclassified receipt_file = true /\
  fst (processDocument receipt_file sample_world) !! "vendor"
    = Some (VStr (js "Unknown Vendor")) /\
  fst (processDocument receipt_file sample_world) !! "billDate"
    = Some (VStr (js "2024-11-15")) /\
  fst (processDocument receipt_file sample_world) !! "amount"
    = Some (VNum (num 2500)).
Proof. repeat split; vm_compute; reflexivity. Qed.

(** C2 (amended): for every file whose name matches no classification
    keyword, [processDocument] returns a document (it has no failing
    path) with [billType = 'other'] in which the four quantity fields are
    absent, while [vendor] is ['Unknown Vendor'], [billDate] is the current
    date and [amount] is a simulated whole number in [[1000, 3999]]. *)
Theorem C2_unclassified_document (file : File) (w : World) :
  unclassified file = true ->
  fair w ->
  let d := fst (processDocument file w) in
  d !! "billType" = Some (VStr (js "other")) /\
  d !! "energyUsage" = None /\
  d !! "waterConsumption" = None /\
  d !! "fuelConsumption" = None /\
  d !! "wasteGeneration" = None /\
  d !! "vendor" = Some (VStr (js "Unknown Vendor")) /\
  d !! "billDate" = Some (VStr (date_now w)) /\
  exists n : Z, d !! "amount" = Some (VNum (num n)) /\ (1000 <= n <= 3999)%Z.
Proof.
  intros Hu Hw d. subst d. rewrite processDocument_unclassified by done.
  run_world. rewrite random_value. unfold date_now.
  destruct (Hw (drawn w)) as [H0 H1].
  pose proof (floor_draw _ 3000 ltac:(lia) H0 H1) as Hn.
  revert Hn. generalize (Qfloor (draws w (drawn w) * Q2Qc (inject_Z 3000))%Qc).
  intros n Hn.
  repeat (split; [by simplify_map_eq|]).
  exists (n + 1000)%Z. split; [by simplify_map_eq|lia].
Qed.

Lemma C2_unclassified_document_witness :
  let d := fst (processDocument receipt_file sample_world) in
  d !! "billType" = Some (VStr (js "other")) /\
  d !! "energyUsage" = None /\
  d !! "waterConsumption" = None /\
  d !! "fuelConsumption" = None /\
  d !! "wasteGeneration" = None /\
  d !! "vendor" = Some (VStr (js "Unknown Vendor")) /\
  d !! "billDate" = Some (VStr (date_now sample_world)) /\
  exists n : Z, d !! "amount" = Some (VNum (num n)) /\ (1000 <= n <= 3999)%Z.
Proof.
  apply (C2_unclassified_document receipt_file sample_world).
  - vm_compute; reflexivity.
  - intros n; split; vm_compute; [discriminate|reflexivity].
Defined.

(* ===================================================================== *)
(** * Properties of the ESG scorer *)
(* ===================================================================== *)

Module ESGProps.
Import ESG.

(** Turns an inequality between canonical rationals into one between
    plain rationals, on which [lra] and [nra] work. *)
Ltac to_Q :=
  unfold Qcle, Qclt in *;
  cbn [this Qcplus Qcmult Qcopp Qcminus Q2Qc] in *;
  rewrite ?Qred_correct in *.

Lemma hundred_pos : 0 <= hundred.
Proof. by vm_compute. Qed.

Lemma clamp_range (x : Qc) : 0 <= clamp x /\ clamp x <= hundred.
Proof.
  pose proof hundred_pos.
  unfold clamp. repeat case_bool_decide; split; try done.
  - apply Qcnot_le_lt in H0. by apply Qclt_le_weak.
  - apply Qcnot_le_lt in H1. by apply Qclt_le_weak.
Qed.

Lemma clamp_fixed (x : Qc) : 0 <= x -> x <= hundred -> clamp x = x.
Proof.
  intros H0 H1. unfold clamp. repeat case_bool_decide; try done.
  - by apply Qcle_antisym.
  - by apply Qcle_antisym.
Qed.

Lemma clamp_idem (x : Qc) : clamp (clamp x) = clamp x.
Proof. destruct (clamp_range x). by apply clamp_fixed. Qed.

Lemma clamp_mono (x y : Qc) : x <= y -> clamp x <= clamp y.
Proof.
  intros Hxy. pose proof hundred_pos. unfold clamp.
  repeat case_bool_decide; try done;
    repeat match goal with
      | H : ~ (_ <= _) |- _ => apply Qcnot_le_lt in H
      end;
    to_Q; lra.
Qed.

(** A weighted sum grows with each term when no weight is negative. *)
Lemma weighted_mono (a b c d x1 x2 y1 y2 z1 z2 t1 t2 : Qc) :
  0 <= a -> 0 <= b -> 0 <= c -> 0 <= d ->
  x1 <= x2 -> y1 <= y2 -> z1 <= z2 -> t1 <= t2 ->
  a * x1 + b * y1 + c * z1 + d * t1 <= a * x2 + b * y2 + c * z2 + d * t2.
Proof.
  intros. repeat apply Qcplus_le_compat;
    rewrite (Qcmult_comm _ x1) || rewrite (Qcmult_comm _ y1)
    || rewrite (Qcmult_comm _ z1) || rewrite (Qcmult_comm _ t1);
    rewrite (Qcmult_comm _ x2) || rewrite (Qcmult_comm _ y2)
    || rewrite (Qcmult_comm _ z2) || rewrite (Qcmult_comm _ t2);
    by apply Qcmult_le_compat_r.
Qed.

Lemma score_mono (w : Weights) (i j : Input) :
  valid_weights w ->
  carbon i <= carbon j -> energy i <= energy j ->
  water_eff i <= water_eff j -> waste_red i <= waste_red j ->
  score w i <= score w j.
Proof.
  intros (Hc & He & Hw & Hr & _) ????.
  unfold score. apply weighted_mono; auto using clamp_mono.
Qed.

Lemma score_range (w : Weights) (i : Input) :
  valid_weights w -> 0 <= score w i /\ score w i <= hundred.
Proof.
  intros (Hc & He & Hw & Hr & Hsum). unfold score.
  destruct (clamp_range (carbon i)), (clamp_range (energy i)),
    (clamp_range (water_eff i)), (clamp_range (waste_red i)).
  split.
  - replace (0 : Qc) with (w_carbon w * 0 + w_energy w * 0
                           + w_water w * 0 + w_waste w * 0) by ring.
    by apply weighted_mono.
  - replace hundred with (w_carbon w * hundred + w_energy w * hundred
                          + w_water w * hundred + w_waste w * hundred).
    + by apply weighted_mono.
    + transitivity ((w_carbon w + w_energy w + w_water w + w_waste w) * hundred);
        [ring | rewrite Hsum; ring].
Qed.

Lemma quarters_valid : valid_weights quarters.
Proof. unfold valid_weights. repeat split; try by vm_compute. qc_closed. Qed.

(** C7: for weights of a weighted average the composite score lies in
    [[0,100]]; the score of an input is the score of the input with each
    dimension clamped to [[0,100]], and each clamped dimension lies in
    [[0,100]]; and raising any one input dimension, the other three
    fixed, never lowers the score. *)
Theorem C7_score_range_clamped_monotone (w : Weights) :
  valid_weights w ->
  (forall i : Input, 0 <= score w i /\ score w i <= hundred) /\
  (forall i : Input,
      score w i = score w (clamp_input i) /\
      (0 <= carbon (clamp_input i) /\ carbon (clamp_input i) <= hundred) /\
      (0 <= energy (clamp_input i) /\ energy (clamp_input i) <= hundred) /\
      (0 <= water_eff (clamp_input i) /\ water_eff (clamp_input i) <= hundred) /\
      (0 <= waste_red (clamp_input i) /\ waste_red (clamp_input i) <= hundred)) /\
  (forall c e wa wr x : Qc,
      (c <= x -> score w (mkInput c e wa wr) <= score w (mkInput x e wa wr)) /\
      (e <= x -> score w (mkInput c e wa wr) <= score w (mkInput c x wa wr)) /\
      (wa <= x -> score w (mkInput c e wa wr) <= score w (mkInput c e x wr)) /\
      (wr <= x -> score w (mkInput c e wa wr) <= score w (mkInput c e wa x))).
Proof.
  intros Hw. split; [|split].
  - intros i. by apply score_range.
  - intros i. split.
    + unfold score, clamp_input. cbn [carbon energy water_eff waste_red].
      by rewrite !clamp_idem.
    + cbn [clamp_input carbon energy water_eff waste_red].
      auto using clamp_range.
  - intros c e wa wr x.
    repeat split; intros Hx; apply score_mono; cbn; done || apply Qcle_refl.
Qed.

Lemma C7_score_range_clamped_monotone_witness :
  (forall i : Input, 0 <= score quarters i /\ score quarters i <= hundred) /\
  (forall i : Input,
      score quarters i = score quarters (clamp_input i) /\
      (0 <= carbon (clamp_input i) /\ carbon (clamp_input i) <= hundred) /\
      (0 <= energy (clamp_input i) /\ energy (clamp_input i) <= hundred) /\
      (0 <= water_eff (clamp_input i) /\ water_eff (clamp_input i) <= hundred) /\
      (0 <= waste_red (clamp_input i) /\ waste_red (clamp_input i) <= hundred)) /\
  (forall c e wa wr x : Qc,
      (c <= x -> score quarters (mkInput c e wa wr) <= score quarters (mkInput x e wa wr)) /\
      (e <= x -> score quarters (mkInput c e wa wr) <= score quarters (mkInput c x wa wr)) /\
      (wa <= x -> score quarters (mkInput c e wa wr) <= score quarters (mkInput c e x wr)) /\
      (wr <= x -> score quarters (mkInput c e wa wr) <= score quarters (mkInput c e wa x))).
Proof.
  apply (C7_score_range_clamped_monotone quarters).
  unfold valid_weights.
  repeat split; try (vm_compute; discriminate).
  apply Qc_is_canon. vm_compute. reflexivity.
Defined.

End ESGProps.

(* ===================================================================== *)
(** * Properties of the emission calculator *)
(* ===================================================================== *)

Module CalculatorProps.
Import Calculator.

(** The contributions of two documents can be accumulated in either
    order. *)
Lemma accumulate_comm (c : Config) (acc : Emissions) (d1 d2 : object) :
  accumulate c (accumulate c acc d1) d2 = accumulate c (accumulate c acc d2) d1.
Proof.
  unfold accumulate.
  destruct (contribution c d1) as [[cat1 e1]|], (contribution c d2) as [[cat2 e2]|];
    try reflexivity.
  cbn [totalEmissions breakdown]. f_equal; [ring|].
  destruct (decide (cat1 = cat2)) as [->|Hne].
  - rewrite !lookup_insert_eq, !insert_insert_eq. cbn [default]. f_equal.
    unfold id. ring.
  - rewrite !lookup_insert_ne by done.
    by rewrite insert_insert_ne.
Qed.

Lemma foldl_accumulate_perm (c : Config) (l l' : list object) :
  l ≡ₚ l' -> forall acc, foldl (accumulate c) acc l = foldl (accumulate c) acc l'.
Proof.
  induction 1 as [|d l l' _ IH|d1 d2 l|l1 l2 l3 _ IH1 _ IH2]; intros acc; cbn [foldl].
  - reflexivity.
  - apply IH.
  - by rewrite accumulate_comm.
  - by rewrite IH1.
Qed.

Lemma valid_batch_perm (l l' : list object) :
  l ≡ₚ l' -> forallb valid_document l = forallb valid_document l'.
Proof.
  induction 1 as [|d l l' _ IH|d1 d2 l|l1 l2 l3 _ IH1 _ IH2]; cbn [forallb].
  - reflexivity.
  - by rewrite IH.
  - by rewrite !andb_assoc, (andb_comm (valid_document d1)).
  - congruence.
Qed.

(** The example of the specification: 245.5 kWh give 201.31 kg. *)
Lemma calculate_electricity_doc :
  calculate reference_config [electricity_doc]
  = Some {| totalEmissions := Q2Qc 201.31;
            breakdown := {[ "electricity" := Q2Qc 201.31 ]} |}.
Proof.
  unfold calculate. replace (forallb valid_document [electricity_doc]) with true
    by (vm_compute; reflexivity).
  cbn [foldl]. unfold accumulate.
  replace (contribution reference_config electricity_doc)
    with (Some ("electricity", Q2Qc 245.5 * Q2Qc 0.82)).
  2:{ vm_compute. reflexivity. }
  cbn [totalEmissions breakdown]. rewrite lookup_empty. cbn [default].
  rewrite insert_empty.
  by replace (0 + Q2Qc 245.5 * Q2Qc 0.82) with (Q2Qc 201.31) by qc_closed.
Qed.

(** C8: the result of the emission calculator (the rejection of an
    invalid batch, or else the total and the breakdown) is the same for
    every reordering of the batch. *)
Theorem C8_calculate_permutation (c : Config) (documents documents' : list object) :
  documents ≡ₚ documents' ->
  calculate c documents' = calculate c documents /\
  (totalEmissions <$> calculate c documents') = (totalEmissions <$> calculate c documents) /\
  (breakdown <$> calculate c documents') = (breakdown <$> calculate c documents).
Proof.
  intros Hp.
  assert (H : calculate c documents' = calculate c documents).
  { unfold calculate.
    rewrite (valid_batch_perm _ _ Hp), (foldl_accumulate_perm c _ _ Hp). reflexivity. }
  by rewrite H.
Qed.

Lemma C8_calculate_permutation_witness :
  calculate reference_config [water_doc; electricity_doc]
    = calculate reference_config [electricity_doc; water_doc] /\
  (totalEmissions <$> calculate reference_config [water_doc; electricity_doc])
    = (totalEmissions <$> calculate reference_config [electricity_doc; water_doc]) /\
  (breakdown <$> calculate reference_config [water_doc; electricity_doc])
    = (breakdown <$> calculate reference_config [electricity_doc; water_doc]).
Proof.
  apply (C8_calculate_permutation reference_config
           [electricity_doc; water_doc] [water_doc; electricity_doc]).
  apply perm_swap.
Defined.

End CalculatorProps.

(* ===================================================================== *)
(** * Properties of handleFileUpload *)
(* ===================================================================== *)

Lemma Nadd_zero_r (x : number) : (x + num 0)%num = x.
Proof.
  destruct x as [|s|q]; try reflexivity.
  unfold Nadd, num. f_equal.
  change (Q2Qc (inject_Z 0)) with (0 : Qc). ring.
Qed.

Lemma or_zero_absent (d : object) (k : string) : d !! k = None -> or_zero d k = num 0.
Proof. unfold or_zero. by intros ->. Qed.

Lemma reduce_sum_snoc (k : string) (batch : list object) (d : object) :
  reduce_sum k (batch ++ [d]) = (reduce_sum k batch + or_zero d k)%num.
Proof. unfold reduce_sum. by rewrite foldl_snoc. Qed.

(** ** C4 *)

(** C4, as stated, fails: for the batch of one electricity document with
    245.5 kWh the sum of the energy quantities is 245.5, and the metrics
    report 1250. *)
Lemma C4_metrics_ignore_batch :
  reduce_sum "energyUsage" [electricity_doc] = dec 245.5 /\
  energyUsage (@metrics_of silent_calculator [electricity_doc]) = num 1250 /\
  energyUsage (@metrics_of silent_calculator [electricity_doc])
    <> reduce_sum "energyUsage" [electricity_doc].
Proof.
  assert (H : reduce_sum "energyUsage" [electricity_doc] = dec 245.5).
  { unfold dec. vm_compute. f_equal. qc_closed. }
  split; [done|]. split; [reflexivity|].
  rewrite H. unfold metrics_of, energyUsage, num, dec. by intros [= E].
Qed.

(** C4 (amended): the metrics that [handleFileUpload] stores are computed
    from the batch of this upload alone, whatever the state was before.
    Their [energyUsage], [waterConsumption] and [wasteGeneration] are the
    constants 1250, 850 and 45 for every batch.  The sums of the raw
    quantities over the batch, an absent quantity adding nothing, are
    computed all the same, but only as the inputs of the three efficiency
    ratios from which [calculateESGScore] derives [esgScore]. *)
Theorem C4_metrics_constants_and_sums `{EmissionCalculator}
    (files : list File) (app : AppState) (w : World) (batch : list object) :
  (analysisData (fst (handleFileUpload files app w))
     = Some (metrics_of (fst (process_files files w))) /\
   extractedData (fst (handleFileUpload files app w)) = fst (process_files files w)) /\
  (energyUsage (metrics_of batch) = num 1250 /\
   waterConsumption (metrics_of batch) = num 850 /\
   wasteGeneration (metrics_of batch) = num 45) /\
  (esgScore (metrics_of batch) = calculateESGScore (esg_input batch) /\
   energyEfficiency (esg_input batch)
     = Math_max (num 0) (num 100 - reduce_sum "energyUsage" batch / num 1000)%num /\
   waterEfficiency (esg_input batch)
     = Math_max (num 0) (num 100 - reduce_sum "waterConsumption" batch / num 10000)%num /\
   wasteReduction (esg_input batch)
     = Math_max (num 0) (num 100 - reduce_sum "wasteGeneration" batch)%num) /\
  (forall k : string,
      reduce_sum k [] = num 0 /\
      (forall d : object,
          reduce_sum k (batch ++ [d]) = (reduce_sum k batch + or_zero d k)%num) /\
      (forall d : object,
          d !! k = None -> reduce_sum k (batch ++ [d]) = reduce_sum k batch)).
Proof.
  split; [|split; [|split]].
  - unfold handleFileUpload, mbind, M_bind, mret, M_ret.
    destruct (process_files files w) as [processedData w']. by cbn.
  - by repeat split.
  - by repeat split.
  - intros k. split; [reflexivity|]. split.
    + intros d. apply reduce_sum_snoc.
    + intros d Hd. by rewrite reduce_sum_snoc, or_zero_absent, Nadd_zero_r.
Qed.

(* ===================================================================== *)
(** * Properties of the matcher *)
(* ===================================================================== *)

Lemma bind_nil_all {A B} (f : A -> list B) (l : list A) :
  (forall x, x ∈ l -> f x = []) -> l ≫= f = [].
Proof.
  induction l as [|x l IH]; intros H; [done|].
  cbn. rewrite H by left. rewrite IH; [done|]. intros y Hy. apply H. by right.
Qed.

(** More fuel than the input is long changes nothing. *)
Lemma iterate_fuel (body : mstate -> list mstate) (n m : nat) (st : mstate) :
  (length (rest st) <= n)%nat -> (length (rest st) <= m)%nat ->
  iterate body n st = iterate body m st.
Proof.
  revert m st. induction n as [|n IH]; intros [|m] st Hn Hm; cbn [iterate]; try done.
  - rewrite bind_nil_all; [done|]. intros st1 _.
    case_match eqn:E; [|done]. apply Nat.ltb_lt in E. lia.
  - rewrite bind_nil_all; [done|]. intros st1 _.
    case_match eqn:E; [|done]. apply Nat.ltb_lt in E. lia.
  - f_equal. apply list_bind_ext; [|done]. intros st1.
    case_match eqn:E; [|done]. apply Nat.ltb_lt in E. apply IH; lia.
Qed.

(** The equation of the greedy star. *)
Lemma run_star (i : bool) (r : regex) (st : mstate) :
  run i (Star r) st
  = (st1 ← run i r st;
     if (length (rest st1) <? length (rest st))%nat then run i (Star r) st1 else [])
    ++ [st].
Proof.
  cbn [run]. remember (length (rest st)) as n eqn:Hn. destruct n as [|n]; cbn [iterate].
  - rewrite bind_nil_all; [done|]. intros st1 _.
    case_match eqn:E; [|done]. apply Nat.ltb_lt in E. lia.
  - f_equal. rewrite <- Hn. apply list_bind_ext; [|done]. intros st1.
    case_match eqn:E; [|done]. apply Nat.ltb_lt in E. apply iterate_fuel; lia.
Qed.

(** The matcher lists exactly the ends of the matches. *)
Lemma run_sound (i : bool) (r : regex) :
  forall st st', st' ∈ run i r st -> matches i r st st'.
Proof.
  induction r as [|c|p|r1 IH1 r2 IH2|r1 IH1 r2 IH2|r IH|r IH|]; intros st st' H.
  - cbn in H. apply list_elem_of_singleton in H as ->. constructor.
  - cbn in H. destruct (rest st) as [|x s] eqn:Hs; [by apply elem_of_nil in H|].
    case_match eqn:E; [|by apply elem_of_nil in H].
    apply list_elem_of_singleton in H as ->. apply N.eqb_eq in E. by constructor.
  - cbn in H. destruct (rest st) as [|x s] eqn:Hs; [by apply elem_of_nil in H|].
    case_match eqn:E; [|by apply elem_of_nil in H].
    apply list_elem_of_singleton in H as ->. by constructor.
  - cbn in H. apply list_elem_of_bind in H as (st1 & H2 & H1).
    econstructor; eauto.
  - cbn in H. apply elem_of_app in H as [H|H]; [apply m_alt_l|apply m_alt_r]; eauto.
  - remember (length (rest st)) as n eqn:Hn.
    revert st Hn H. induction (lt_wf n) as [n _ IHn]. intros st Hn H.
    rewrite run_star in H. apply elem_of_app in H as [H|H].
    + apply list_elem_of_bind in H as (st1 & H2 & H1).
      case_match eqn:E; [|by apply elem_of_nil in H2]. apply Nat.ltb_lt in E.
      eapply m_star_step; [by apply IH|done|].
      eapply IHn; [|reflexivity|done]. lia.
    + apply list_elem_of_singleton in H as ->. constructor.
  - cbn in H. apply list_elem_of_fmap in H as (st1 & -> & H). constructor. by apply IH.
  - cbn in H. case_match eqn:E; [|by apply elem_of_nil in H].
    apply list_elem_of_singleton in H as ->. by constructor.
Qed.

Lemma run_complete (i : bool) (r : regex) (st st' : mstate) :
  matches i r st st' -> st' ∈ run i r st.
Proof.
  induction 1 as [st|c x st s Hs Hx|p x st s Hs Hx|r1 r2 st st1 st2 _ IH1 _ IH2
                 |r1 r2 st st1 _ IH|r1 r2 st st2 _ IH|r st
                 |r st st1 st2 _ IH1 Hlt _ IH2|r st st1 _ IH|st Hb].
  - cbn. by left.
  - cbn. rewrite Hs. apply N.eqb_eq in Hx. rewrite Hx. by left.
  - cbn. rewrite Hs, Hx. by left.
  - cbn. apply list_elem_of_bind. eauto.
  - cbn. apply elem_of_app. by left.
  - cbn. apply elem_of_app. by right.
  - rewrite run_star. apply elem_of_app. right. by left.
  - rewrite run_star. apply elem_of_app. left.
    apply list_elem_of_bind. exists st1. split; [|done].
    apply Nat.ltb_lt in Hlt. by rewrite Hlt.
  - cbn. apply list_elem_of_fmap. eauto.
  - cbn. rewrite Hb. by left.
Qed.

Lemma run_spec (i : bool) (r : regex) (st st' : mstate) :
  st' ∈ run i r st <-> matches i r st st'.
Proof. split; [apply run_sound|apply run_complete]. Qed.

Lemma run_nil (i : bool) (r : regex) (st : mstate) :
  run i r st = [] <-> forall st', ~ matches i r st st'.
Proof.
  split.
  - intros H st' Hm. apply run_complete in Hm. rewrite H in Hm. by apply elem_of_nil in Hm.
  - intros H. destruct (run i r st) as [|st' l] eqn:E; [done|].
    exfalso. apply (H st'), run_sound. rewrite E. by left.
Qed.

(** ** Matches as words *)

Lemma prev_after_nil (p : option N) : prev_after p [] = p.
Proof. reflexivity. Qed.

Lemma prev_after_app (p : option N) (w1 w2 : jstring) :
  prev_after (prev_after p w1) w2 = prev_after p (w1 ++ w2).
Proof.
  unfold prev_after. rewrite last_app.
  destruct (last w2); [done|]. by destruct (last w1).
Qed.

Lemma advance_nil (st : mstate) : advance st [] (rest st) = st.
Proof. by destruct st. Qed.

Lemma advance_advance (st : mstate) (w1 w2 s1 s2 : jstring) :
  advance (advance st w1 s1) w2 s2 = advance st (w1 ++ w2) s2.
Proof. unfold advance. cbn. by rewrite prev_after_app. Qed.

(** A match ends on a suffix of the input it started on. *)
Lemma matches_suffix (i : bool) (r : regex) (st st' : mstate) :
  matches i r st st' -> exists w, rest st = w ++ rest st'.
Proof.
  induction 1 as [st|c x st s Hs Hx|p x st s Hs Hx|r1 r2 st st1 st2 _ IH1 _ IH2
                 |r1 r2 st st1 _ IH|r1 r2 st st2 _ IH|r st
                 |r st st1 st2 _ IH1 Hlt _ IH2|r st st1 _ IH|st Hb];
    try (by exists []); try (by exists [x]); try done.
  - destruct IH1 as [w1 H1], IH2 as [w2 H2].
    exists (w1 ++ w2). by rewrite H1, H2, app_assoc.
  - destruct IH1 as [w1 H1], IH2 as [w2 H2].
    exists (w1 ++ w2). by rewrite H1, H2, app_assoc.
Qed.

Lemma consumed_app (st st' : mstate) (w : jstring) :
  rest st = w ++ rest st' -> consumed st st' = w.
Proof.
  intros H. unfold consumed. rewrite H, length_app.
  replace (length w + length (rest st') - length (rest st'))%nat with (length w) by lia.
  by rewrite take_app_length.
Qed.

(** Only a group changes what is captured. *)
Lemma groupless_cap (i : bool) (r : regex) (st st' : mstate) :
  matches i r st st' -> groupless r = true -> cap st' = cap st.
Proof.
  induction 1 as [st|c x st s Hs Hx|p x st s Hs Hx|r1 r2 st st1 st2 _ IH1 _ IH2
                 |r1 r2 st st1 _ IH|r1 r2 st st2 _ IH|r st
                 |r st st1 st2 _ IH1 Hlt _ IH2|r st st1 _ IH|st Hb];
    cbn [groupless]; intros Hg; try done.
  - apply andb_true_iff in Hg as [??]. rewrite IH2, IH1; done.
  - apply andb_true_iff in Hg as [??]. auto.
  - apply andb_true_iff in Hg as [??]. auto.
  - rewrite IH2, IH1; done.
Qed.

Lemma pure_matches_lang (i : bool) (r : regex) (st st' : mstate) :
  matches i r st st' -> pure r = true ->
  exists w, lang i r w /\ rest st = w ++ rest st' /\ st' = advance st w (rest st').
Proof.
  induction 1 as [st|c x st s Hs Hx|p x st s Hs Hx|r1 r2 st st1 st2 _ IH1 _ IH2
                 |r1 r2 st st1 _ IH|r1 r2 st st2 _ IH|r st
                 |r st st1 st2 _ IH1 Hlt _ IH2|r st st1 _ IH|st Hb];
    cbn [pure]; intros Hp; try done.
  - exists []. by rewrite advance_nil.
  - exists [x]. cbn. eauto.
  - exists [x]. cbn. eauto.
  - apply andb_true_iff in Hp as [Hp1 Hp2].
    destruct (IH1 Hp1) as (w1 & L1 & E1 & A1), (IH2 Hp2) as (w2 & L2 & E2 & A2).
    exists (w1 ++ w2). split; [cbn; eauto|]. split.
    + by rewrite E1, E2, app_assoc.
    + rewrite A2, A1 at 1. apply advance_advance.
  - apply andb_true_iff in Hp as [Hp1 Hp2].
    destruct (IH Hp1) as (w & L & E & A). exists w. cbn. eauto.
  - apply andb_true_iff in Hp as [Hp1 Hp2].
    destruct (IH Hp2) as (w & L & E & A). exists w. cbn. eauto.
  - exists []. split; [by exists []|]. by rewrite advance_nil.
  - destruct (IH1 Hp) as (w1 & L1 & E1 & A1), (IH2 Hp) as (w2 & (ws & -> & Hws) & E2 & A2).
    exists (w1 ++ concat ws). split; [|split].
    + exists (w1 :: ws). split; [done|]. constructor; [|done]. split; [|done].
      intros ->. rewrite E1 in Hlt. cbn in Hlt. lia.
    + by rewrite E1, E2, app_assoc.
    + rewrite A2, A1 at 1. apply advance_advance.
Qed.

Lemma lang_matches (i : bool) (r : regex) :
  pure r = true ->
  forall w st s', lang i r w -> rest st = w ++ s' -> matches i r st (advance st w s').
Proof.
  induction r as [|c|p|r1 IH1 r2 IH2|r1 IH1 r2 IH2|r IH|r IH|]; cbn [pure lang];
    intros Hp w st s' L E; try done.
  - subst w. cbn in E. rewrite <- E, advance_nil. constructor.
  - destruct L as (x & -> & Hx). by constructor.
  - destruct L as (x & -> & Hx). by constructor.
  - apply andb_true_iff in Hp as [Hp1 Hp2]. destruct L as (w1 & w2 & -> & L1 & L2).
    rewrite <- app_assoc in E.
    apply m_seq with (advance st w1 (w2 ++ s')); [by apply IH1|].
    rewrite <- advance_advance with (s1 := w2 ++ s'). by apply IH2.
  - apply andb_true_iff in Hp as [Hp1 Hp2].
    destruct L as [L|L]; [apply m_alt_l|apply m_alt_r]; auto.
  - destruct L as (ws & -> & Hws). revert st E.
    induction Hws as [|u ws [Hu Lu] _ IHws]; intros st E.
    + cbn in E. cbn [concat]. rewrite <- E, advance_nil. constructor.
    + cbn [concat] in *. rewrite <- app_assoc in E.
      apply m_star_step with (advance st u (concat ws ++ s')).
      * by apply IH.
      * rewrite E. cbn. rewrite !length_app. destruct u; [done|cbn; lia].
      * rewrite <- advance_advance with (s1 := concat ws ++ s'). by apply IHws.
Qed.

(** A group captures the word that its body matched. *)
Lemma group_matches (i : bool) (r : regex) (st st' : mstate) :
  pure r = true ->
  matches i (Group r) st st' <->
  exists w, lang i r w /\ rest st = w ++ rest st'
            /\ st' = mkState (prev_after (prev st) w) (rest st') (Some w).
Proof.
  intros Hp. split.
  - inversion 1 as [| | | | | | | |r' st0 st1 Hm|]; subst.
    destruct (pure_matches_lang _ _ _ _ Hm Hp) as (w & L & E & A).
    exists w. cbn. split; [done|]. split; [done|].
    rewrite (consumed_app _ _ _ E). by rewrite A at 1.
  - intros (w & L & E & ->).
    pose proof (lang_matches i r Hp w st (rest st') L E) as Hm.
    apply m_group in Hm. cbn in Hm. by rewrite (consumed_app st _ w) in Hm.
Qed.

(** ** The first match *)

Lemma prev_after_cons (p : option N) (c : N) (w : jstring) :
  prev_after p (c :: w) = prev_after (Some c) w.
Proof.
  unfold prev_after. destruct w as [|d w]; [done|].
  rewrite last_cons_cons. by destruct (last (d :: w)) eqn:E; [|apply last_None in E].
Qed.

(** [search] returns the preferred match at the first position at which
    the pattern matches at all. *)
Lemma search_Some (i : bool) (r : regex) (s : jstring) :
  forall p st',
    search i r p s = Some st' ->
    exists pre s1,
      s = pre ++ s1 /\
      head (run i r (mkState (prev_after p pre) s1 None)) = Some st' /\
      forall pre' s1',
        s = pre' ++ s1' -> (length pre' < length pre)%nat ->
        run i r (mkState (prev_after p pre') s1' None) = [].
Proof.
  induction s as [|c s IH]; intros p st' H; cbn [search] in H.
  - destruct (run i r (mkState p [] None)) as [|st l] eqn:E; [done|].
    injection H as ->. exists [], []. rewrite prev_after_nil, E.
    repeat split. intros pre' s1' _ Hlt. cbn in Hlt. lia.
  - destruct (run i r (mkState p (c :: s) None)) as [|st l] eqn:E.
    + destruct (IH _ _ H) as (pre & s1 & -> & Hh & Hmin).
      exists (c :: pre), s1. rewrite prev_after_cons. repeat split; [done|].
      intros [|c' pre'] s1' Hs Hlt.
      * cbn in Hs. subst s1'. by rewrite prev_after_nil.
      * cbn in Hs. injection Hs as -> Hs. rewrite prev_after_cons.
        apply Hmin; [done|]. cbn in Hlt. lia.
    + injection H as ->. exists [], (c :: s). rewrite prev_after_nil, E.
      repeat split. intros pre' s1' _ Hlt. cbn in Hlt. lia.
Qed.

Lemma search_None (i : bool) (r : regex) (s : jstring) :
  forall p,
    search i r p s = None ->
    forall pre s1, s = pre ++ s1 -> run i r (mkState (prev_after p pre) s1 None) = [].
Proof.
  induction s as [|c s IH]; intros p H pre s1 Hs; cbn [search] in H.
  - destruct (run i r (mkState p [] None)) as [|st l] eqn:E; [|done].
    symmetry in Hs. apply app_eq_nil in Hs as [-> ->]. by rewrite prev_after_nil.
  - destruct (run i r (mkState p (c :: s) None)) as [|st l] eqn:E; [|done].
    destruct pre as [|c' pre]; cbn in Hs.
    + subst s1. by rewrite prev_after_nil.
    + injection Hs as -> Hs. rewrite prev_after_cons. by apply IH.
Qed.

(** ** Words of the building blocks *)

Lemma lang_star_cls (i : bool) (p : N -> bool) (w : jstring) :
  lang i (Star (Cls p)) w <-> Forall (fun c => p c = true) w.
Proof.
  cbn [lang]. split.
  - intros (ws & -> & H). induction H as [|u ws [_ (x & -> & Hx)] _ IH]; cbn; auto.
  - intros H. exists ((fun c => [c]) <$> w). split.
    + induction w as [|c w IH]; [done|]. cbn. f_equal. apply IH. by inversion H.
    + induction H as [|c w Hc _ IH]; cbn; constructor; eauto.
Qed.

Lemma lang_plus_cls (i : bool) (p : N -> bool) (w : jstring) :
  lang i (Plus (Cls p)) w <-> w <> [] /\ Forall (fun c => p c = true) w.
Proof.
  unfold Plus. change (lang i (Seq (Cls p) (Star (Cls p))) w)
    with (exists w1 w2, w = w1 ++ w2 /\ lang i (Cls p) w1 /\ lang i (Star (Cls p)) w2).
  split.
  - intros (w1 & w2 & -> & (x & -> & Hx) & H2). apply lang_star_cls in H2.
    split; [done|]. by constructor.
  - intros [Hne H]. destruct H as [|c w Hc H]; [done|].
    exists [c], w. split; [done|]. split; [by exists c|]. by apply lang_star_cls.
Qed.

Lemma lang_lit (i : bool) (l u : jstring) :
  lang i (foldr Seq Eps (map Chr l)) u <-> map (canonical i) u = map (canonical i) l.
Proof.
  revert u. induction l as [|c l IH]; intros u; cbn [foldr map lang].
  - split; [by intros ->|]. by destruct u.
  - split.
    + intros (w1 & w2 & -> & (x & -> & Hx) & H2). apply IH in H2. cbn. by f_equal.
    + destruct u as [|x u]; [done|]. cbn. intros [= Hx Hu].
      exists [x], u. split; [done|]. split; [by exists x|]. by apply IH.
Qed.

(** Under either flag a code unit that is not an ASCII letter is only
    matched by itself. *)
Lemma canonical_other (i : bool) (x c : N) :
  is_lower c = false -> is_upper c = false ->
  canonical i x = canonical i c <-> x = c.
Proof.
  unfold canonical, is_lower, is_upper, in_range. intros Hl Hu.
  rewrite Hl, andb_false_r. split; [|intros ->; by rewrite Hl, andb_false_r].
  destruct i; cbn [andb]; [|done].
  case_match eqn:E; [|done]. intros <-.
  apply andb_true_iff in E as [E1 E2]. apply N.leb_le in E1, E2.
  apply andb_false_iff in Hu as [Hu|Hu]; apply N.leb_gt in Hu; lia.
Qed.

Lemma lang_chr_other (i : bool) (c : N) (w : jstring) :
  is_lower c = false -> is_upper c = false ->
  lang i (Chr c) w <-> w = [c].
Proof.
  intros Hl Hu. cbn [lang]. split.
  - intros (x & -> & Hx). f_equal. by apply (canonical_other i).
  - intros ->. by exists c.
Qed.

(** [\d+(?:\.\d+)?] matches the decimal numerals. *)
Lemma lang_decimal (i : bool) (w : jstring) :
  lang i decimal w <-> decimal_numeral w.
Proof.
  unfold decimal, Opt.
  change (lang i (Seq (Plus digit) (Alt (Seq (Chr 46) (Plus digit)) Eps)) w)
    with (exists w1 w2, w = w1 ++ w2 /\ lang i (Plus digit) w1 /\
            ((exists u1 u2, w2 = u1 ++ u2 /\ lang i (Chr 46) u1 /\ lang i (Plus digit) u2)
             \/ w2 = [])).
  unfold digit. split.
  - intros (w1 & w2 & -> & H1 & H2). apply lang_plus_cls in H1 as [Hne H1].
    destruct H2 as [(u1 & u2 & -> & Hc & H2)| ->].
    + apply lang_chr_other in Hc as ->; [|done..].
      apply lang_plus_cls in H2 as [Hne2 H2]. by constructor.
    + rewrite app_nil_r. by constructor.
  - intros [ip Hne H|ip fp Hne1 Hne2 H1 H2].
    + exists ip, []. rewrite app_nil_r. split; [done|]. split; [by apply lang_plus_cls|by right].
    + exists ip, (46%N :: fp). split; [done|]. split; [by apply lang_plus_cls|]. left.
      exists [46%N], fp. split; [done|]. split; [by apply lang_chr_other|by apply lang_plus_cls].
Qed.

(* ===================================================================== *)
(** * Properties of texts *)
(* ===================================================================== *)

(** Decides arithmetic facts about classes of code units. *)
Ltac units :=
  unfold is_space, is_digit, is_word, is_upper, is_lower, is_date_sep, canonical,
    in_range in *;
  repeat match goal with
    | H : context [if ?b then _ else _] |- _ => destruct b eqn:?
    | |- context [if ?b then _ else _] => destruct b eqn:?
    end;
  rewrite ?orb_true_iff, ?orb_false_iff, ?andb_true_iff, ?andb_false_iff,
    ?N.leb_le, ?N.leb_gt, ?N.eqb_eq, ?N.eqb_neq in *;
  try lia.

Lemma take_while_app (p : N -> bool) (a b : jstring) :
  Forall (fun c => p c = true) a -> stops p b -> take_while p (a ++ b) = a.
Proof.
  intros Ha Hb. induction Ha as [|c a Hc _ IH]; cbn.
  - destruct b as [|c b]; [done|]. cbn in *. by rewrite Hb.
  - by rewrite Hc, IH.
Qed.

Lemma drop_while_app (p : N -> bool) (a b : jstring) :
  Forall (fun c => p c = true) a -> stops p b -> drop_while p (a ++ b) = b.
Proof.
  intros Ha Hb. induction Ha as [|c a Hc _ IH]; cbn.
  - destruct b as [|c b]; [done|]. cbn in *. by rewrite Hb.
  - by rewrite Hc, IH.
Qed.

Lemma take_drop_while (p : N -> bool) (s : jstring) :
  take_while p s ++ drop_while p s = s.
Proof. induction s as [|c s IH]; [done|]. cbn. case_match; [cbn; by f_equal|done]. Qed.

Lemma take_while_all (p : N -> bool) (s : jstring) :
  Forall (fun c => p c = true) (take_while p s).
Proof. induction s as [|c s IH]; cbn; [done|]. case_match eqn:E; by constructor. Qed.

Lemma drop_while_stops (p : N -> bool) (s : jstring) : stops p (drop_while p s).
Proof. induction s as [|c s IH]; cbn; [done|]. by case_match eqn:E. Qed.

Lemma take_while_id (p : N -> bool) (a : jstring) :
  Forall (fun c => p c = true) a -> take_while p a = a.
Proof. intros H. rewrite <- (app_nil_r a) at 1. by apply take_while_app. Qed.

Lemma drop_while_id (p : N -> bool) (a : jstring) :
  Forall (fun c => p c = true) a -> drop_while p a = [].
Proof. intros H. rewrite <- (app_nil_r a) at 1. by apply drop_while_app. Qed.

(** ** The value of a numeral *)

Lemma digits_value_app (a b : jstring) (acc : Z) :
  digits_value acc (a ++ b) = digits_value (digits_value acc a) b.
Proof. revert acc. induction a as [|c a IH]; intros acc; cbn; [done|]. apply IH. Qed.

Lemma digits_value_acc (b : jstring) (acc : Z) :
  digits_value acc b = (acc * 10 ^ Z.of_nat (length b) + digits_value 0 b)%Z.
Proof.
  revert acc. induction b as [|c b IH]; intros acc.
  - cbn. lia.
  - cbn [digits_value length]. rewrite IH, (IH (10 * 0 + _)%Z).
    rewrite Nat2Z.inj_succ, Z.pow_succ_r by lia. lia.
Qed.

Lemma digits_value_nonneg (ds : jstring) (acc : Z) :
  digits ds -> (0 <= acc)%Z -> (0 <= digits_value acc ds)%Z.
Proof.
  intros H. revert acc. induction H as [|c ds Hc _ IH]; intros acc Hacc; cbn; [done|].
  apply IH. units.
Qed.

Lemma Q2Qc_add (a b : Z) :
  Q2Qc (inject_Z (a + b)) = Q2Qc (inject_Z a) + Q2Qc (inject_Z b).
Proof. apply Qc_is_canon. cbn. by rewrite !Qred_correct, inject_Z_plus. Qed.

Lemma Q2Qc_mul (a b : Z) :
  Q2Qc (inject_Z (a * b)) = Q2Qc (inject_Z a) * Q2Qc (inject_Z b).
Proof. apply Qc_is_canon. cbn. by rewrite !Qred_correct, inject_Z_mult. Qed.

Lemma Q2Qc_nonzero (a : Z) : a <> 0%Z -> Q2Qc (inject_Z a) <> 0.
Proof.
  intros Ha H. apply (f_equal this) in H. cbn in H.
  apply (f_equal Qfloor) in H.
  rewrite (Qfloor_comp _ _ (Qred_correct _)), Qfloor_Z in H. by cbn in H.
Qed.

Lemma pow10_0 : pow10 0 = 1.
Proof. qc_closed. Qed.

Lemma pow10_neg (n : nat) :
  Q2Qc (inject_Z (10 ^ Z.of_nat n)) * pow10 (- Z.of_nat n) = 1.
Proof.
  unfold pow10. destruct n as [|n].
  - cbn. qc_closed.
  - destruct (Z.leb_spec 0 (- Z.of_nat (S n))); [lia|].
    rewrite Z.opp_involutive. apply Qcmult_inv_r, Q2Qc_nonzero. lia.
Qed.

Lemma pow10_pos (e : Z) : 0 < pow10 e.
Proof.
  assert (P : forall z, (0 <= z)%Z -> 0 < Q2Qc (inject_Z (10 ^ z))).
  { intros z Hz. unfold Qclt. cbn [this Q2Qc]. rewrite !Qred_correct.
    change (inject_Z 0 < inject_Z (10 ^ z))%Q. rewrite <- Zlt_Qlt. lia. }
  unfold pow10. case_match eqn:E.
  - apply P. lia.
  - apply Qcinv_pos, P. lia.
Qed.

(** ** parseFloat on a text that begins with a digit *)

Lemma parseFloat_digit (d : N) (s : jstring) :
  is_digit d = true ->
  parseFloat (d :: s)
  = Fin (Q2Qc (inject_Z (digits_value 0
                 (take_while is_digit (d :: s)
                  ++ fraction_digits (drop_while is_digit (d :: s)))))
         * pow10 (- Z.of_nat (length (fraction_digits (drop_while is_digit (d :: s)))))
         * pow10 (exponent (after_fraction (drop_while is_digit (d :: s))))).
Proof.
  intros Hd. unfold parseFloat. cbn [drop_while].
  replace (is_space d) with false by (symmetry; units).
  replace (d =? 43)%N with false by (symmetry; units).
  replace (d =? 45)%N with false by (symmetry; units).
  unfold unsigned_literal.
  replace (starts_with (js "Infinity") (d :: s)) with false.
  2:{ change (starts_with (js "Infinity") (d :: s))
        with ((73 =? d)%N && starts_with (js "nfinity") s).
      replace (73 =? d)%N with false; [done|]. symmetry. units. }
  cbn [take_while drop_while]. rewrite Hd. reflexivity.
Qed.

Lemma parseFloat_nonneg (d : N) (s : jstring) :
  is_digit d = true -> nonneg (parseFloat (d :: s)).
Proof.
  intros Hd. rewrite parseFloat_digit by done. cbn [nonneg].
  assert (Hp : forall e, 0 <= pow10 e) by (intros e; apply Qclt_le_weak, pow10_pos).
  assert (H0 : forall a b : Qc, 0 <= a -> 0 <= b -> 0 <= a * b).
  { intros a b Ha Hb. replace (0 : Qc) with (0 * b) by ring.
    by apply Qcmult_le_compat_r. }
  apply H0; [apply H0|]; try apply Hp.
  unfold Qcle. cbn [this Q2Qc]. rewrite !Qred_correct.
  change (inject_Z 0 <= inject_Z (digits_value 0
    (take_while is_digit (d :: s) ++ fraction_digits (drop_while is_digit (d :: s)))))%Q.
  rewrite <- Zle_Qle. apply digits_value_nonneg; [|done].
  apply Forall_app. split; [apply take_while_all|].
  unfold fraction_digits. repeat case_match; try apply take_while_all; constructor.
Qed.

Lemma before_point_digits (ip s : jstring) :
  digits ip -> before_point (ip ++ 46%N :: s) = ip /\ after_point (ip ++ 46%N :: s) = s.
Proof.
  induction 1 as [|c ip Hc _ [IH1 IH2]]; cbn; [done|].
  replace (c =? 46)%N with false by (symmetry; units). by rewrite IH1, IH2.
Qed.

Lemma before_point_all (ip : jstring) :
  digits ip -> before_point ip = ip /\ after_point ip = [].
Proof.
  induction 1 as [|c ip Hc _ [IH1 IH2]]; cbn; [done|].
  replace (c =? 46)%N with false by (symmetry; units). by rewrite IH1, IH2.
Qed.

(** [parseFloat] reads a decimal numeral as its value. *)
Lemma parseFloat_decimal (n : jstring) :
  decimal_numeral n -> parseFloat n = Fin (decimal_value n).
Proof.
  intros [ip Hne Hip|ip fp Hne1 Hne2 Hip Hfp].
  - destruct Hip as [|d ip Hd Hip]; [done|]. rewrite parseFloat_digit by done.
    assert (Hall : digits (d :: ip)) by by constructor.
    rewrite (take_while_id _ _ Hall), (drop_while_id _ _ Hall). cbn [fraction_digits after_fraction].
    unfold decimal_value. destruct (before_point_all _ Hall) as [-> ->].
    rewrite app_nil_r. cbn [length exponent digits_value]. f_equal.
    change (- Z.of_nat 0)%Z with 0%Z. rewrite pow10_0.
    change (Q2Qc (inject_Z 0)) with (0 : Qc). ring.
  - destruct Hip as [|d ip Hd Hip]; [done|]. rewrite <- app_comm_cons, parseFloat_digit by done.
    assert (Hall : digits (d :: ip)) by by constructor.
    rewrite app_comm_cons.
    rewrite (take_while_app _ _ _ Hall), (drop_while_app _ _ _ Hall) by done.
    cbn [fraction_digits after_fraction N.eqb Pos.eqb].
    rewrite (take_while_id _ _ Hfp), (drop_while_id _ _ Hfp).
    unfold decimal_value. destruct (before_point_digits _ fp Hall) as [-> ->].
    cbn [exponent]. rewrite pow10_0. f_equal.
    rewrite digits_value_app, digits_value_acc, Q2Qc_add, Q2Qc_mul.
    pose proof (pow10_neg (length fp)) as Hinv.
    set (P := Q2Qc (inject_Z (10 ^ Z.of_nat (length fp)))) in *.
    set (I := pow10 (- Z.of_nat (length fp))) in *.
    transitivity (Q2Qc (inject_Z (digits_value 0 (d :: ip))) * (P * I)
                  + Q2Qc (inject_Z (digits_value 0 fp)) * I); [ring|].
    rewrite Hinv. ring.
Qed.

(* ===================================================================== *)
(** * Properties of extractKeyFields *)
(* ===================================================================== *)

(** ** What each property of the result is *)

Lemma extract_energy (text : jstring) :
  extractKeyFields text !! "energyUsage"
  = (fun m => VNum (parseFloat (group1 m))) <$> String_match text patterns_energy.
Proof.
  unfold extractKeyFields.
  destruct (String_match text patterns_energy), (String_match text patterns_water),
    (String_match text patterns_amount), (String_match text patterns_date);
    by simplify_map_eq.
Qed.

Lemma extract_water (text : jstring) :
  extractKeyFields text !! "waterConsumption"
  = (fun m => VNum (parseFloat (group1 m))) <$> String_match text patterns_water.
Proof.
  unfold extractKeyFields.
  destruct (String_match text patterns_energy), (String_match text patterns_water),
    (String_match text patterns_amount), (String_match text patterns_date);
    by simplify_map_eq.
Qed.

Lemma extract_amount (text : jstring) :
  extractKeyFields text !! "amount"
  = (fun m => VNum (parseFloat (remove_commas (group1 m))))
      <$> String_match text patterns_amount.
Proof.
  unfold extractKeyFields.
  destruct (String_match text patterns_energy), (String_match text patterns_water),
    (String_match text patterns_amount), (String_match text patterns_date);
    by simplify_map_eq.
Qed.

Lemma extract_date (text : jstring) :
  extractKeyFields text !! "billDate"
  = (fun m => VStr (group1 m)) <$> String_match text patterns_date.
Proof.
  unfold extractKeyFields.
  destruct (String_match text patterns_energy), (String_match text patterns_water),
    (String_match text patterns_amount), (String_match text patterns_date);
    by simplify_map_eq.
Qed.

Lemma extract_other (text : jstring) (k : string) :
  k <> "energyUsage" -> k <> "waterConsumption" -> k <> "amount" -> k <> "billDate" ->
  extractKeyFields text !! k = None.
Proof.
  intros. unfold extractKeyFields.
  destruct (String_match text patterns_energy), (String_match text patterns_water),
    (String_match text patterns_amount), (String_match text patterns_date);
    by simplify_map_eq.
Qed.

(** ** C10 *)

(** C10: [extractKeyFields] populates no property other than
    [energyUsage], [waterConsumption], [amount] and [billDate]; in
    particular the [billType], [vendor], [fuelConsumption] and
    [wasteGeneration] of its result are absent, for every text. *)
Theorem C10_extract_frame (text : jstring) :
  dom (extractKeyFields text)
    ⊆ ({["energyUsage"; "waterConsumption"; "amount"; "billDate"]} : gset string) /\
  extractKeyFields text !! "billType" = None /\
  extractKeyFields text !! "vendor" = None /\
  extractKeyFields text !! "fuelConsumption" = None /\
  extractKeyFields text !! "wasteGeneration" = None.
Proof.
  split; [|by rewrite !extract_other].
  intros k Hk. apply elem_of_dom in Hk as [v Hv].
  destruct (decide (k = "energyUsage")); [set_solver|].
  destruct (decide (k = "waterConsumption")); [set_solver|].
  destruct (decide (k = "amount")); [set_solver|].
  destruct (decide (k = "billDate")); [set_solver|].
  by rewrite extract_other in Hv.
Qed.

(** ** The energy pattern *)

Lemma lang_word_opt (t : string) (c : N) (u : jstring) :
  lang true (Seq (Lit t) (Opt (Chr c))) u
  <-> same_word t u \/ map (canonical true) u = map (canonical true) (js t ++ [c]).
Proof.
  change (lang true (Seq (Lit t) (Opt (Chr c))) u)
    with (exists w1 w2, u = w1 ++ w2 /\ lang true (Lit t) w1 /\
            ((exists x, w2 = [x] /\ canonical true x = canonical true c) \/ w2 = [])).
  unfold Lit, same_word. split.
  - intros (w1 & w2 & -> & H1 & H2). apply lang_lit in H1.
    destruct H2 as [(x & -> & Hx)| ->].
    + right. rewrite !map_app, H1. cbn. by rewrite Hx.
    + left. by rewrite app_nil_r.
  - intros [H|H].
    + exists u, []. rewrite app_nil_r. split; [done|]. split; [by apply lang_lit|by right].
    + rewrite map_app in H.
      assert (Hlen : length u = S (length (js t))).
      { apply (f_equal length) in H. rewrite length_app, !length_map in H. cbn in H. lia. }
      destruct (decide (u = [])) as [->|Hne]; [done|].
      destruct (exists_last Hne) as (u1 & x & ->).
      rewrite map_app in H. apply app_inj_tail in H as [H1 Hx].
      exists u1, [x]. split; [done|]. split; [by apply lang_lit|]. left. by exists x.
Qed.

Lemma lang_energy_units (u : jstring) : lang true energy_units u <-> energy_unit u.
Proof.
  unfold energy_units, energy_unit.
  change (lang true (Alt (Lit "kwh") (Alt (Lit "kw") (Seq (Lit "unit") (Opt (Chr 115))))) u)
    with (lang true (Lit "kwh") u \/ lang true (Lit "kw") u
          \/ lang true (Seq (Lit "unit") (Opt (Chr 115))) u).
  rewrite lang_word_opt. unfold Lit. rewrite !lang_lit. unfold same_word. tauto.
Qed.

(** A unit token begins with a letter. *)
Lemma energy_unit_head (u : jstring) :
  energy_unit u ->
  exists c u', u = c :: u' /\ is_digit c = false /\ is_space c = false /\ c <> 46%N.
Proof.
  unfold energy_unit, same_word.
  intros [H|[H|[H|H]]]; (destruct u as [|c u']; [done|]);
    cbn in H; injection H as Hc _; exists c, u'; (split; [done|]);
    clear -Hc; repeat split; units.
Qed.

Lemma energy_run_sound (p : option N) (s : jstring) (k : option jstring) (st' : mstate) :
  st' ∈ run true (source patterns_energy) (mkState p s k) ->
  exists n, cap st' = Some n /\ energy_at s n.
Proof.
  intros H. apply run_sound in H. cbn [source patterns_energy] in H.
  inversion H as [| | |r1 r2 st0 st1 st2 Hg Ht| | | | | |]; subst.
  apply group_matches in Hg as (n & Ln & En & Est); [|done].
  apply pure_matches_lang in Ht as (t & Lt & Et & Est'); [|done].
  destruct st1 as [p1 s1 k1], st' as [p' s' k']. cbn [rest cap prev advance] in *.
  injection Est as _ ->. injection Est' as _ ->.
  destruct Lt as (ws & u & -> & Lws & Lu).
  apply lang_star_cls in Lws. apply lang_energy_units in Lu. apply lang_decimal in Ln.
  exists n. split; [done|]. exists ws, u, s'. by rewrite En, Et, <- app_assoc.
Qed.

Lemma energy_run_complete (p : option N) (s : jstring) (k : option jstring) (n : jstring) :
  energy_at s n -> run true (source patterns_energy) (mkState p s k) <> [].
Proof.
  intros (ws & u & post & -> & Hn & Hws & Hu) E.
  pose proof (proj1 (run_nil _ _ _) E) as E'. eapply E'. cbn [source patterns_energy].
  apply m_seq with (mkState (prev_after p n) (ws ++ u ++ post) (Some n)).
  - apply group_matches; [done|]. exists n. by split; [apply lang_decimal|].
  - apply (lang_matches true (Seq (Star space) energy_units) eq_refl (ws ++ u) _ post).
    + exists ws, u. split; [done|]. split; [by apply lang_star_cls|by apply lang_energy_units].
    + cbn [rest]. by rewrite <- app_assoc.
Qed.

(** The numeral at the head of a text that goes on with something else
    than a digit or a point. *)
Lemma decimal_numeral_head (n t : jstring) :
  decimal_numeral n -> stops is_digit t -> stops (fun c => c =? 46)%N t ->
  n = take_while is_digit (n ++ t)
      ++ match fraction_digits (drop_while is_digit (n ++ t)) with
         | [] => []
         | fp => 46%N :: fp
         end.
Proof.
  intros [ip Hne Hip|ip fp Hne1 Hne2 Hip Hfp] Ht Hp.
  - rewrite take_while_app, drop_while_app by done.
    destruct t as [|c t]; cbn in *; [by rewrite app_nil_r|]. rewrite Hp. by rewrite app_nil_r.
  - rewrite <- app_assoc. rewrite take_while_app, drop_while_app by done.
    cbn [fraction_digits app N.eqb Pos.eqb]. rewrite take_while_app by done.
    by destruct fp.
Qed.

Lemma energy_tail_head (ws u post : jstring) :
  spaces ws -> energy_unit u ->
  stops is_digit (ws ++ u ++ post) /\ stops (fun c => c =? 46)%N (ws ++ u ++ post).
Proof.
  intros Hws Hu. destruct (energy_unit_head u Hu) as (c & u' & -> & Hd & _ & Hp).
  destruct Hws as [|x ws Hx _]; cbn.
  - split; [done|]. by apply N.eqb_neq.
  - split; units.
Qed.

(** At one position there is at most one number followed by a unit token. *)
Lemma energy_at_unique (s n n' : jstring) : energy_at s n -> energy_at s n' -> n = n'.
Proof.
  intros (ws & u & post & E & Hn & Hws & Hu) (ws' & u' & post' & E' & Hn' & Hws' & Hu').
  destruct (energy_tail_head ws u post Hws Hu) as [H1 H2].
  destruct (energy_tail_head ws' u' post' Hws' Hu') as [H1' H2'].
  rewrite (decimal_numeral_head n _ Hn H1 H2), (decimal_numeral_head n' _ Hn' H1' H2').
  by rewrite <- E, <- E'.
Qed.

Lemma group1_cap (st : mstate) (n : jstring) : cap st = Some n -> group1 st = n.
Proof. unfold group1. by intros ->. Qed.

Lemma head_elem {A} (l : list A) (x : A) : head l = Some x -> x ∈ l.
Proof. destruct l; [done|]. intros [= ->]. by left. Qed.

Lemma app_inv_length {A} (a b a' b' : list A) :
  a ++ b = a' ++ b' -> length a = length a' -> a = a' /\ b = b'.
Proof. intros H Hl. by apply app_inj_1. Qed.

(** ** C5 *)

(** C5: [extractKeyFields] populates [energyUsage] exactly when the text
    contains a number (digits, possibly a point and digits) followed,
    after optional white space, by one of the unit tokens [kwh], [kw],
    [unit], [units] in either case; the value is then the decimal value of
    the number of the first such occurrence in document order; and without
    an occurrence the property is absent, not zero. *)
Theorem C5_energy_first_match (text : jstring) :
  (forall v : value,
      extractKeyFields text !! "energyUsage" = Some v <->
      exists n, first_energy text n /\ v = VNum (Fin (decimal_value n))) /\
  (extractKeyFields text !! "energyUsage" = None <->
   ~ exists pre s n, text = pre ++ s /\ energy_at s n).
Proof.
  rewrite extract_energy. unfold String_match. cbn [ignoreCase].
  assert (Hsome : forall st',
             search true (source patterns_energy) None text = Some st' ->
             exists n, first_energy text n /\ group1 st' = n).
  { intros st' H. apply search_Some in H as (pre & s & -> & Hh & Hmin).
    apply head_elem, energy_run_sound in Hh as (n & Hc & Hn).
    exists n. split; [|by apply group1_cap]. exists pre, s. repeat split; [done|].
    intros pre' s' n' E Hn'. apply Nat.nlt_ge. intros Hlt.
    by apply (energy_run_complete (prev_after None pre') _ None _ Hn'), Hmin. }
  assert (Hnone : search true (source patterns_energy) None text = None ->
                  ~ exists pre s n, text = pre ++ s /\ energy_at s n).
  { intros H (pre & s & n & E & Hn).
    by apply (energy_run_complete (prev_after None pre) _ None _ Hn),
         (search_None _ _ _ _ H). }
  split.
  - intros v. split.
    + destruct (search _ _ _ _) as [st'|] eqn:E; [|done]. cbn. intros [= <-].
      destruct (Hsome _ eq_refl) as (n & Hf & Hg). exists n. split; [done|].
      destruct Hf as (pre & s & _ & (ws & u & post & _ & Hn & _) & _).
      by rewrite Hg, parseFloat_decimal.
    + intros (n & Hf & ->).
      destruct (search _ _ _ _) as [st'|] eqn:E.
      * destruct (Hsome _ eq_refl) as (n2 & Hf2 & Hg). cbn. do 3 f_equal.
        destruct Hf as (pre & s & Et & Hn & Hmin), Hf2 as (pre2 & s2 & Et2 & Hn2 & Hmin2).
        assert (Hl : length pre = length pre2).
        { apply Nat.le_antisymm; [eapply Hmin|eapply Hmin2]; eauto. }
        rewrite Et in Et2. apply app_inv_length in Et2 as [_ <-]; [|done].
        rewrite Hg, (energy_at_unique _ _ _ Hn2 Hn).
        destruct Hn as (ws & u & post & _ & Hn & _). by apply parseFloat_decimal.
      * exfalso. apply (Hnone eq_refl).
        destruct Hf as (pre & s & Et & Hn & _). eauto.
  - split.
    + destruct (search _ _ _ _) as [st'|] eqn:E; [done|]. intros _. by apply Hnone.
    + intros Hno. destruct (search _ _ _ _) as [st'|] eqn:E; [|done].
      exfalso. apply Hno. destruct (Hsome _ eq_refl) as (n & (pre & s & Et & Hn & _) & _).
      eauto.
Qed.

(* ===================================================================== *)
(** * The preferred match of a greedy pattern *)
(* ===================================================================== *)

Lemma head_app_Some {A} (l k : list A) (x : A) : head l = Some x -> head (l ++ k) = Some x.
Proof. by destruct l. Qed.

Lemma head_None_nil {A} (l : list A) : head l = None -> l = [].
Proof. by destruct l. Qed.

Lemma head_bind_Some {A B} (f : A -> list B) (l : list A) (y : B) :
  head (l ≫= f) = Some y -> exists x, x ∈ l /\ head (f x) = Some y.
Proof.
  induction l as [|x l IH]; [done|]. rewrite bind_cons.
  destruct (f x) as [|z k] eqn:E.
  - intros H. destruct (IH H) as (x' & Hx' & Hy). exists x'. split; [by right|done].
  - intros [= ->]. exists x. split; [by left|]. by rewrite E.
Qed.

Lemma head_bind_first {A B} (f : A -> list B) (l : list A) (x : A) (y : B) :
  head l = Some x -> head (f x) = Some y -> head (l ≫= f) = Some y.
Proof.
  destruct l as [|x' l]; [done|]. intros [= ->] Hy. rewrite bind_cons.
  by apply head_app_Some.
Qed.

Lemma canonical_eqb_other (i : bool) (x c : N) :
  is_lower c = false -> is_upper c = false ->
  (canonical i x =? canonical i c)%N = (x =? c)%N.
Proof.
  intros Hl Hu. pose proof (canonical_other i x c Hl Hu) as H.
  destruct (N.eqb_spec (canonical i x) (canonical i c)), (N.eqb_spec x c); tauto.
Qed.

Lemma run_cls (i : bool) (p : N -> bool) (st : mstate) :
  run i (Cls p) st
  = match rest st with
    | x :: s => if p x then [advance st [x] s] else []
    | [] => []
    end.
Proof. reflexivity. Qed.

Lemma run_chr_other (i : bool) (c : N) (st : mstate) :
  is_lower c = false -> is_upper c = false ->
  run i (Chr c) st
  = match rest st with
    | x :: s => if (x =? c)%N then [advance st [x] s] else []
    | [] => []
    end.
Proof.
  intros Hl Hu. cbn [run]. destruct (rest st) as [|x s]; [done|].
  by rewrite canonical_eqb_other.
Qed.

(** A greedy [p*] stops at the first code unit outside the class. *)
Lemma head_star_cls (i : bool) (p : N -> bool) (st : mstate) :
  head (run i (Star (Cls p)) st)
  = Some (advance st (take_while p (rest st)) (drop_while p (rest st))).
Proof.
  remember (rest st) as s eqn:Hs. revert st Hs.
  induction s as [|x s IH]; intros st Hs; rewrite run_star, run_cls, <- Hs.
  - cbn. f_equal. destruct st; cbn in *; by subst.
  - cbn [take_while drop_while]. destruct (p x) eqn:Hx.
    + rewrite bind_singleton. cbn [rest advance length].
      replace (length s <? S (length s))%nat with true by (symmetry; apply Nat.ltb_lt; lia).
      apply head_app_Some. rewrite (IH (advance st [x] s) eq_refl).
      by rewrite advance_advance.
    + cbn. f_equal. destruct st; cbn in *; by subst.
Qed.

Lemma head_plus_cls (i : bool) (p : N -> bool) (st : mstate) :
  head (run i (Plus (Cls p)) st)
  = match rest st with
    | x :: _ =>
        if p x
        then Some (advance st (take_while p (rest st)) (drop_while p (rest st)))
        else None
    | [] => None
    end.
Proof.
  unfold Plus. change (run i (Seq (Cls p) (Star (Cls p))) st)
    with (st1 ← run i (Cls p) st; run i (Star (Cls p)) st1).
  rewrite run_cls. destruct (rest st) as [|x s] eqn:Hs; [done|].
  cbn [take_while drop_while]. destruct (p x) eqn:Hx; [|done].
  rewrite bind_singleton, head_star_cls. cbn [rest advance].
  by rewrite advance_advance.
Qed.

(** ** The greedy reading functions *)

Lemma separated_app (c0 : N) (s : jstring) : separated c0 s ++ separated_rest c0 s = s.
Proof.
  unfold separated, separated_rest. destruct s as [|c [|d s]]; try done.
  case_match; [|done]. cbn [app]. f_equal. apply take_drop_while.
Qed.

Lemma drop_while_length (p : N -> bool) (s : jstring) :
  (length (drop_while p s) <= length s)%nat.
Proof.
  rewrite <- (take_drop_while p s) at 2. rewrite length_app. lia.
Qed.

Lemma separated_rest_length (c0 : N) (s : jstring) :
  separated c0 s <> [] -> (length (separated_rest c0 s) < length s)%nat.
Proof.
  intros H. rewrite <- (separated_app c0 s) at 2. rewrite length_app.
  destruct (separated c0 s); [done|]. cbn. lia.
Qed.

Lemma after_digit_unfold (s : jstring) :
  after_digit s = take_while is_digit s ++ groups (drop_while is_digit s) /\
  after_digit_rest s = groups_rest (drop_while is_digit s).
Proof.
  induction s as [|c s [IH1 IH2]]; [done|].
  cbn [after_digit after_digit_rest take_while drop_while]. destruct (is_digit c) eqn:Hc.
  - by rewrite IH1, IH2.
  - unfold groups, groups_rest. rewrite Hc. cbn [app after_digit after_digit_rest].
    by rewrite Hc.
Qed.

Lemma groups_stop (s : jstring) :
  separated 44 s = [] -> groups s = [] /\ groups_rest s = s.
Proof.
  unfold separated, groups, groups_rest. destruct s as [|c [|d s]]; [done|..].
  - intros _. cbn. by repeat case_match.
  - case_match eqn:E; [done|]. intros _.
    cbn [after_digit after_digit_rest]. destruct (is_digit c); [done|].
    apply andb_false_iff in E as [->| ->]; [done|]. by case_match.
Qed.

Lemma after_digit_comma (d : N) (s : jstring) :
  is_digit d = true ->
  after_digit (44%N :: d :: s) = 44%N :: after_digit (d :: s) /\
  after_digit_rest (44%N :: d :: s) = after_digit_rest (d :: s).
Proof. intros Ed. simpl. by rewrite !Ed. Qed.

Lemma groups_step (s : jstring) :
  separated 44 s <> [] ->
  groups s = separated 44 s ++ groups (separated_rest 44 s) /\
  groups_rest s = groups_rest (separated_rest 44 s).
Proof.
  unfold separated, separated_rest. destruct s as [|c [|d s]]; [done..|].
  case_match eqn:E; [|done]. intros _.
  apply andb_true_iff in E as [Ec Ed]. apply N.eqb_eq in Ec as ->.
  change (groups (44%N :: d :: s)) with (after_digit (44%N :: d :: s)).
  change (groups_rest (44%N :: d :: s)) with (after_digit_rest (44%N :: d :: s)).
  destruct (after_digit_comma d s Ed) as [-> ->].
  by destruct (after_digit_unfold (d :: s)) as [-> ->].
Qed.

(** ** The preferred match of the number with comma grouping *)

(** A separator and the digits after it. *)
Lemma head_separated (i : bool) (c0 : N) (st : mstate) :
  is_lower c0 = false -> is_upper c0 = false ->
  head (run i (Seq (Chr c0) (Plus digit)) st)
  = match separated c0 (rest st) with
    | [] => None
    | w => Some (advance st w (separated_rest c0 (rest st)))
    end.
Proof.
  intros Hl Hu.
  change (run i (Seq (Chr c0) (Plus digit)) st)
    with (st1 ← run i (Chr c0) st; run i (Plus digit) st1).
  rewrite run_chr_other by done. unfold separated, separated_rest.
  destruct (rest st) as [|c [|d s]] eqn:Hs; [done|..].
  - destruct (c =? c0)%N; [|done]. rewrite bind_singleton. unfold digit.
    by rewrite head_plus_cls.
  - destruct (c =? c0)%N; [|done]. rewrite bind_singleton. unfold digit.
    rewrite head_plus_cls. cbn [rest advance andb].
    destruct (is_digit d) eqn:Hd; [|done]. by rewrite advance_advance.
Qed.

(** The greedy [(?:,\d+)*]. *)
Lemma head_star_groups (st : mstate) :
  head (run true (Star (Seq (Chr 44) (Plus digit))) st)
  = Some (advance st (groups (rest st)) (groups_rest (rest st))).
Proof.
  remember (length (rest st)) as n eqn:Hn. revert st Hn.
  induction (lt_wf n) as [n _ IH]. intros st Hn.
  rewrite run_star.
  pose proof (head_separated true 44 st eq_refl eq_refl) as Hh.
  destruct (separated 44 (rest st)) as [|c w] eqn:Hsep.
  - apply head_None_nil in Hh. rewrite Hh. cbn.
    destruct (groups_stop _ Hsep) as [-> ->]. by rewrite advance_nil.
  - destruct (run true (Seq (Chr 44) (Plus digit)) st) as [|stB l]; [done|].
    injection Hh as ->. rewrite bind_cons. cbn [rest advance].
    assert (Hlt : (length (separated_rest 44 (rest st)) < length (rest st))%nat).
    { apply separated_rest_length. by rewrite Hsep. }
    apply Nat.ltb_lt in Hlt as Hlt'. rewrite Hlt'.
    rewrite <- app_assoc. apply head_app_Some.
    rewrite (IH _ ltac:(subst n; exact Hlt)
               (advance st (c :: w) (separated_rest 44 (rest st))) eq_refl).
    cbn [rest advance].
    rewrite advance_advance.
    destruct (groups_step (rest st)) as [-> ->]; [by rewrite Hsep|].
    by rewrite Hsep.
Qed.

(** The greedy [(?:\.\d+)?]. *)
Lemma head_opt_fraction (st : mstate) :
  head (run true (Opt (Seq (Chr 46) (Plus digit))) st)
  = Some (advance st (separated 46 (rest st)) (separated_rest 46 (rest st))).
Proof.
  unfold Opt. change (run true (Alt (Seq (Chr 46) (Plus digit)) Eps) st)
    with (run true (Seq (Chr 46) (Plus digit)) st ++ [st]).
  pose proof (head_separated true 46 st eq_refl eq_refl) as Hh.
  destruct (separated 46 (rest st)) as [|c w] eqn:Hsep.
  - apply head_None_nil in Hh. rewrite Hh. cbn.
    pose proof (separated_app 46 (rest st)) as Happ. rewrite Hsep in Happ. cbn in Happ.
    by rewrite Happ, advance_nil.
  - by apply head_app_Some.
Qed.

Lemma leading_number_app (s : jstring) : leading_number s ++ leading_number_rest s = s.
Proof.
  unfold leading_number, leading_number_rest. destruct s as [|d s]; [done|].
  destruct (is_digit d) eqn:Hd; [|done].
  destruct (after_digit_unfold (d :: s)) as [E1 E2].
  rewrite <- app_assoc, separated_app.
  clear E1 E2. generalize (d :: s). clear. intros s.
  induction s as [|c s IH]; [done|]. cbn.
  destruct (is_digit c); [cbn; by f_equal|].
  destruct (c =? 44)%N; [|done]. destruct s as [|d s]; [done|].
  destruct (is_digit d); [|done]. cbn [app]. by f_equal.
Qed.

(** The greedy [\d+(?:,\d+)*(?:\.\d+)?]. *)
Lemma head_grouped (st : mstate) :
  head (run true grouped st)
  = match rest st with
    | d :: _ =>
        if is_digit d
        then Some (advance st (leading_number (rest st)) (leading_number_rest (rest st)))
        else None
    | [] => None
    end.
Proof.
  unfold grouped.
  change (run true (Seq (Plus digit) (Seq (Star (Seq (Chr 44) (Plus digit)))
                                        (Opt (Seq (Chr 46) (Plus digit))))) st)
    with (st1 ← run true (Plus digit) st;
          st2 ← run true (Star (Seq (Chr 44) (Plus digit))) st1;
          run true (Opt (Seq (Chr 46) (Plus digit))) st2).
  pose proof (head_plus_cls true is_digit st) as Hh. fold digit in Hh.
  destruct (rest st) as [|d s] eqn:Hs.
  - apply head_None_nil in Hh. by rewrite Hh.
  - destruct (is_digit d) eqn:Hd.
    + eapply head_bind_first; [exact Hh|].
      eapply head_bind_first; [apply head_star_groups|].
      rewrite head_opt_fraction. cbn [rest advance]. rewrite !advance_advance.
      unfold leading_number, leading_number_rest. rewrite Hd.
      destruct (after_digit_unfold (d :: s)) as [-> ->]. by rewrite app_assoc.
    + apply head_None_nil in Hh. by rewrite Hh.
Qed.

(** Group 1 of the amount pattern captures the greedy reading. *)
Lemma head_group_grouped (st st' : mstate) :
  head (run true (Group grouped) st) = Some st' ->
  exists d s, rest st = d :: s /\ is_digit d = true /\
              cap st' = Some (leading_number (rest st)) /\
              rest st' = leading_number_rest (rest st).
Proof.
  cbn [run]. pose proof (head_grouped st) as Hh.
  destruct (run true grouped st) as [|st1 l]; [done|]. cbn. intros [= <-].
  destruct (rest st) as [|d s] eqn:Hs; [done|].
  destruct (is_digit d) eqn:Hd; [|done]. injection Hh as ->.
  exists d, s. split; [done|]. split; [done|]. split; [|done].
  cbn [cap rest advance]. f_equal.
  apply consumed_app. cbn [rest advance]. by rewrite Hs, leading_number_app.
Qed.

(** ** The number with comma grouping *)

Lemma group_tail_after_digit (s : jstring) : group_tail (after_digit s).
Proof.
  remember (length s) as n eqn:Hn. revert s Hn.
  induction (lt_wf n) as [n _ IH]. intros s Hn.
  destruct s as [|c s]; [constructor|]. cbn [after_digit].
  destruct (is_digit c) eqn:Hc.
  - constructor; [done|]. eapply IH; [|reflexivity]. subst n. cbn. lia.
  - destruct (c =? 44)%N eqn:E; [|constructor]. apply N.eqb_eq in E as ->.
    destruct s as [|d s]; [constructor|].
    destruct (is_digit d) eqn:Hd; [|constructor].
    cbn [after_digit]. rewrite Hd. constructor; [done|].
    eapply IH; [|reflexivity]. subst n. cbn. lia.
Qed.

(** The greedy reading goes through every group tail that the text has. *)
Lemma after_digit_tail (w t : jstring) :
  group_tail w ->
  after_digit (w ++ t) = w ++ after_digit t /\
  after_digit_rest (w ++ t) = after_digit_rest t.
Proof.
  induction 1 as [|d w Hd _ [IH1 IH2]|d w Hd _ [IH1 IH2]].
  - done.
  - cbn [app after_digit after_digit_rest]. by rewrite Hd, IH1, IH2.
  - change ((44%N :: d :: w) ++ t) with (44%N :: d :: (w ++ t)).
    destruct (after_digit_comma d (w ++ t) Hd) as [-> ->].
    cbn [after_digit after_digit_rest]. by rewrite Hd, IH1, IH2.
Qed.

Lemma take_while_app_all (p : N -> bool) (a b : jstring) :
  Forall (fun c => p c = true) a -> take_while p (a ++ b) = a ++ take_while p b.
Proof. induction 1 as [|c a Hc _ IH]; cbn; [done|]. by rewrite Hc, IH. Qed.

Lemma leading_number_grouped (d : N) (s : jstring) :
  is_digit d = true -> grouped_numeral (leading_number (d :: s)).
Proof.
  intros Hd. unfold leading_number. rewrite Hd.
  cbn [after_digit]. rewrite Hd.
  pose proof (group_tail_after_digit s) as Ht.
  unfold separated. destruct (after_digit_rest (d :: s)) as [|c [|d' r]].
  - rewrite app_nil_r. by constructor.
  - rewrite app_nil_r. by constructor.
  - destruct ((c =? 46)%N && is_digit d') eqn:E.
    + apply andb_true_iff in E as [Ec Ed']. apply N.eqb_eq in Ec as ->.
      cbn [take_while]. rewrite Ed'. apply grouped_frac; [done..|].
      constructor; [done|]. apply take_while_all.
    + rewrite app_nil_r. by constructor.
Qed.

(** No number with comma grouping at the head of a text is longer than
    the greedy reading. *)
Lemma leading_number_max (n post : jstring) :
  grouped_numeral n -> (length n <= length (leading_number (n ++ post)))%nat.
Proof.
  intros [d w Hd Hw|d w fp Hd Hw Hne Hfp]; unfold leading_number;
    cbn [app]; rewrite Hd; cbn [after_digit]; rewrite Hd.
  - destruct (after_digit_tail w post Hw) as [-> _].
    cbn [app length]. rewrite !length_app. lia.
  - rewrite <- app_assoc. destruct (after_digit_tail w ((46%N :: fp) ++ post) Hw) as [-> _].
    cbn [after_digit_rest is_digit]. rewrite Hd.
    destruct (after_digit_tail w ((46%N :: fp) ++ post) Hw) as [_ ->].
    destruct Hfp as [|f fp Hf Hfp]; [done|].
    cbn [app after_digit after_digit_rest]. change (is_digit 46) with false.
    cbn [N.eqb Pos.eqb]. rewrite app_nil_r.
    unfold separated. change (46 =? 46)%N with true. rewrite Hf. cbn [andb].
    rewrite (app_comm_cons fp post f), take_while_app_all by by constructor.
    cbn [length]. rewrite !length_app. cbn [length]. rewrite !length_app. cbn [length]. lia.
Qed.

Lemma remove_commas_tail (w : jstring) : group_tail w -> digits (remove_commas w).
Proof.
  unfold remove_commas. induction 1 as [|d w Hd _ IH|d w Hd _ IH].
  - constructor.
  - rewrite filter_cons_True by (intros ->; done). by constructor.
  - rewrite filter_cons_False by (intros H; by apply H).
    rewrite filter_cons_True by (intros ->; done). by constructor.
Qed.

Lemma remove_commas_digits (fp : jstring) : digits fp -> remove_commas fp = fp.
Proof.
  unfold remove_commas. induction 1 as [|d w Hd _ IH]; [done|].
  rewrite filter_cons_True by (intros ->; done). by rewrite IH.
Qed.

(** Without its commas a number with comma grouping is a decimal numeral. *)
Lemma remove_commas_grouped (n : jstring) :
  grouped_numeral n -> decimal_numeral (remove_commas n).
Proof.
  intros [d w Hd Hw|d w fp Hd Hw Hne Hfp].
  - unfold remove_commas. rewrite filter_cons_True by (intros ->; done).
    constructor; [done|]. constructor; [done|]. by apply remove_commas_tail.
  - unfold remove_commas. rewrite filter_app, filter_cons_True by (intros ->; done).
    rewrite (filter_cons_True _ 46%N) by done.
    fold (remove_commas w). fold (remove_commas fp). rewrite (remove_commas_digits fp Hfp).
    apply numeral_frac; [done..| |done]. constructor; [done|]. by apply remove_commas_tail.
Qed.

(** ** The amount pattern *)

Lemma lang_currency (m : jstring) : lang true currency m <-> currency_marker m.
Proof.
  unfold currency, currency_marker.
  change (lang true (Alt (Chr 8377) (Alt (Seq (Lit "rs") (Opt (Chr 46))) (Lit "inr"))) m)
    with (lang true (Chr 8377) m \/ lang true (Seq (Lit "rs") (Opt (Chr 46))) m
          \/ lang true (Lit "inr") m).
  rewrite lang_chr_other by done. rewrite lang_word_opt. unfold Lit. rewrite lang_lit.
  unfold same_word. tauto.
Qed.

(** The shapes of a currency marker. *)
Lemma currency_marker_cases (m : jstring) :
  currency_marker m ->
  m = [8377%N]
  \/ (exists a b, m = [a; b] /\ canonical true a = 82%N /\ canonical true b = 83%N)
  \/ (exists a b, m = [a; b; 46%N] /\ canonical true a = 82%N /\ canonical true b = 83%N)
  \/ (exists a b c, m = [a; b; c] /\ canonical true a = 73%N
                    /\ canonical true b = 78%N /\ canonical true c = 82%N).
Proof.
  unfold currency_marker, same_word. intros [->|[H|[H|H]]].
  - by left.
  - right; left. destruct m as [|a [|b [|? ?]]]; try done. injection H as Ha Hb. eauto.
  - right; right; left. destruct m as [|a [|b [|c [|? ?]]]]; try done.
    injection H as Ha Hb Hc. exists a, b. split; [|done]. do 3 f_equal.
    by apply (canonical_other true).
  - right; right; right. destruct m as [|a [|b [|c [|? ?]]]]; try done.
    injection H as Ha Hb Hc. eauto 10.
Qed.

Lemma number_ahead_intro (ws t : jstring) (d : N) (t' : jstring) :
  spaces ws -> t = d :: t' -> is_digit d = true -> number_ahead (ws ++ t).
Proof. intros [|c ws' Hc _] -> Hd; cbn; auto. Qed.

(** At one position at most one marker is followed by a number. *)
Lemma currency_marker_unique (m m' x x' : jstring) :
  currency_marker m -> currency_marker m' ->
  number_ahead x -> number_ahead x' ->
  m ++ x = m' ++ x' -> x = x'.
Proof.
  intros Hm Hm' Hx Hx' E.
  apply currency_marker_cases in Hm, Hm'.
  destruct Hm as [->|[(a & b & -> & Ha & Hb)|[(a & b & -> & Ha & Hb)|(a & b & c & -> & Ha & Hb & Hc)]]];
  destruct Hm' as [->|[(a' & b' & -> & Ha' & Hb')|[(a' & b' & -> & Ha' & Hb')
                    |(a' & b' & c' & -> & Ha' & Hb' & Hc')]]];
    cbn in E; simplify_eq; try done;
    try (exfalso; cbn in Hx, Hx'; clear -Hx Hx'; units; fail);
    try (exfalso; congruence);
    try (exfalso; vm_compute in Ha; discriminate);
    try (exfalso; vm_compute in Ha'; discriminate).
Qed.

Lemma amount_tail_unique (m ws t m' ws' t' : jstring) (d d' : N) (r r' : jstring) :
  currency_marker m -> currency_marker m' -> spaces ws -> spaces ws' ->
  t = d :: r -> is_digit d = true -> t' = d' :: r' -> is_digit d' = true ->
  m ++ ws ++ t = m' ++ ws' ++ t' -> t = t'.
Proof.
  intros Hm Hm' Hws Hws' Et Hd Et' Hd' E.
  apply currency_marker_unique in E; try done;
    [|by eapply number_ahead_intro..].
  rewrite <- (drop_while_app is_space ws t), <- (drop_while_app is_space ws' t'); try done.
  - by rewrite E.
  - subst t'. cbn. units.
  - subst t. cbn. units.
Qed.

Lemma grouped_numeral_head (n : jstring) :
  grouped_numeral n -> exists d r, n = d :: r /\ is_digit d = true.
Proof. intros [d w Hd _|d w fp Hd _ _ _]; eauto. Qed.

Lemma amount_at_start (s n : jstring) : amount_at s n -> amount_start s.
Proof.
  intros (m & ws & post & -> & Hm & Hws & Hn & _).
  destruct (grouped_numeral_head n Hn) as (d & r & -> & Hd).
  by exists m, ws, d, (r ++ post).
Qed.

Lemma amount_at_unique (s n n' : jstring) : amount_at s n -> amount_at s n' -> n = n'.
Proof.
  intros (m & ws & post & E & Hm & Hws & Hn & Hmax)
         (m' & ws' & post' & E' & Hm' & Hws' & Hn' & Hmax').
  destruct (grouped_numeral_head n Hn) as (d & r & En & Hd).
  destruct (grouped_numeral_head n' Hn') as (d' & r' & En' & Hd').
  assert (Et : n ++ post = n' ++ post').
  { apply (amount_tail_unique m ws _ m' ws' _ d d' (r ++ post) (r' ++ post'));
      try done; try (by subst); try (by rewrite <- E, <- E'). }
  apply app_inv_length in Et as [? _]; [done|].
  apply Nat.le_antisymm; [eapply Hmax'|eapply Hmax]; eauto.
Qed.

(** The greedy reading of the number after a marker is an occurrence. *)
Lemma amount_at_leading (m ws t : jstring) (d : N) (r : jstring) :
  currency_marker m -> spaces ws -> t = d :: r -> is_digit d = true ->
  amount_at (m ++ ws ++ t) (leading_number t).
Proof.
  intros Hm Hws Et Hd. exists m, ws, (leading_number_rest t).
  rewrite leading_number_app. repeat split; try done.
  - subst t. by apply leading_number_grouped.
  - intros n' post' E Hn'. rewrite E. by apply leading_number_max.
Qed.

(** A marker followed by a digit is followed by a longest number. *)
Lemma amount_start_iff (s : jstring) : amount_start s <-> exists n, amount_at s n.
Proof.
  split.
  - intros (m & ws & d & post & -> & Hm & Hws & Hd).
    exists (leading_number (d :: post)). by eapply amount_at_leading.
  - intros [n Hn]. by eapply amount_at_start.
Qed.

Lemma amount_run_head (p : option N) (s : jstring) (st' : mstate) :
  head (run true (source patterns_amount) (mkState p s None)) = Some st' ->
  exists m ws t d r,
    s = m ++ ws ++ t /\ currency_marker m /\ spaces ws /\
    t = d :: r /\ is_digit d = true /\ cap st' = Some (leading_number t).
Proof.
  cbn [source patterns_amount].
  change (run true (Seq currency (Seq (Star space) (Group grouped))) (mkState p s None))
    with (st1 ← run true currency (mkState p s None);
          st2 ← run true (Star space) st1;
          run true (Group grouped) st2).
  intros H.
  apply head_bind_Some in H as (st1 & H1 & H).
  apply head_bind_Some in H as (st2 & H2 & H).
  apply run_sound, pure_matches_lang in H1 as (m & Lm & Em & E1); [|done].
  apply run_sound, pure_matches_lang in H2 as (ws & Lws & Ews & E2); [|done].
  apply head_group_grouped in H as (d & r & Et & Hd & Hc & _).
  apply lang_currency in Lm. apply lang_star_cls in Lws. cbn [rest] in Em.
  exists m, ws, (rest st2), d, r. by rewrite Em, Ews.
Qed.

Lemma amount_run_complete (p : option N) (s : jstring) :
  amount_start s -> run true (source patterns_amount) (mkState p s None) <> [].
Proof.
  intros (m & ws & d & post & -> & Hm & Hws & Hd) E.
  pose proof (proj1 (run_nil _ _ _) E) as E'. clear E.
  set (st := mkState p (m ++ ws ++ d :: post) None) in *.
  set (st1 := advance st m (ws ++ d :: post)).
  set (st2 := advance st1 ws (d :: post)).
  pose proof (head_grouped st2) as Hh. cbn [rest st2 advance] in Hh. rewrite Hd in Hh.
  destruct (run true (Group grouped) st2) as [|st' l] eqn:Er.
  { cbn [run] in Er. apply fmap_nil_inv in Er. by rewrite Er in Hh. }
  apply (E' st'). cbn [source patterns_amount].
  apply m_seq with st1.
  - apply lang_matches; [done|by apply lang_currency|done].
  - apply m_seq with st2.
    + apply lang_matches; [done|by apply lang_star_cls|done].
    + apply run_sound. rewrite Er. by left.
Qed.

(** ** C6 *)

(** C6: [extractKeyFields] populates [amount] exactly when the text
    contains a currency marker (the rupee sign, [Rs], [Rs.] or [INR], in
    either case) followed, after optional white space, by a number that may
    use comma grouping; the value is then the decimal value, once every
    comma is removed, of the longest such number at the first occurrence in
    document order; without an occurrence the property is absent; and
    [Rs. 3,250] yields 3250. *)
Theorem C6_amount_first_match (text : jstring) :
  (forall v : value,
      extractKeyFields text !! "amount" = Some v <->
      exists n, first_amount text n /\ v = VNum (Fin (decimal_value (remove_commas n)))) /\
  (extractKeyFields text !! "amount" = None <->
   ~ exists pre s, text = pre ++ s /\ amount_start s) /\
  extractKeyFields (js "Rs. 3,250") !! "amount" = Some (VNum (num 3250)).
Proof.
  split; [|split; [|vm_compute; reflexivity]];
    rewrite extract_amount; unfold String_match; cbn [ignoreCase].
  all: assert (Hsome : forall st',
             search true (source patterns_amount) None text = Some st' ->
             exists n, first_amount text n /\ group1 st' = n).
  1,3: intros st' H; apply search_Some in H as (pre & s & -> & Hh & Hmin);
    apply amount_run_head in Hh as (m & ws & t & d & r & -> & Hm & Hws & Et & Hd & Hc);
    exists (leading_number t); (split; [|by apply group1_cap]); exists pre, (m ++ ws ++ t);
    (split; [done|]); (split; [by eapply amount_at_leading|]);
    intros pre' s' n' E Hn'; apply Nat.nlt_ge; intros Hlt;
    by apply (amount_run_complete (prev_after None pre') s' (amount_at_start _ _ Hn')), Hmin.
  all: assert (Hnone : search true (source patterns_amount) None text = None ->
                  ~ exists pre s, text = pre ++ s /\ amount_start s).
  1,3: intros H (pre & s & E & Hs);
    by apply (amount_run_complete (prev_after None pre) s Hs), (search_None _ _ _ _ H).
  - intros v. split.
    + destruct (search _ _ _ _) as [st'|] eqn:E; [|done]. cbn. intros [= <-].
      destruct (Hsome _ eq_refl) as (n & Hf & Hg). exists n. split; [done|].
      destruct Hf as (pre & s & _ & (m & ws & post & _ & _ & _ & Hn & _) & _).
      by rewrite Hg, parseFloat_decimal by by apply remove_commas_grouped.
    + intros (n & Hf & ->).
      destruct (search _ _ _ _) as [st'|] eqn:E.
      * destruct (Hsome _ eq_refl) as (n2 & Hf2 & Hg). cbn. do 3 f_equal.
        destruct Hf as (pre & s & Et & Hn & Hmin), Hf2 as (pre2 & s2 & Et2 & Hn2 & Hmin2).
        assert (Hl : length pre = length pre2).
        { apply Nat.le_antisymm; [eapply Hmin|eapply Hmin2]; eauto. }
        rewrite Et in Et2. apply app_inv_length in Et2 as [_ <-]; [|done].
        rewrite Hg, (amount_at_unique _ _ _ Hn2 Hn).
        destruct Hn as (m & ws & post & _ & _ & _ & Hn & _).
        by apply parseFloat_decimal, remove_commas_grouped.
      * exfalso. apply (Hnone eq_refl).
        destruct Hf as (pre & s & Et & Hn & _). eauto using amount_at_start.
  - split.
    + destruct (search _ _ _ _) as [st'|] eqn:E; [done|]. intros _. by apply Hnone.
    + intros Hno. destruct (search _ _ _ _) as [st'|] eqn:E; [|done].
      exfalso. apply Hno. destruct (Hsome _ eq_refl) as (n & (pre & s & Et & Hn & _) & _).
      eauto using amount_at_start.
Qed.

(** ** The water pattern *)

Lemma water_run_sound (p : option N) (s : jstring) (k : option jstring) (st' : mstate) :
  st' ∈ run true (source patterns_water) (mkState p s k) ->
  exists n, cap st' = Some n /\ decimal_numeral n.
Proof.
  intros H. apply run_sound in H. cbn [source patterns_water] in H.
  inversion H as [| | |r1 r2 st0 st1 st2 Hg Ht| | | | | |]; subst.
  apply group_matches in Hg as (n & Ln & En & Est); [|done].
  apply groupless_cap in Ht; [|done].
  exists n. split; [|by apply (lang_decimal true)]. rewrite Ht, Est. done.
Qed.

Lemma decimal_numeral_digit (n : jstring) :
  decimal_numeral n -> exists d r, n = d :: r /\ is_digit d = true.
Proof.
  intros [ip Hne Hip|ip fp Hne _ Hip _]; destruct Hip as [|d ip Hd _]; try done; eauto.
Qed.

Lemma search_elem (i : bool) (r : regex) (text : jstring) (st' : mstate) :
  search i r None text = Some st' ->
  exists p s, st' ∈ run i r (mkState p s None).
Proof.
  intros H. apply search_Some in H as (pre & s & _ & Hh & _).
  apply head_elem in Hh. eauto.
Qed.

(** ** C9 *)

Lemma extract_nonneg (text : jstring) (k : string) (x : number) :
  extractKeyFields text !! k = Some (VNum x) -> nonneg x.
Proof.
  destruct (decide (k = "energyUsage")) as [->|Hk1];
    [|destruct (decide (k = "waterConsumption")) as [->|Hk2];
      [|destruct (decide (k = "amount")) as [->|Hk3];
        [|destruct (decide (k = "billDate")) as [->|Hk4]]]].
  - rewrite extract_energy. unfold String_match.
    destruct (search _ _ _ _) as [st'|] eqn:E; [|done]. cbn. intros [= <-].
    apply search_elem in E as (p & s & E).
    apply energy_run_sound in E as (n & Hc & (ws & u & post & _ & Hn & _)).
    rewrite (group1_cap _ _ Hc).
    destruct (decimal_numeral_digit n Hn) as (d & r & -> & Hd). by apply parseFloat_nonneg.
  - rewrite extract_water. unfold String_match.
    destruct (search _ _ _ _) as [st'|] eqn:E; [|done]. cbn. intros [= <-].
    apply search_elem in E as (p & s & E).
    apply water_run_sound in E as (n & Hc & Hn).
    rewrite (group1_cap _ _ Hc).
    destruct (decimal_numeral_digit n Hn) as (d & r & -> & Hd). by apply parseFloat_nonneg.
  - rewrite extract_amount. unfold String_match.
    destruct (search _ _ _ _) as [st'|] eqn:E; [|done]. cbn. intros [= <-].
    apply search_Some in E as (pre & s & _ & Hh & _).
    apply amount_run_head in Hh as (m & ws & t & d & r & _ & _ & _ & -> & Hd & Hc).
    rewrite (group1_cap _ _ Hc).
    pose proof (remove_commas_grouped _ (leading_number_grouped d r Hd)) as Hn.
    destruct (decimal_numeral_digit _ Hn) as (d' & r' & -> & Hd'). by apply parseFloat_nonneg.
  - rewrite extract_date. by destruct (String_match _ _).
  - by rewrite extract_other.
Qed.

Lemma lookup_insert_num (m : object) (i k : string) (v : value) (x : number) :
  <[i := v]> m !! k = Some (VNum x) -> v = VNum x \/ m !! k = Some (VNum x).
Proof. rewrite lookup_insert. case_decide; [intros [= ->]|]; auto. Qed.

Lemma draw_nonneg (w : World) (n : nat) (range base : Z) :
  fair w -> (0 < range)%Z -> (0 <= base)%Z ->
  nonneg (num (Qfloor (draws w n * Q2Qc (inject_Z range))%Qc + base)).
Proof.
  intros Hw Hr Hb. destruct (Hw n) as [H0 H1].
  pose proof (floor_draw _ range Hr H0 H1). apply num_nonneg. lia.
Qed.

(** C9: every number that [extractKeyFields] puts into its result is
    non-negative, for every text; and, in a world whose random draws lie in
    [[0,1)], so is every number that [processDocument] puts into a
    document, for every file. *)
Theorem C9_populated_numbers_nonneg (text : jstring) (file : File) (w : World) :
  fair w ->
  (forall (k : string) (x : number),
      extractKeyFields text !! k = Some (VNum x) -> nonneg x) /\
  (forall (k : string) (x : number),
      fst (processDocument file w) !! k = Some (VNum x) -> nonneg x).
Proof.
  intros Hw. split; [apply extract_nonneg|].
  intros k x. unfold processDocument.
  repeat case_match; run_world; rewrite !random_value; intros Hk;
    repeat (apply lookup_insert_num in Hk as [[= <-]|Hk]; try by apply draw_nonneg);
    by rewrite lookup_empty in Hk.
Qed.

Lemma C9_populated_numbers_nonneg_witness :
  (forall (k : string) (x : number),
      extractKeyFields bill_text !! k = Some (VNum x) -> nonneg x) /\
  (forall (k : string) (x : number),
      fst (processDocument mseb_file sample_world) !! k = Some (VNum x) -> nonneg x).
Proof.
  apply (C9_populated_numbers_nonneg bill_text mseb_file sample_world).
  intros n; split; vm_compute; [discriminate|reflexivity].
Defined.

(* ===================================================================== *)
(** * The end-to-end example *)
(* ===================================================================== *)

(** The file name [mseb_bill.jpg] selects the electricity branch. *)
Lemma processDocument_mseb (w : World) :
  processDocument mseb_file w
  = (energyUsage ← random_between 500 200;
     amount ← random_between 5000 2000;
     billDate ← today;
     mret (<["billType" := VStr (js "electricity")]>
          (<["energyUsage" := VNum energyUsage]>
          (<["amount" := VNum amount]>
          (<["billDate" := VStr billDate]>
          (<["vendor" := VStr (js "Maharashtra State Electricity Board")]>
             (∅ : object))))))) w.
Proof.
  unfold processDocument.
  assert (E : includes (toLowerCase (file_name mseb_file)) (js "electricity")
              || includes (toLowerCase (file_name mseb_file)) (js "power")
              || includes (toLowerCase (file_name mseb_file)) (js "mseb") = true)
    by (vm_compute; reflexivity).
  by rewrite E.
Qed.

(** The expected values of the example are the readings of the text. *)
Example decimal_value_example : decimal_value (js "245.5") = Q2Qc 245.5.
Proof. qc_closed. Qed.

Example grouped_value_example :
  decimal_value (remove_commas (js "3,250")) = Q2Qc 3250.
Proof. qc_closed. Qed.

(** ** C3 *)

(** C3, as stated, fails: in no world does processing [mseb_bill.jpg]
    yield an energy usage of 245.5, since the simulated reading is a whole
    number. *)
Lemma C3_energy_never_245_5 :
  ~ exists w : World,
      fst (processDocument mseb_file w) !! "energyUsage" = Some (VNum (dec 245.5)).
Proof.
  intros [w H]. rewrite processDocument_mseb in H. revert H.
  run_world. rewrite !random_value. simplify_map_eq.
  generalize (Qfloor (draws w (drawn w) * Q2Qc (inject_Z 500))%Qc). intros z.
  unfold num, dec. intros [= H]. apply Qred_eq_iff in H.
  unfold Qeq in H. cbn in H. lia.
Qed.

(** C3 (amended): on the text of the example [extractKeyFields] yields
    [energyUsage] 245.5, [amount] 3250 and [billDate] ["15/11/2024"], and
    neither a bill type nor a vendor nor a confidence; for the file name
    [mseb_bill.jpg], [processDocument] yields, in every world with draws in
    [[0,1)], [billType] ['electricity'] and the vendor name of the
    Maharashtra State Electricity Board, with a simulated whole
    [energyUsage] in [[200, 699]], a simulated whole [amount] in
    [[2000, 6999]], the current date as [billDate], and no confidence. *)
Theorem C3_example (w : World) :
  fair w ->
  (extractKeyFields bill_text !! "energyUsage" = Some (VNum (dec 245.5)) /\
   extractKeyFields bill_text !! "amount" = Some (VNum (num 3250)) /\
   extractKeyFields bill_text !! "billDate" = Some (VStr (js "15/11/2024")) /\
   extractKeyFields bill_text !! "waterConsumption" = None /\
   extractKeyFields bill_text !! "billType" = None /\
   extractKeyFields bill_text !! "vendor" = None /\
   extractKeyFields bill_text !! "confidence" = None) /\
  (fst (processDocument mseb_file w) !! "billType" = Some (VStr (js "electricity")) /\
   fst (processDocument mseb_file w) !! "vendor"
     = Some (VStr (js "Maharashtra State Electricity Board")) /\
   (exists n : Z,
       fst (processDocument mseb_file w) !! "energyUsage" = Some (VNum (num n))
       /\ (200 <= n <= 699)%Z) /\
   (exists a : Z,
       fst (processDocument mseb_file w) !! "amount" = Some (VNum (num a))
       /\ (2000 <= a <= 6999)%Z) /\
   fst (processDocument mseb_file w) !! "billDate" = Some (VStr (date_now w)) /\
   fst (processDocument mseb_file w) !! "confidence" = None).
Proof.
  intros Hw. split.
  - repeat split; try (vm_compute; reflexivity).
    unfold dec. vm_compute. do 3 f_equal. apply Qc_is_canon. reflexivity.
  - rewrite processDocument_mseb. run_world. rewrite !random_value. unfold date_now.
    destruct (Hw (drawn w)) as [H0 H1], (Hw (S (drawn w))) as [H2 H3].
    pose proof (floor_draw _ 500 ltac:(lia) H0 H1) as Hn.
    pose proof (floor_draw _ 5000 ltac:(lia) H2 H3) as Ha.
    revert Hn Ha.
    generalize (Qfloor (draws w (drawn w) * Q2Qc (inject_Z 500))%Qc).
    generalize (Qfloor (draws w (S (drawn w)) * Q2Qc (inject_Z 5000))%Qc).
    intros a n Hn Ha.
    split; [by simplify_map_eq|]. split; [by simplify_map_eq|].
    split; [exists (n + 200)%Z; split; [by simplify_map_eq|lia]|].
    split; [exists (a + 2000)%Z; split; [by simplify_map_eq|lia]|].
    split; by simplify_map_eq.
Qed.

Lemma C3_example_witness :
  (extractKeyFields bill_text !! "energyUsage" = Some (VNum (dec 245.5)) /\
   extractKeyFields bill_text !! "amount" = Some (VNum (num 3250)) /\
   extractKeyFields bill_text !! "billDate" = Some (VStr (js "15/11/2024")) /\
   extractKeyFields bill_text !! "waterConsumption" = None /\
   extractKeyFields bill_text !! "billType" = None /\
   extractKeyFields bill_text !! "vendor" = None /\
   extractKeyFields bill_text !! "confidence" = None) /\
  (fst (processDocument mseb_file sample_world) !! "billType"
     = Some (VStr (js "electricity")) /\
   fst (processDocument mseb_file sample_world) !! "vendor"
     = Some (VStr (js "Maharashtra State Electricity Board")) /\
   (exists n : Z,
       fst (processDocument mseb_file sample_world) !! "energyUsage" = Some (VNum (num n))
       /\ (200 <= n <= 699)%Z) /\
   (exists a : Z,
       fst (processDocument mseb_file sample_world) !! "amount" = Some (VNum (num a))
       /\ (2000 <= a <= 6999)%Z) /\
   fst (processDocument mseb_file sample_world) !! "billDate"
     = Some (VStr (date_now sample_world)) /\
   fst (processDocument mseb_file sample_world) !! "confidence" = None).
Proof.
  apply (C3_example sample_world).
  intros n; split; vm_compute; [discriminate|reflexivity].
Defined.

(* ===================================================================== *)
(** * The patterns on sample texts *)
(* ===================================================================== *)

(** Proves that a property of a concrete result is a given number. *)
Ltac sample_number := vm_compute; do 3 f_equal; apply Qc_is_canon; reflexivity.

(** White space may separate the number from the unit, and the unit is
    matched as a prefix of a longer word. *)
Example energy_with_space :
  extractKeyFields (js "used 245.5 kWh") !! "energyUsage" = Some (VNum (dec 245.5)).
Proof. unfold dec. sample_number. Qed.

Example energy_unit_prefix :
  extractKeyFields (js "5 kwarg") !! "energyUsage" = Some (VNum (num 5)).
Proof. unfold num. sample_number. Qed.

(** The matcher backtracks: in [12.5.7 kwh] the number before the unit is
    [5.7]; in [1.kw] no number stands before the unit. *)
Example energy_backtracks :
  extractKeyFields (js "12.5.7 kwh") !! "energyUsage" = Some (VNum (dec 5.7)).
Proof. unfold dec. sample_number. Qed.

Example energy_absent :
  extractKeyFields (js "1.kw units") !! "energyUsage" = None.
Proof. vm_compute. reflexivity. Qed.

(** The first occurrence wins. *)
Example energy_first_of_two :
  extractKeyFields (js "3 units, later 9 kWh") !! "energyUsage" = Some (VNum (num 3)).
Proof. unfold num. sample_number. Qed.

(** [l] must end a word; [litre] need not. *)
Example water_word_boundary :
  extractKeyFields (js "3 lx 7 L") !! "waterConsumption" = Some (VNum (num 7)).
Proof. unfold num. sample_number. Qed.

(** The amount is read greedily through its groups and its fraction. *)
Example amount_groups :
  extractKeyFields (js "INR1,2,3.5.6") !! "amount" = Some (VNum (dec 123.5)).
Proof. unfold dec. sample_number. Qed.

Example amount_rupee_sign :
  extractKeyFields (8377%N :: js " 1,00,000") !! "amount" = Some (VNum (num 100000)).
Proof. unfold num. sample_number. Qed.

Example amount_dangling_comma :
  extractKeyFields (js "rs5,,6") !! "amount" = Some (VNum (num 5)).
Proof. unfold num. sample_number. Qed.

Example amount_absent :
  extractKeyFields (js "Rs..5 rs.x5") !! "amount" = None.
Proof. vm_compute. reflexivity. Qed.

Example date_first_well_formed :
  extractKeyFields (js "123/4-12345") !! "billDate" = Some (VStr (js "23/4-1234")).
Proof. vm_compute. reflexivity. Qed.

(* ===================================================================== *)
(** * The inputs that handleFileUpload passes to the scorer *)
(* ===================================================================== *)

Lemma or_zero_cases (d : object) (k : string) :
  or_zero d k = num 0 \/ exists x, d !! k = Some (VNum x) /\ or_zero d k = x.
Proof.
  unfold or_zero. destruct (d !! k) as [[x|s]|]; auto.
  destruct (truthy x); eauto.
Qed.

(** The sum of quantities that are finite and not negative is finite and
    not negative. *)
Lemma reduce_sum_nonneg (k : string) (batch : list object) :
  Forall (fun d => forall x, d !! k = Some (VNum x) -> exists q, x = Fin q /\ 0 <= q) batch ->
  exists q, reduce_sum k batch = Fin q /\ 0 <= q.
Proof.
  unfold reduce_sum. intros H.
  assert (G : forall q0, 0 <= q0 ->
            exists q, foldl (fun sum item => (sum + or_zero item k)%num) (Fin q0) batch
                      = Fin q /\ 0 <= q).
  { induction H as [|d batch Hd _ IH]; intros q0 H0; cbn [foldl]; [eauto|].
    destruct (or_zero_cases d k) as [->|(x & Hx & ->)].
    - rewrite Nadd_zero_r. by apply IH.
    - destruct (Hd x Hx) as (q & -> & Hq). cbn [Nadd]. apply IH.
      replace (0 : Qc) with (0 + 0) by ring. by apply Qcplus_le_compat. }
  apply (G (Q2Qc (inject_Z 0))). by vm_compute.
Qed.

(** [Math.max(0, 100 - sum / c)] lies in [[0,100]] when the sum is not
    negative. *)
Lemma efficiency_in_range (q : Qc) (c : Z) :
  0 <= q -> (0 < c)%Z ->
  exists e, Math_max (num 0) (num 100 - Fin q / num c)%num = Fin e
            /\ 0 <= e /\ e <= ESG.hundred.
Proof.
  intros Hq Hc. unfold num, Ndiv, Nsub, Nneg, Nadd, Math_max, Qc_is_zero.
  rewrite bool_decide_eq_false_2 by (apply Q2Qc_nonzero; lia).
  assert (Hpos : 0 <= q / Q2Qc (inject_Z c)).
  { unfold Qcdiv. replace (0 : Qc) with (0 * / Q2Qc (inject_Z c)) by ring.
    apply Qcmult_le_compat_r; [done|]. apply Qclt_le_weak, Qcinv_pos.
    unfold Qclt. cbn [this Q2Qc]. rewrite !Qred_correct.
    change (inject_Z 0 < inject_Z c)%Q. by rewrite <- Zlt_Qlt. }
  assert (Hle : Q2Qc (inject_Z 100) + - (q / Q2Qc (inject_Z c)) <= ESG.hundred).
  { change ESG.hundred with (Q2Qc (inject_Z 100)).
    replace (Q2Qc (inject_Z 100)) with (Q2Qc (inject_Z 100) + - 0) at 2 by ring.
    apply Qcplus_le_compat; [apply Qcle_refl|]. by apply Qcopp_le_compat. }
  case_bool_decide as Hm.
  - eexists. split; [reflexivity|]. split; [exact Hm|exact Hle].
  - eexists. split; [reflexivity|]. split; by vm_compute.
Qed.

(** For a batch whose quantities are finite and not negative, such as the
    documents of [processDocument], the three efficiency inputs that
    [handleFileUpload] computes lie in [[0,100]]; the fourth,
    [carbonIntensity], is what [calculateCarbonFootprint] returns. *)
Lemma esg_input_in_range `{EmissionCalculator} (batch : list object) :
  Forall (fun d => forall k x, d !! k = Some (VNum x) -> exists q, x = Fin q /\ 0 <= q)
    batch ->
  (exists e, energyEfficiency (esg_input batch) = Fin e /\ 0 <= e /\ e <= ESG.hundred) /\
  (exists e, waterEfficiency (esg_input batch) = Fin e /\ 0 <= e /\ e <= ESG.hundred) /\
  (exists e, wasteReduction (esg_input batch) = Fin e /\ 0 <= e /\ e <= ESG.hundred) /\
  carbonIntensity (esg_input batch) = calculateCarbonFootprint batch.
Proof.
  intros Hb.
  assert (Hk : forall k, exists q, reduce_sum k batch = Fin q /\ 0 <= q).
  { intros k. apply reduce_sum_nonneg. eapply Forall_impl; [exact Hb|]. cbn. eauto. }
  unfold esg_input. cbn [energyEfficiency waterEfficiency wasteReduction carbonIntensity].
  destruct (Hk "energyUsage") as (q1 & -> & H1), (Hk "waterConsumption") as (q2 & -> & H2),
    (Hk "wasteGeneration") as (q3 & -> & H3).
  split; [by apply efficiency_in_range|]. split; [by apply efficiency_in_range|].
  split; [|done].
  destruct (efficiency_in_range q3 1 H3 ltac:(lia)) as (e & He & Hr).
  exists e. split; [|done]. rewrite <- He. do 3 f_equal.
  unfold Ndiv, num, Qc_is_zero. rewrite bool_decide_eq_false_2 by by vm_compute.
  f_equal. change (Q2Qc (inject_Z 1)) with (1 : Qc). field. by vm_compute.
Qed.

(* ===================================================================== *)
(** * The first match of a pattern with one reading per position *)
(* ===================================================================== *)

(** When the preferred match of a pattern at a position captures what
    [occurs] describes there, the pattern matches wherever [occurs] holds,
    and [occurs] yields one thing per position, the search captures the
    first occurrence. *)
Lemma first_match (i : bool) (r : regex) (occurs : jstring -> jstring -> Prop) :
  (forall p s st',
      head (run i r (mkState p s None)) = Some st' ->
      exists n, cap st' = Some n /\ occurs s n) ->
  (forall p s n, occurs s n -> run i r (mkState p s None) <> []) ->
  (forall s n n', occurs s n -> occurs s n' -> n = n') ->
  forall text,
    (forall c, group1 <$> search i r None text = Some c <-> first_occurrence occurs text c) /\
    (search i r None text = None <-> ~ exists pre s n, text = pre ++ s /\ occurs s n).
Proof.
  intros Hsound Hcomplete Hunique text.
  assert (Hsome : forall st',
             search i r None text = Some st' -> first_occurrence occurs text (group1 st')).
  { intros st' H. apply search_Some in H as (pre & s & -> & Hh & Hmin).
    apply Hsound in Hh as (n & Hc & Hn). rewrite (group1_cap _ _ Hc).
    exists pre, s. repeat split; [done|].
    intros pre' s' n' E Hn'. apply Nat.nlt_ge. intros Hlt.
    by apply (Hcomplete (prev_after None pre') _ _ Hn'), Hmin. }
  assert (Hnone : search i r None text = None ->
                  ~ exists pre s n, text = pre ++ s /\ occurs s n).
  { intros H (pre & s & n & E & Hn).
    by apply (Hcomplete (prev_after None pre) _ _ Hn), (search_None _ _ _ _ H). }
  split.
  - intros c. split.
    + destruct (search _ _ _ _) as [st'|] eqn:E; [|done]. cbn. intros [= <-]. by apply Hsome.
    + intros Hf. destruct (search _ _ _ _) as [st'|] eqn:E.
      * cbn. f_equal. pose proof (Hsome _ eq_refl) as Hf2.
        destruct Hf as (pre & s & Et & Hn & Hmin), Hf2 as (pre2 & s2 & Et2 & Hn2 & Hmin2).
        assert (Hl : length pre = length pre2).
        { apply Nat.le_antisymm; [eapply Hmin|eapply Hmin2]; eauto. }
        rewrite Et in Et2. apply app_inv_length in Et2 as [_ <-]; [|done].
        by apply (Hunique s).
      * exfalso. apply (Hnone eq_refl). destruct Hf as (pre & s & Et & Hn & _). eauto.
  - split.
    + destruct (search _ _ _ _) as [st'|] eqn:E; [done|]. intros _. by apply Hnone.
    + intros Hno. destruct (search _ _ _ _) as [st'|] eqn:E; [|done].
      exfalso. apply Hno. destruct (Hsome _ eq_refl) as (pre & s & Et & Hn & _). eauto.
Qed.

(* ===================================================================== *)
(** * The water pattern *)
(* ===================================================================== *)

Lemma matches_seq_inv (i : bool) (r1 r2 : regex) (st st' : mstate) :
  matches i (Seq r1 r2) st st' <-> exists st1, matches i r1 st st1 /\ matches i r2 st1 st'.
Proof.
  split.
  - inversion 1; subst. eauto.
  - intros (st1 & H1 & H2). by econstructor.
Qed.

Lemma matches_alt_inv (i : bool) (r1 r2 : regex) (st st' : mstate) :
  matches i (Alt r1 r2) st st' <-> matches i r1 st st' \/ matches i r2 st st'.
Proof.
  split.
  - inversion 1; subst; auto.
  - intros [H|H]; [by apply m_alt_l|by apply m_alt_r].
Qed.

(** A match of a pattern without group or [\b], as a word. *)
Lemma pure_matches (i : bool) (r : regex) (st st' : mstate) :
  pure r = true ->
  matches i r st st' <->
  exists w, lang i r w /\ rest st = w ++ rest st' /\ st' = advance st w (rest st').
Proof.
  intros Hp. split; [intros H; by apply pure_matches_lang|].
  intros (w & L & E & ->). by apply lang_matches.
Qed.

Lemma canonical_l (x : N) :
  canonical true x = canonical true 108 -> is_word x = true.
Proof.
  change (canonical true 108) with 76%N. unfold canonical. cbn [andb].
  destruct (is_lower x) eqn:E; intros H.
  - assert (x = 108%N) as -> by (clear -E H; units). done.
  - by subst x.
Qed.

(** [l\b]: a letter l after which no word character follows. *)
Lemma matches_l_boundary (st st' : mstate) :
  matches true (Seq (Chr 108) WordB) st st' <->
  exists x, same_word "l" [x] /\ rest st = x :: rest st' /\ stops is_word (rest st')
            /\ st' = advance st [x] (rest st').
Proof.
  rewrite matches_seq_inv. split.
  - intros (st1 & H1 & H2). inversion H1 as [|c x st0 s Hs Hx| | | | | | | |]; subst.
    inversion H2 as [| | | | | | | | |st0 Hb]; subst.
    cbn [rest] in *. exists x. unfold same_word. cbn. rewrite Hx. split; [done|].
    split; [done|]. split; [|done].
    unfold word_before, word_after in Hb. cbn [prev rest] in Hb.
    assert (Hw : is_word x = true) by by apply canonical_l.
    rewrite Hw in Hb. destruct s as [|c s]; [done|]. cbn in *. by destruct (is_word c).
  - intros (x & Hx & Hs & Hstop & ->).
    change (map (canonical true) [x] = map (canonical true) [108%N]) in Hx.
    injection Hx as Hx.
    exists (mkState (Some x) (rest st') (cap st)). split.
    + by apply m_chr.
    + apply m_wordb. unfold word_before, word_after. cbn.
      assert (Hw : is_word x = true) by by apply canonical_l.
      rewrite Hw. destruct (rest st') as [|c s]; [done|]. cbn in *. by rewrite Hstop.
Qed.

Lemma matches_water_units (st st' : mstate) :
  matches true water_units st st' <->
  exists u, water_unit u (rest st') /\ rest st = u ++ rest st'
            /\ st' = advance st u (rest st').
Proof.
  unfold water_units, water_unit.
  rewrite !matches_alt_inv, matches_l_boundary, !pure_matches by done.
  setoid_rewrite lang_word_opt. unfold same_word. cbn [js app]. split.
  - intros [(u & Hu & E)|[(u & Hu & E)|(x & Hx & E & Hs & Est)]].
    + exists u. tauto.
    + exists u. tauto.
    + exists [x]. tauto.
  - intros (u & [H|[H|[H|[H|[H Hs]]]]] & E & Est).
    + left. exists u. tauto.
    + left. exists u. tauto.
    + right. left. exists u. tauto.
    + right. left. exists u. tauto.
    + right. right. destruct u as [|x [|y u]]; try done. exists x. tauto.
Qed.

Lemma water_run_at (p : option N) (s : jstring) (st' : mstate) :
  st' ∈ run true (source patterns_water) (mkState p s None) ->
  exists n, cap st' = Some n /\ water_at s n.
Proof.
  rewrite run_spec. cbn [source patterns_water]. rewrite matches_seq_inv.
  setoid_rewrite matches_seq_inv. setoid_rewrite group_matches; [|done].
  setoid_rewrite matches_water_units. setoid_rewrite pure_matches; [|done].
  setoid_rewrite lang_star_cls. setoid_rewrite lang_decimal. cbn [rest prev cap].
  intros (st1 & (n & Hn & E1 & ->) & st2 & (ws & Hws & E2 & ->) & u & Hu & E3 & ->).
  cbn [rest advance cap] in *. exists n. split; [done|].
  exists ws, u, (rest st'). by rewrite E1, E2, E3.
Qed.

Lemma water_run_complete (p : option N) (s n : jstring) :
  water_at s n -> run true (source patterns_water) (mkState p s None) <> [].
Proof.
  intros (ws & u & post & -> & Hn & Hws & Hu) E.
  pose proof (proj1 (run_nil _ _ _) E) as E'.
  apply (E' (advance (advance (mkState (prev_after p n) (ws ++ u ++ post) (Some n))
                        ws (u ++ post)) u post)).
  cbn [source patterns_water]. rewrite matches_seq_inv.
  exists (mkState (prev_after p n) (ws ++ u ++ post) (Some n)). split.
  { apply group_matches; [done|]. exists n. by split; [apply lang_decimal|]. }
  rewrite matches_seq_inv. eexists. split.
  { apply (lang_matches true (Star space) eq_refl ws _ (u ++ post)); [|done].
    by apply lang_star_cls. }
  apply matches_water_units. exists u. done.
Qed.

(** A unit token of the water pattern begins with a letter. *)
Lemma water_unit_head (u post : jstring) :
  water_unit u post ->
  exists c u', u = c :: u' /\ is_digit c = false /\ is_space c = false /\ c <> 46%N.
Proof.
  unfold water_unit, same_word.
  intros [H|[H|[H|[H|[H _]]]]]; (destruct u as [|c u']; [done|]);
    cbn in H; injection H as Hc _; exists c, u'; (split; [done|]);
    clear -Hc; repeat split; units.
Qed.

Lemma water_tail_head (ws u post : jstring) :
  spaces ws -> water_unit u post ->
  stops is_digit (ws ++ u ++ post) /\ stops (fun c => c =? 46)%N (ws ++ u ++ post).
Proof.
  intros Hws Hu. destruct (water_unit_head u post Hu) as (c & u' & -> & Hd & _ & Hp).
  destruct Hws as [|x ws Hx _]; cbn.
  - split; [done|]. by apply N.eqb_neq.
  - split; units.
Qed.

(** At one position there is at most one number followed by a unit token. *)
Lemma water_at_unique (s n n' : jstring) : water_at s n -> water_at s n' -> n = n'.
Proof.
  intros (ws & u & post & E & Hn & Hws & Hu) (ws' & u' & post' & E' & Hn' & Hws' & Hu').
  destruct (water_tail_head ws u post Hws Hu) as [H1 H2].
  destruct (water_tail_head ws' u' post' Hws' Hu') as [H1' H2'].
  rewrite (decimal_numeral_head n _ Hn H1 H2), (decimal_numeral_head n' _ Hn' H1' H2').
  by rewrite <- E, <- E'.
Qed.

(** X1: [extractKeyFields] populates [waterConsumption] exactly when the text
    contains a number (digits, possibly a point and digits) followed,
    after optional white space, by [litre], [litres], [liter] or [liters]
    in either case, or by a single letter l that no letter, digit or
    underscore follows; the value is then the decimal value of the number
    of the first such occurrence in document order, and without an
    occurrence the property is absent. *)
Theorem water_first_match (text : jstring) :
  (forall v : value,
      extractKeyFields text !! "waterConsumption" = Some v <->
      exists n, first_occurrence water_at text n /\ v = VNum (Fin (decimal_value n))) /\
  (extractKeyFields text !! "waterConsumption" = None <->
   ~ exists pre s n, text = pre ++ s /\ water_at s n).
Proof.
  rewrite extract_water. unfold String_match. cbn [ignoreCase].
  destruct (first_match true (source patterns_water) water_at) with (text := text)
    as [Hsome Hnone].
  { intros p s st' H. by apply head_elem, water_run_at in H. }
  { intros p s n. apply water_run_complete. }
  { apply water_at_unique. }
  split.
  - intros v. split.
    + destruct (search _ _ _ _) as [st'|] eqn:E; [|done]. cbn. intros [= <-].
      exists (group1 st'). split; [by apply Hsome|].
      destruct (proj1 (Hsome (group1 st')) eq_refl)
        as (pre & s & _ & (ws & u & post & _ & Hn & _) & _).
      by rewrite parseFloat_decimal.
    + intros (n & Hf & ->). apply Hsome in Hf.
      destruct (search _ _ _ _) as [st'|] eqn:E; [|done]. cbn in *. injection Hf as <-.
      do 2 f_equal. apply parseFloat_decimal.
      destruct (proj1 (Hsome (group1 st')) eq_refl)
        as (pre & s & _ & (ws & u & post & _ & Hn & _) & _). done.
  - rewrite <- Hnone. by destruct (search _ _ _ _).
Qed.

(* ===================================================================== *)
(** * The date pattern *)
(* ===================================================================== *)

(** ** Bounded repetition of a class *)

Lemma lang_upto (i : bool) (p : N -> bool) (k : nat) :
  forall w, lang i (UpTo k (Cls p)) w
            <-> Forall (fun c => p c = true) w /\ (length w <= k)%nat.
Proof.
  induction k as [|k IH]; intros w.
  - cbn. split.
    + intros ->. split; [constructor|done].
    + intros [_ H]. destruct w; [done|cbn in H; lia].
  - change (lang i (UpTo (S k) (Cls p)) w)
      with ((exists w1 w2, w = w1 ++ w2 /\ (exists x, w1 = [x] /\ p x = true)
                           /\ lang i (UpTo k (Cls p)) w2) \/ w = []).
    split.
    + intros [(w1 & w2 & -> & (x & -> & Hx) & H2)| ->].
      * apply IH in H2 as [H2 Hl]. split; [by constructor|cbn; lia].
      * split; [constructor|cbn; lia].
    + intros [Hw Hl]. destruct Hw as [|x w Hx Hw]; [by right|]. left.
      exists [x], w. split; [done|]. split; [eauto|]. apply IH. split; [done|cbn in Hl; lia].
Qed.

Lemma lang_range (i : bool) (p : N -> bool) (lo : nat) :
  forall hi w,
    (lo <= hi)%nat ->
    lang i (Range lo hi (Cls p)) w
    <-> Forall (fun c => p c = true) w /\ (lo <= length w <= hi)%nat.
Proof.
  induction lo as [|lo IH]; intros hi w Hle.
  - unfold Range. cbn [Times]. rewrite Nat.sub_0_r, lang_upto. intuition lia.
  - destruct hi as [|hi]; [lia|].
    change (lang i (Range (S lo) (S hi) (Cls p)) w)
      with (exists w1 w2, w = w1 ++ w2 /\ (exists x, w1 = [x] /\ p x = true)
                          /\ lang i (Range lo hi (Cls p)) w2).
    split.
    + intros (w1 & w2 & -> & (x & -> & Hx) & H2).
      apply IH in H2 as [H2 Hl]; [|lia]. split; [by constructor|cbn; lia].
    + intros [Hw Hl]. destruct Hw as [|x w Hx Hw]; [cbn in Hl; lia|].
      exists [x], w. split; [done|]. split; [eauto|]. apply IH; [lia|].
      split; [done|cbn in Hl; lia].
Qed.

(** A greedy bounded repetition reads as many code units of the class as
    there are, up to its bound. *)
Lemma head_upto (i : bool) (p : N -> bool) (k : nat) :
  forall st,
    head (run i (UpTo k (Cls p)) st)
    = Some (advance st (take_while p (take k (rest st)))
              (drop (length (take_while p (take k (rest st)))) (rest st))).
Proof.
  induction k as [|k IH]; intros st.
  - cbn. by rewrite advance_nil.
  - change (run i (UpTo (S k) (Cls p)) st)
      with ((st1 ← run i (Cls p) st; run i (UpTo k (Cls p)) st1) ++ [st]).
    rewrite run_cls. destruct (rest st) as [|x s] eqn:Hs.
    + cbn. f_equal. destruct st; cbn in *; by subst.
    + cbn [take take_while]. destruct (p x) eqn:Hx.
      * rewrite bind_singleton. apply head_app_Some. rewrite IH. cbn [rest advance length drop].
        by rewrite advance_advance.
      * cbn. f_equal. destruct st; cbn in *; by subst.
Qed.

Lemma head_range (i : bool) (p : N -> bool) (lo : nat) :
  forall hi st,
    (lo <= hi)%nat ->
    head (run i (Range lo hi (Cls p)) st)
    = let y := take_while p (take hi (rest st)) in
      if (lo <=? length y)%nat
      then Some (advance st y (drop (length y) (rest st)))
      else None.
Proof.
  induction lo as [|lo IH]; intros hi st Hle.
  - unfold Range. cbn [Times]. rewrite Nat.sub_0_r, head_upto. done.
  - destruct hi as [|hi]; [lia|].
    change (run i (Range (S lo) (S hi) (Cls p)) st)
      with (st1 ← run i (Cls p) st; run i (Range lo hi (Cls p)) st1).
    rewrite run_cls. destruct (rest st) as [|x s] eqn:Hs; [done|].
    cbn [take take_while]. destruct (p x) eqn:Hx; [|done].
    rewrite bind_singleton, IH by lia. cbn [rest advance length drop].
    change (S lo <=? S ?n)%nat with (lo <=? n)%nat.
    case_match; [|done]. by rewrite advance_advance.
Qed.

Lemma take_while_take (p : N -> bool) (k : nat) (s : jstring) :
  take_while p (take k s) ++ drop (length (take_while p (take k s))) s = s.
Proof.
  revert k. induction s as [|x s IH]; intros [|k]; cbn; try done.
  destruct (p x); cbn; [by rewrite IH|done].
Qed.

Lemma take_while_take_length (p : N -> bool) (k : nat) (s : jstring) :
  (length (take_while p (take k s)) <= k)%nat.
Proof.
  revert k. induction s as [|x s IH]; intros [|k]; cbn; try lia.
  destruct (p x); cbn; [specialize (IH k)|]; lia.
Qed.

Lemma take_while_take_max (p : N -> bool) (k : nat) (a b : jstring) :
  Forall (fun c => p c = true) a -> (length a <= k)%nat ->
  (length a <= length (take_while p (take k (a ++ b))))%nat.
Proof.
  intros Ha. revert k. induction Ha as [|x a Hx _ IH]; intros k Hk; cbn; [lia|].
  destruct k as [|k]; cbn in *; [lia|]. rewrite Hx. cbn. specialize (IH k). lia.
Qed.

(** ** Dates *)

Lemma date_sep_stops (c : N) (t : jstring) : is_date_sep c = true -> stops is_digit (c :: t).
Proof. cbn. units. Qed.

(** The parts of a date at the head of a text are determined up to the
    year, and the years are prefixes of one another. *)
Lemma date_parts_unique (d s1 m s2 y post d' s1' m' s2' y' post' : jstring) (c1 c2 c1' c2' : N) :
  d ++ c1 :: m ++ c2 :: y ++ post = d' ++ c1' :: m' ++ c2' :: y' ++ post' ->
  digits d -> is_date_sep c1 = true -> digits m -> is_date_sep c2 = true ->
  digits d' -> is_date_sep c1' = true -> digits m' -> is_date_sep c2' = true ->
  d = d' /\ c1 = c1' /\ m = m' /\ c2 = c2' /\ y ++ post = y' ++ post'.
Proof.
  intros E Hd Hc1 Hm Hc2 Hd' Hc1' Hm' Hc2'.
  assert (d = d') as <-.
  { rewrite <- (take_while_app is_digit d (c1 :: m ++ c2 :: y ++ post)) at 1
      by (done || by apply date_sep_stops).
    rewrite E. apply take_while_app; [done|by apply date_sep_stops]. }
  apply app_inv_head in E. injection E as <- E.
  assert (m = m') as <-.
  { rewrite <- (take_while_app is_digit m (c2 :: y ++ post)) at 1
      by (done || by apply date_sep_stops).
    rewrite E. apply take_while_app; [done|by apply date_sep_stops]. }
  apply app_inv_head in E. injection E as <- E. done.
Qed.

Lemma date_shape_lang (n : jstring) :
  date_shape n ->
  lang false
    (Seq (Range 1 2 digit)
       (Seq (Cls is_date_sep)
          (Seq (Range 1 2 digit) (Seq (Cls is_date_sep) (Range 2 4 digit))))) n.
Proof.
  intros (d & c1 & m & c2 & y & -> & Hd & Ld & Hc1 & Hm & Lm & Hc2 & Hy & Ly).
  exists d, (c1 :: m ++ c2 :: y). split; [done|]. split; [by apply lang_range; [lia|]|].
  exists [c1], (m ++ c2 :: y). split; [done|]. split; [by exists c1|].
  exists m, (c2 :: y). split; [done|]. split; [by apply lang_range; [lia|]|].
  exists [c2], y. split; [done|]. split; [by exists c2|]. by apply lang_range; [lia|].
Qed.

Lemma date_run_complete (p : option N) (s n post : jstring) :
  s = n ++ post -> date_shape n -> run false (source patterns_date) (mkState p s None) <> [].
Proof.
  intros -> Hn E. pose proof (proj1 (run_nil _ _ _) E) as E'.
  apply (E' (mkState (prev_after p n) post (Some n))).
  cbn [source patterns_date]. apply group_matches; [done|].
  exists n. split; [by apply date_shape_lang|done].
Qed.

Lemma run_group (i : bool) (r : regex) (st : mstate) :
  run i (Group r) st
  = (fun st1 => mkState (prev st1) (rest st1) (Some (consumed st st1))) <$> run i r st.
Proof. reflexivity. Qed.

Lemma run_seq (i : bool) (r1 r2 : regex) (st : mstate) :
  run i (Seq r1 r2) st = st1 ← run i r1 st; run i r2 st1.
Proof. reflexivity. Qed.

Lemma head_fmap {A B} (f : A -> B) (l : list A) : head (f <$> l) = f <$> head l.
Proof. by destruct l. Qed.

Lemma date_run_head (p : option N) (s : jstring) (st' : mstate) :
  head (run false (source patterns_date) (mkState p s None)) = Some st' ->
  exists n, cap st' = Some n /\ date_at s n.
Proof.
  cbn [source patterns_date]. rewrite run_group, head_fmap. intros H.
  destruct (head (run _ _ _)) as [st1|] eqn:H1; [|done].
  injection H as <-. cbn [cap].
  rewrite run_seq in H1. apply head_bind_Some in H1 as (x1 & Hx1 & H1).
  rewrite run_seq in H1. apply head_bind_Some in H1 as (x2 & Hx2 & H1).
  rewrite run_seq in H1. apply head_bind_Some in H1 as (x3 & Hx3 & H1).
  rewrite run_seq in H1. apply head_bind_Some in H1 as (x4 & Hx4 & H1).
  unfold digit in H1. rewrite head_range in H1 by lia. cbn zeta in H1.
  set (y := take_while is_digit (take 4 (rest x4))) in *.
  destruct (2 <=? length y)%nat eqn:Ly; [|done]. apply Nat.leb_le in Ly. injection H1 as <-.
  apply run_spec, pure_matches in Hx1 as (d & Ld & E1 & A1); [|done].
  apply run_spec, pure_matches in Hx2 as (w2 & (c1 & -> & Hc1) & E2 & A2); [|done].
  apply run_spec, pure_matches in Hx3 as (m & Lm & E3 & A3); [|done].
  apply run_spec, pure_matches in Hx4 as (w4 & (c2 & -> & Hc2) & E4 & A4); [|done].
  clear A1 A2 A3 A4.
  unfold digit in Ld, Lm. apply lang_range in Ld as [Hd Ld]; [|lia].
  apply lang_range in Lm as [Hm Lm]; [|lia].
  cbn [rest advance] in *. set (t := rest x4) in *.
  pose proof (take_while_take is_digit 4 t) as Et. fold y in Et.
  set (post := drop (length y) t) in *.
  assert (Es : s = (d ++ c1 :: m ++ c2 :: y) ++ post).
  { rewrite E1, E2, E3, E4, <- Et, <- !app_assoc. cbn [app]. by rewrite <- !app_assoc. }
  rewrite (consumed_app _ _ (d ++ c1 :: m ++ c2 :: y)) by done.
  eexists. split; [done|]. exists post. split; [done|]. split.
  - exists d, c1, m, c2, y. repeat split; try done; try lia.
    + apply take_while_all.
    + apply take_while_take_length.
  - intros n' post' En' (d' & c1' & m' & c2' & y' & -> & Hd' & Ld' & Hc1' & Hm' & Lm' & Hc2' & Hy' & Ly').
    rewrite Es in En'. rewrite <- !app_assoc in En'. cbn [app] in En'.
    rewrite <- !app_assoc in En'. cbn [app] in En'.
    apply date_parts_unique in En' as (<- & <- & <- & <- & Ey); try done.
    rewrite !length_app. cbn [length]. rewrite !length_app. cbn [length].
    enough (length y' <= length y)%nat by lia.
    unfold y. rewrite <- Et. fold y. fold post. rewrite Ey.
    apply take_while_take_max; [done|lia].
Qed.

Lemma date_at_unique (s n n' : jstring) : date_at s n -> date_at s n' -> n = n'.
Proof.
  intros (post & E & Hn & Hmax) (post' & E' & Hn' & Hmax').
  assert (Hl : length n = length n').
  { apply Nat.le_antisymm; [eapply Hmax'|eapply Hmax]; eauto. }
  rewrite E in E'. by apply app_inv_length in E' as [-> _].
Qed.

(** X2: [extractKeyFields] populates [billDate] exactly when the text contains
    one or two digits, a slash or hyphen, one or two digits, a slash or
    hyphen and two to four digits; the value is then the text of the
    first such occurrence in document order, with as many year digits as
    are there up to four, verbatim and not validated as a calendar date. *)
Theorem date_first_match (text : jstring) :
  (forall v : value,
      extractKeyFields text !! "billDate" = Some v <->
      exists n, first_occurrence date_at text n /\ v = VStr n) /\
  (extractKeyFields text !! "billDate" = None <->
   ~ exists pre n post, text = pre ++ n ++ post /\ date_shape n).
Proof.
  rewrite extract_date. unfold String_match. cbn [ignoreCase].
  destruct (first_match false (source patterns_date) date_at) with (text := text)
    as [Hsome Hnone].
  { apply date_run_head. }
  { intros p s n (post & E & Hn & _). by apply (date_run_complete p s n post). }
  { apply date_at_unique. }
  split.
  - intros v. split.
    + destruct (search _ _ _ _) as [st'|] eqn:E; [|done]. cbn. intros [= <-].
      exists (group1 st'). split; [by apply Hsome|done].
    + intros (n & Hf & ->). apply Hsome in Hf.
      destruct (search _ _ _ _) as [st'|] eqn:E; [|done]. cbn in *. by injection Hf as <-.
  - split.
    + destruct (search _ _ _ _) as [st'|] eqn:E; [done|]. intros _ (pre & n & post & Et & Hn).
      by apply (date_run_complete (prev_after None pre) (n ++ post) n post eq_refl Hn),
           (search_None _ _ _ _ E).
    + intros Hno. destruct (search _ _ _ _) as [st'|] eqn:E; [|done].
      exfalso. apply Hno.
      destruct (proj1 (Hsome (group1 st')) eq_refl) as (pre & s & Et & (post & -> & Hn & _) & _).
      eauto.
Qed.

(* ===================================================================== *)
(** * Texts without digits *)
(* ===================================================================== *)

Lemma digitless_spec (text : jstring) :
  digitless text = true <-> Forall (fun c => is_digit c = false) text.
Proof.
  unfold digitless. induction text as [|c text IH]; cbn; [done|].
  rewrite andb_true_iff, negb_true_iff, Forall_cons, IH. done.
Qed.

(** A pattern whose preferred match starts with a digit or reaches one
    finds nothing in a text without digits. *)
Lemma search_digitless (i : bool) (r : regex) (text : jstring) :
  (forall p s st',
      head (run i r (mkState p s None)) = Some st' ->
      exists a d b, s = a ++ d :: b /\ is_digit d = true) ->
  digitless text = true -> search i r None text = None.
Proof.
  intros Hr Ht. apply digitless_spec in Ht.
  destruct (search i r None text) as [st'|] eqn:E; [|done].
  apply search_Some in E as (pre & s & -> & Hh & _).
  apply Hr in Hh as (a & d & b & -> & Hd).
  apply Forall_app in Ht as [_ Ht]. apply Forall_app in Ht as [_ Ht].
  apply Forall_cons in Ht as [Ht _]. congruence.
Qed.

(** X3: from a text without a digit [extractKeyFields] extracts nothing: the
    result has no property at all.  The empty text is one such text. *)
Theorem extract_digitless (text : jstring) :
  digitless text = true -> extractKeyFields text = ∅.
Proof.
  intros Ht. unfold extractKeyFields, String_match.
  rewrite (search_digitless _ (source patterns_energy)), (search_digitless _ (source patterns_water)),
    (search_digitless _ (source patterns_amount)), (search_digitless _ (source patterns_date));
    try done.
  - intros p s st' H. apply date_run_head in H as (n & _ & post & -> & Hn & _).
    destruct Hn as (d & c1 & m & c2 & y & -> & Hd & Ld & _).
    destruct Hd as [|x d Hx _]; [cbn in Ld; lia|].
    exists [], x, ((d ++ c1 :: m ++ c2 :: y) ++ post). done.
  - intros p s st' H.
    apply amount_run_head in H as (m & ws & t & d & r & -> & _ & _ & -> & Hd & _).
    exists (m ++ ws), d, r. by rewrite <- app_assoc.
  - intros p s st' H. apply head_elem, water_run_at in H as (n & _ & ws & u & post & -> & Hn & _).
    destruct (decimal_numeral_digit n Hn) as (d & r & -> & Hd).
    exists [], d, (r ++ ws ++ u ++ post). done.
  - intros p s st' H.
    apply head_elem, energy_run_sound in H as (n & _ & ws & u & post & -> & Hn & _).
    destruct (decimal_numeral_digit n Hn) as (d & r & -> & Hd).
    exists [], d, (r ++ ws ++ u ++ post). done.
Qed.

Lemma extract_digitless_witness :
  digitless thanks_text = true /\ extractKeyFields thanks_text = ∅.
Proof. split; [reflexivity|apply (extract_digitless thanks_text); reflexivity]. Defined.

(* ===================================================================== *)
(** * ISO dates *)
(* ===================================================================== *)

Lemma date_search (text : jstring) :
  (forall c, group1 <$> search false (source patterns_date) None text = Some c
             <-> first_occurrence date_at text c) /\
  (search false (source patterns_date) None text = None
   <-> ~ exists pre s n, text = pre ++ s /\ date_at s n).
Proof.
  apply first_match.
  - apply date_run_head.
  - intros p s n (post & E & Hn & _). by apply (date_run_complete p s n post).
  - apply date_at_unique.
Qed.

(** No date starts where three digits stand in a row. *)
Lemma date_shape_three_digits (a b c : N) (t n post : jstring) :
  is_digit a = true -> is_digit b = true -> is_digit c = true ->
  a :: b :: c :: t = n ++ post -> ~ date_shape n.
Proof.
  intros Ha Hb Hc E (d & c1 & m & c2 & y & -> & Hd & Ld & Hc1 & _).
  destruct d as [|d1 [|d2 [|d3 d]]]; cbn in Ld; try lia; cbn in E.
  - injection E as _ <- _. clear -Hb Hc1. units.
  - injection E as _ _ <- _. clear -Hc Hc1. units.
Qed.

(** X4: a text that starts with a date in the ISO form [YYYY-MM-DD], not
    followed by a further digit, has as its [billDate] the last two digits
    of the year, the month and the day: the pattern reads [YY-MM-DD]. *)
Theorem extract_iso_date (y1 y2 y3 y4 m1 m2 d1 d2 : N) (post : jstring) :
  Forall (fun c => is_digit c = true) [y1; y2; y3; y4; m1; m2; d1; d2] ->
  stops is_digit post ->
  extractKeyFields (iso_date y1 y2 y3 y4 m1 m2 d1 d2 ++ post) !! "billDate"
  = Some (VStr [y3; y4; 45%N; m1; m2; 45%N; d1; d2]).
Proof.
  intros Hd Hpost. rewrite extract_date. unfold String_match. cbn [ignoreCase].
  set (n := [y3; y4; 45%N; m1; m2; 45%N; d1; d2]).
  set (text := iso_date _ _ _ _ _ _ _ _ ++ post).
  enough (H : first_occurrence date_at text n).
  { apply date_search in H. destruct (search _ _ _ _); [|done]. cbn in *. by injection H as ->. }
  apply Forall_cons in Hd as [Hy1 Hd]. apply Forall_cons in Hd as [Hy2 Hd].
  apply Forall_cons in Hd as [Hy3 Hd]. apply Forall_cons in Hd as [Hy4 Hd].
  apply Forall_cons in Hd as [Hm1 Hd]. apply Forall_cons in Hd as [Hm2 Hd].
  apply Forall_cons in Hd as [Hd1 Hd]. apply Forall_cons in Hd as [Hd2 _].
  exists [y1; y2], (n ++ post). split; [done|]. split.
  - exists post. split; [done|]. split.
    + exists [y3; y4], 45%N, [m1; m2], 45%N, [d1; d2].
      repeat split; try done; cbn; try lia; by repeat constructor.
    + intros n' post' E (d' & c1' & m' & c2' & y' & -> & Hd' & Ld' & Hc1' & Hm' & Lm' & Hc2' & Hy' & Ly').
      change (n ++ post) with ([y3; y4] ++ 45%N :: [m1; m2] ++ 45%N :: [d1; d2] ++ post) in E.
      rewrite <- !app_assoc in E. cbn [app] in E. rewrite <- !app_assoc in E. cbn [app] in E.
      change (y3 :: y4 :: 45%N :: m1 :: m2 :: 45%N :: d1 :: d2 :: post)
        with ([y3; y4] ++ 45%N :: [m1; m2] ++ 45%N :: [d1; d2] ++ post) in E.
      apply date_parts_unique in E as (<- & <- & <- & <- & Ey);
        try done; try by repeat constructor.
      enough (length y' <= 2)%nat by (cbn; lia).
      destruct y' as [|a [|b [|c y']]]; cbn; try lia. exfalso.
      cbn in Ey. injection Ey as _ _ Ey. subst post.
      apply Forall_cons in Hy' as [_ Hy']. apply Forall_cons in Hy' as [_ Hy'].
      apply Forall_cons in Hy' as [Hc _]. cbn in Hpost. congruence.
  - intros pre' s' n' E (post' & -> & Hn' & _).
    destruct pre' as [|a [|b pre']]; cbn; try lia; cbn in E; exfalso.
    + by apply (date_shape_three_digits _ _ _ _ _ _ Hy1 Hy2 Hy3 E).
    + injection E as _ E. by apply (date_shape_three_digits _ _ _ _ _ _ Hy2 Hy3 Hy4 E).
Qed.

Lemma extract_iso_date_witness :
  extractKeyFields timestamp_text !! "billDate" = Some (VStr (js "24-11-15")).
Proof.
  apply (extract_iso_date 50 48 50 52 49 49 49 53 (js "T09:30:00.000Z")).
  - by repeat constructor.
  - reflexivity.
Defined.

(* ===================================================================== *)
(** * The case of letters *)
(* ===================================================================== *)

Lemma canonical_cases (x y : N) :
  canonical true x = canonical true y ->
  x = y \/ (is_lower x = true /\ y = (x - 32)%N) \/ (is_lower y = true /\ x = (y - 32)%N).
Proof.
  unfold canonical. cbn [andb].
  destruct (is_lower x) eqn:Ex, (is_lower y) eqn:Ey; intros H; auto.
  left. clear -Ex Ey H. units.
Qed.

Lemma caseless_digit : caseless is_digit.
Proof.
  intros x y H. destruct (canonical_cases x y H) as [->|[[Hx ->]|[Hy ->]]]; [done| |];
    [clear -Hx|clear -Hy]; apply eq_iff_eq_true; units.
Qed.

Lemma caseless_space : caseless is_space.
Proof.
  intros x y H. destruct (canonical_cases x y H) as [->|[[Hx ->]|[Hy ->]]]; [done| |];
    [clear -Hx|clear -Hy]; apply eq_iff_eq_true; units.
Qed.

Lemma caseless_date_sep : caseless is_date_sep.
Proof.
  intros x y H. destruct (canonical_cases x y H) as [->|[[Hx ->]|[Hy ->]]]; [done| |];
    [clear -Hx|clear -Hy]; apply eq_iff_eq_true; units.
Qed.

Lemma caseless_word : caseless is_word.
Proof.
  intros x y H. destruct (canonical_cases x y H) as [->|[[Hx ->]|[Hy ->]]]; [done| |];
    [clear -Hx|clear -Hy]; apply eq_iff_eq_true; units.
Qed.

Lemma same_letters_nil (b : jstring) : same_letters [] b -> b = [].
Proof. unfold same_letters. by destruct b. Qed.

Lemma same_letters_cons (x : N) (a b : jstring) :
  same_letters (x :: a) b ->
  exists y b', b = y :: b' /\ canonical true x = canonical true y /\ same_letters a b'.
Proof.
  unfold same_letters. destruct b as [|y b']; [done|]. cbn. intros [= Hx H]. eauto.
Qed.

Lemma same_letters_length (a b : jstring) : same_letters a b -> length a = length b.
Proof. intros H. apply (f_equal length) in H. by rewrite !length_map in H. Qed.

Lemma same_letters_take (n : nat) (a b : jstring) :
  same_letters a b -> same_letters (take n a) (take n b).
Proof. unfold same_letters. intros H. by rewrite <- !firstn_map, H. Qed.

Lemma same_letters_letterless (a b : jstring) :
  Forall letterless a -> same_letters a b -> a = b.
Proof.
  intros Ha. revert b. induction Ha as [|x a [Hl Hu] _ IH]; intros b H.
  - by apply same_letters_nil in H.
  - apply same_letters_cons in H as (y & b' & -> & Hx & H).
    f_equal; [|by apply IH]. symmetry. by apply (canonical_other true).
Qed.

Lemma alike_consumed (st st' st1 st1' : mstate) :
  alike st st' -> alike st1 st1' -> same_letters (consumed st st1) (consumed st' st1').
Proof.
  intros (H & _) (H1 & _). unfold consumed.
  rewrite (same_letters_length _ _ H), (same_letters_length _ _ H1).
  by apply same_letters_take.
Qed.

Lemma iterate_alike (body body' : mstate -> list mstate) :
  (forall st st', alike st st' -> Forall2 alike (body st) (body' st')) ->
  forall fuel st st',
    alike st st' -> Forall2 alike (iterate body fuel st) (iterate body' fuel st').
Proof.
  intros Hb fuel. induction fuel as [|fuel IH]; intros st st' H; cbn [iterate].
  - constructor; [done|constructor].
  - apply Forall2_app; [|constructor; [done|constructor]].
    apply Forall2_bind. eapply Forall2_impl; [by apply Hb|].
    intros st1 st1' H1. cbn beta.
    rewrite (same_letters_length _ _ (proj1 H)), (same_letters_length _ _ (proj1 H1)).
    case_match; [by apply IH|constructor].
Qed.

(** On two texts that differ in case only, a pattern read without regard
    to case has the same matches, in the same order. *)
Lemma run_alike (i : bool) (r : regex) :
  caseless_regex i r ->
  forall st st', alike st st' -> Forall2 alike (run i r st) (run i r st').
Proof.
  induction r as [|c|p|r1 IH1 r2 IH2|r1 IH1 r2 IH2|r IH|r IH|]; cbn [caseless_regex];
    intros Hr st st' H.
  - constructor; [done|constructor].
  - subst i. cbn [run]. destruct H as (Hs & Hp & Hc).
    destruct (rest st) as [|x s].
    + apply same_letters_nil in Hs. rewrite Hs. constructor.
    + apply same_letters_cons in Hs as (y & s' & -> & Hx & Hs). rewrite Hx.
      case_match; [|constructor]. constructor; [|constructor]. by repeat split; [|constructor|].
  - cbn [run]. destruct H as (Hs & Hp & Hc).
    destruct (rest st) as [|x s].
    + apply same_letters_nil in Hs. rewrite Hs. constructor.
    + apply same_letters_cons in Hs as (y & s' & -> & Hx & Hs). rewrite (Hr x y Hx).
      case_match; [|constructor]. constructor; [|constructor]. by repeat split; [|constructor|].
  - destruct Hr as [Hr1 Hr2]. cbn [run]. apply Forall2_bind.
    eapply Forall2_impl; [by apply IH1|]. intros st1 st1' H1. by apply IH2.
  - destruct Hr as [Hr1 Hr2]. cbn [run]. apply Forall2_app; auto.
  - cbn [run]. rewrite (same_letters_length _ _ (proj1 H)).
    apply iterate_alike; [|done]. intros st0 st0' H0. by apply IH.
  - cbn [run]. apply Forall2_fmap. eapply Forall2_impl; [by apply IH|].
    intros st1 st1' H1. split; [apply H1|]. split; [apply H1|].
    constructor. by apply alike_consumed.
  - cbn [run]. destruct H as (Hs & Hp & Hc).
    assert (Hb : word_before st = word_before st').
    { unfold word_before. destruct Hp as [x y Hx|]; [by apply caseless_word|done]. }
    assert (Ha : word_after st = word_after st').
    { unfold word_after. destruct (rest st) as [|x s].
      - apply same_letters_nil in Hs. by rewrite Hs.
      - apply same_letters_cons in Hs as (y & s' & -> & Hx & Hs). by apply caseless_word. }
    rewrite Hb, Ha. case_match; [|constructor]. constructor; [|constructor]. by repeat split.
Qed.

Lemma search_alike (i : bool) (r : regex) :
  caseless_regex i r ->
  forall s s' p p',
    same_letters s s' ->
    option_Forall2 (fun x y => canonical true x = canonical true y) p p' ->
    option_Forall2 alike (search i r p s) (search i r p' s').
Proof.
  intros Hr s. induction s as [|c s IH]; intros s' p p' Hs Hp.
  - apply same_letters_nil in Hs as ->. cbn [search].
    assert (H : Forall2 alike (run i r (mkState p [] None)) (run i r (mkState p' [] None))).
    { apply run_alike; [done|]. by repeat split; [|constructor]. }
    destruct H; [constructor|by constructor].
  - apply same_letters_cons in Hs as (c' & s1' & -> & Hc & Hs). cbn [search].
    assert (H : Forall2 alike (run i r (mkState p (c :: s) None))
                  (run i r (mkState p' (c' :: s1') None))).
    { apply run_alike; [done|]. repeat split; [|done|constructor].
      unfold same_letters. cbn. by rewrite Hc, Hs. }
    destruct H; [by apply IH; [|constructor]|by constructor].
Qed.

Lemma String_match_alike (re : RegExp) (text text' : jstring) :
  caseless_regex (ignoreCase re) (source re) -> same_letters text text' ->
  option_Forall2 alike (String_match text re) (String_match text' re).
Proof. intros Hr H. apply search_alike; [done|done|constructor]. Qed.

(** ** What the groups capture has no letters *)

Lemma digits_letterless (s : jstring) : digits s -> Forall letterless s.
Proof.
  intros H. eapply Forall_impl; [exact H|].
  intros c Hc. unfold letterless. split; clear -Hc; units.
Qed.

Lemma decimal_numeral_letterless (n : jstring) : decimal_numeral n -> Forall letterless n.
Proof.
  intros [ip _ Hip|ip fp _ _ Hip Hfp]; [by apply digits_letterless|].
  apply Forall_app. split; [by apply digits_letterless|].
  constructor; [done|by apply digits_letterless].
Qed.

Lemma group_tail_letterless (w : jstring) : group_tail w -> Forall letterless w.
Proof.
  induction 1 as [|d w Hd _ IH|d w Hd _ IH]; [constructor| |].
  - constructor; [|done]. unfold letterless. split; clear -Hd; units.
  - constructor; [done|]. constructor; [|done]. unfold letterless. split; clear -Hd; units.
Qed.

Lemma grouped_numeral_letterless (n : jstring) : grouped_numeral n -> Forall letterless n.
Proof.
  intros [d w Hd Hw|d w fp Hd Hw _ Hfp].
  - constructor; [|by apply group_tail_letterless]. unfold letterless. split; clear -Hd; units.
  - apply Forall_app. split.
    + constructor; [|by apply group_tail_letterless].
      unfold letterless. split; clear -Hd; units.
    + constructor; [done|by apply digits_letterless].
Qed.

Lemma date_shape_letterless (n : jstring) : date_shape n -> Forall letterless n.
Proof.
  intros (d & c1 & m & c2 & y & -> & Hd & _ & Hc1 & Hm & _ & Hc2 & Hy & _).
  apply Forall_app. split; [by apply digits_letterless|].
  constructor; [unfold letterless; split; clear -Hc1; units|].
  apply Forall_app. split; [by apply digits_letterless|].
  constructor; [unfold letterless; split; clear -Hc2; units|by apply digits_letterless].
Qed.

Lemma alike_group1 (m m' : mstate) (n : jstring) :
  alike m m' -> cap m = Some n -> Forall letterless n -> group1 m' = group1 m.
Proof.
  intros (_ & _ & Hc) Hn Hl. unfold group1. rewrite Hn in *.
  inversion Hc as [x y Hxy|]; subst. cbn. symmetry. by apply same_letters_letterless.
Qed.

Lemma String_match_same (re : RegExp) (text text' : jstring) :
  caseless_regex (ignoreCase re) (source re) ->
  (forall m, String_match text re = Some m ->
             exists n, cap m = Some n /\ Forall letterless n) ->
  same_letters text text' ->
  group1 <$> String_match text re = group1 <$> String_match text' re.
Proof.
  intros Hr Hcap H. pose proof (String_match_alike re text text' Hr H) as Ha.
  destruct Ha as [m m' Hm|]; [|done]. cbn. f_equal.
  destruct (Hcap m eq_refl) as (n & Hn & Hl). symmetry. by apply (alike_group1 m m' n).
Qed.

Ltac caseless_patterns :=
  cbv [caseless_regex source ignoreCase patterns_energy patterns_water patterns_amount
       patterns_date decimal energy_units water_units currency grouped Plus Opt Lit
       Range Times UpTo digit space foldr map js Nat.sub];
  repeat match goal with
    | |- _ /\ _ => split
    | |- caseless _ =>
        first [apply caseless_digit | apply caseless_space | apply caseless_date_sep]
    | |- _ = _ => reflexivity
    | |- True => exact I
    end.

Lemma energy_same_letters (text text' : jstring) :
  same_letters text text' ->
  group1 <$> String_match text patterns_energy = group1 <$> String_match text' patterns_energy.
Proof.
  apply String_match_same; [caseless_patterns|].
  intros m E. unfold String_match in E. apply search_elem in E as (p & s & E).
  apply energy_run_sound in E as (n & Hc & (ws & u & post & _ & Hn & _)).
  exists n. split; [done|by apply decimal_numeral_letterless].
Qed.

Lemma water_same_letters (text text' : jstring) :
  same_letters text text' ->
  group1 <$> String_match text patterns_water = group1 <$> String_match text' patterns_water.
Proof.
  apply String_match_same;
    [caseless_patterns|].
  intros m E. unfold String_match in E. apply search_elem in E as (p & s & E).
  apply water_run_sound in E as (n & Hc & Hn).
  exists n. split; [done|by apply decimal_numeral_letterless].
Qed.

Lemma amount_same_letters (text text' : jstring) :
  same_letters text text' ->
  group1 <$> String_match text patterns_amount = group1 <$> String_match text' patterns_amount.
Proof.
  apply String_match_same; [caseless_patterns|].
  intros m E. unfold String_match in E. apply search_Some in E as (pre & s & _ & E & _).
  apply amount_run_head in E as (mk & ws & t & d & r & _ & _ & _ & -> & Hdg & Hc).
  eexists. split; [exact Hc|]. by apply grouped_numeral_letterless, leading_number_grouped.
Qed.

Lemma date_same_letters (text text' : jstring) :
  same_letters text text' ->
  group1 <$> String_match text patterns_date = group1 <$> String_match text' patterns_date.
Proof.
  apply String_match_same; [caseless_patterns|].
  intros m E. unfold String_match in E. apply search_Some in E as (pre & s & _ & E & _).
  apply date_run_head in E as (n & Hc & (post & _ & Hn & _)).
  exists n. split; [done|by apply date_shape_letterless].
Qed.

(** X5: the case of the ASCII letters of a text makes no difference to what
    [extractKeyFields] extracts: two texts that differ in it only yield the
    same result. *)
Theorem extract_same_letters (text text' : jstring) :
  same_letters text text' -> extractKeyFields text = extractKeyFields text'.
Proof.
  intros H. unfold extractKeyFields.
  pose proof (energy_same_letters text text' H) as He.
  pose proof (water_same_letters text text' H) as Hw.
  pose proof (amount_same_letters text text' H) as Ha.
  pose proof (date_same_letters text text' H) as Hd.
  destruct (String_match text patterns_energy), (String_match text' patterns_energy);
    cbn in He; try discriminate;
    destruct (String_match text patterns_water), (String_match text' patterns_water);
    cbn in Hw; try discriminate;
    destruct (String_match text patterns_amount), (String_match text' patterns_amount);
    cbn in Ha; try discriminate;
    destruct (String_match text patterns_date), (String_match text' patterns_date);
    cbn in Hd; try discriminate.
  all: try injection He as He; try injection Hw as Hw; try injection Ha as Ha;
    try injection Hd as Hd.
  all: by rewrite ?He, ?Hw, ?Ha, ?Hd.
Qed.

Lemma extract_same_letters_witness :
  extractKeyFields shouting_text = extractKeyFields quiet_text.
Proof. apply (extract_same_letters shouting_text quiet_text). reflexivity. Defined.

(* ===================================================================== *)
(** * The documents of processDocument *)
(* ===================================================================== *)

Lemma draw_between (w : World) (n : nat) (range base : Z) :
  fair w -> (0 < range)%Z ->
  (base <= Qfloor (draws w n * Q2Qc (inject_Z range))%Qc + base <= base + range - 1)%Z.
Proof.
  intros Hw Hr. destruct (Hw n) as [H0 H1].
  pose proof (floor_draw _ range Hr H0 H1). lia.
Qed.

(** X6: in a world whose draws lie in [[0,1)], the document that
    [processDocument] returns is the document of the profile that the
    keywords in the file name select, an electricity keyword winning over
    a water keyword and that over a fuel keyword: electricity (a whole
    [energyUsage] in [[200,699]], [amount] in [[2000,6999]]), water
    ([waterConsumption] in [[5000,14999]], [amount] in [[500,1999]]), fuel
    ([fuelConsumption] in [[50,149]], [amount] in [[4000,11999]]) or other
    (no quantity, [amount] in [[1000,3999]]), with the vendor of the
    profile, the current date, and no further property. *)
Theorem processDocument_profile (file : File) (w : World) :
  fair w ->
  exists q a : Z,
    quantity_in_range (profile_of file) q /\
    (amount_least (profile_of file) <= a <= amount_greatest (profile_of file))%Z /\
    fst (processDocument file w) = profile_document (profile_of file) q a (date_now w).
Proof.
  intros Hw.
  unfold processDocument, profile_of, mentions_electricity, mentions_water, mentions_fuel,
    mentions, date_now.
  repeat case_match; run_world; rewrite !random_value.
  - pose proof (draw_between w (drawn w) 500 200 Hw ltac:(lia)) as Hq.
    pose proof (draw_between w (S (drawn w)) 5000 2000 Hw ltac:(lia)) as Ha.
    do 2 eexists. split; [exact Hq|]. split; [|reflexivity].
    cbv [amount_least amount_greatest electricity_profile]. lia.
  - pose proof (draw_between w (drawn w) 10000 5000 Hw ltac:(lia)) as Hq.
    pose proof (draw_between w (S (drawn w)) 1500 500 Hw ltac:(lia)) as Ha.
    do 2 eexists. split; [exact Hq|]. split; [|reflexivity].
    cbv [amount_least amount_greatest water_profile]. lia.
  - pose proof (draw_between w (drawn w) 100 50 Hw ltac:(lia)) as Hq.
    pose proof (draw_between w (S (drawn w)) 8000 4000 Hw ltac:(lia)) as Ha.
    do 2 eexists. split; [exact Hq|]. split; [|reflexivity].
    cbv [amount_least amount_greatest fuel_profile]. lia.
  - pose proof (draw_between w (drawn w) 3000 1000 Hw ltac:(lia)) as Ha.
    exists 0%Z; eexists. split; [done|]. split; [|reflexivity].
    cbv [amount_least amount_greatest other_profile]. lia.
Qed.

Lemma processDocument_profile_witness :
  exists q a : Z,
    quantity_in_range (profile_of mixed_file) q /\
    (amount_least (profile_of mixed_file) <= a <= amount_greatest (profile_of mixed_file))%Z /\
    fst (processDocument mixed_file sample_world)
    = profile_document (profile_of mixed_file) q a (date_now sample_world).
Proof.
  apply (processDocument_profile mixed_file sample_world).
  intros n; split; vm_compute; [discriminate|reflexivity].
Defined.

(** A name with keywords of two kinds: the electricity keyword wins. *)
Example mixed_file_profile : profile_of mixed_file = electricity_profile.
Proof. reflexivity. Qed.

(** ** The file name *)

Lemma lower_unit_canonical (a b : N) :
  canonical true a = canonical true b -> lower_unit a = lower_unit b.
Proof.
  unfold canonical, lower_unit. cbn [andb].
  destruct (is_lower a) eqn:La, (is_lower b) eqn:Lb; intros H.
  - by replace b with a by (clear -La Lb H; units).
  - subst b. replace (is_upper a) with false by (clear -La; symmetry; units).
    replace (is_upper (a - 32)) with true by (clear -La; symmetry; units).
    replace (a =? 8490)%N with false by (clear -La; symmetry; units).
    replace (a =? 304)%N with false by (clear -La; symmetry; units).
    f_equal. clear -La. units.
  - subst a. replace (is_upper b) with false by (clear -Lb; symmetry; units).
    replace (is_upper (b - 32)) with true by (clear -Lb; symmetry; units).
    replace (b =? 8490)%N with false by (clear -Lb; symmetry; units).
    replace (b =? 304)%N with false by (clear -Lb; symmetry; units).
    f_equal. clear -Lb. units.
  - by subst.
Qed.

Lemma toLowerCase_same_letters (a b : jstring) :
  same_letters a b -> toLowerCase a = toLowerCase b.
Proof.
  unfold same_letters, toLowerCase. revert b.
  induction a as [|x a IH]; intros [|y b] H; try done.
  cbn in H. injection H as Hx H. cbn. by rewrite (lower_unit_canonical x y Hx), (IH b H).
Qed.

(** X7: [processDocument] looks at nothing of a file but the letters of its
    name: two files whose names differ at most in the case of their ASCII
    letters, whatever their sizes, yield the same document and leave the
    same world. *)
Theorem processDocument_same_letters (file file' : File) (w : World) :
  same_letters (file_name file) (file_name file') ->
  processDocument file w = processDocument file' w.
Proof.
  intros H. unfold processDocument. by rewrite (toLowerCase_same_letters _ _ H).
Qed.

Lemma processDocument_same_letters_witness :
  processDocument shouting_file sample_world = processDocument mseb_file sample_world.
Proof. apply (processDocument_same_letters shouting_file mseb_file); reflexivity. Defined.

(** ** The world after a document *)

Lemma processDocument_world (file : File) (w : World) :
  exists k : nat,
    (1 <= k <= 2)%nat /\
    snd (processDocument file w) = mkWorld (draws w) (drawn w + k) (readings w) (S (read w)).
Proof.
  unfold processDocument.
  repeat case_match; run_world;
    [exists 2%nat|exists 2%nat|exists 2%nat|exists 1%nat];
    (split; [lia|]); f_equal; lia.
Qed.

Lemma processDocument_date (file : File) (w : World) :
  fst (processDocument file w) !! "billDate" = Some (VStr (date_now w)).
Proof.
  unfold processDocument, date_now. repeat case_match; run_world; by simplify_map_eq.
Qed.

Lemma process_files_cons (f : File) (files : list File) (w : World) :
  process_files (f :: files) w
  = let (d, w1) := processDocument f w in
    let (ds, w2) := process_files files w1 in (d :: ds, w2).
Proof.
  cbn [process_files]. unfold mbind, M_bind, mret, M_ret.
  destruct (processDocument f w) as [d w1]. by destruct (process_files files w1).
Qed.

Lemma process_files_length (files : list File) (w : World) :
  length (fst (process_files files w)) = length files.
Proof.
  revert w. induction files as [|f files IH]; intros w; [done|].
  rewrite process_files_cons. destruct (processDocument f w) as [d w1].
  specialize (IH w1). destruct (process_files files w1) as [ds w2]. cbn in *. by rewrite IH.
Qed.


(* ===================================================================== *)
(** * What an upload passes to the scorer *)
(* ===================================================================== *)

(** A property of the documents that holds after every file, given an
    invariant of the world, holds of the whole batch. *)
Lemma process_files_Forall (P : object -> Prop) (I : World -> Prop) :
  (forall f w, I w -> P (fst (processDocument f w)) /\ I (snd (processDocument f w))) ->
  forall files w, I w -> Forall P (fst (process_files files w)).
Proof.
  intros Hstep files. induction files as [|f files IH]; intros w Hw; [constructor|].
  rewrite process_files_cons. destruct (Hstep f w Hw) as [HP HI].
  destruct (processDocument f w) as [d w1]. cbn [fst snd] in *.
  specialize (IH w1 HI). destruct (process_files files w1) as [ds w2]. by constructor.
Qed.

Lemma processDocument_fair (f : File) (w : World) :
  fair w -> fair (snd (processDocument f w)).
Proof.
  intros Hw. destruct (processDocument_world f w) as (k & _ & ->). exact Hw.
Qed.

Lemma processDocument_finite (f : File) (w : World) (k : string) (x : number) :
  fair w -> fst (processDocument f w) !! k = Some (VNum x) -> exists q, x = Fin q /\ 0 <= q.
Proof.
  intros Hw. unfold processDocument.
  repeat case_match; run_world; rewrite !random_value; intros Hk;
    repeat (apply lookup_insert_num in Hk as [[= <-]|Hk];
            try (eexists; split; [reflexivity|]; by apply (draw_nonneg w _ _ _ Hw)));
    by rewrite lookup_empty in Hk.
Qed.

Lemma processDocument_no_waste (f : File) (w : World) :
  fst (processDocument f w) !! "wasteGeneration" = None.
Proof. unfold processDocument. repeat case_match; run_world; by simplify_map_eq. Qed.

Lemma reduce_sum_absent (k : string) (batch : list object) :
  Forall (fun d => d !! k = None) batch -> reduce_sum k batch = num 0.
Proof.
  induction batch as [|d batch IH] using rev_ind; intros H; [done|].
  apply Forall_app in H as [Hb Hd]. apply Forall_cons in Hd as [Hd _].
  by rewrite reduce_sum_snoc, or_zero_absent, Nadd_zero_r, IH.
Qed.

(** X9: for every upload, in a world whose draws lie in [[0,1)], the input
    that [handleFileUpload] passes to [calculateESGScore] has a
    [wasteReduction] of exactly 100, as [processDocument] never reports
    waste, and an [energyEfficiency] and a [waterEfficiency] in [[0,100]];
    the state then holds the files of this upload and one document per
    file. *)
Theorem upload_esg_input `{EmissionCalculator} (files : list File) (app : AppState) (w : World) :
  fair w ->
  let st := fst (handleFileUpload files app w) in
  uploadedFiles st = files /\
  length (extractedData st) = length files /\
  wasteReduction (esg_input (extractedData st)) = num 100 /\
  (exists e, energyEfficiency (esg_input (extractedData st)) = Fin e
             /\ 0 <= e /\ e <= ESG.hundred) /\
  (exists e, waterEfficiency (esg_input (extractedData st)) = Fin e
             /\ 0 <= e /\ e <= ESG.hundred).
Proof.
  intros Hw st.
  assert (Est : st = mkApp files (fst (process_files files w))
                       (Some (metrics_of (fst (process_files files w))))).
  { subst st. unfold handleFileUpload, mbind, M_bind, mret, M_ret.
    by destruct (process_files files w). }
  rewrite Est. cbn [uploadedFiles extractedData]. clear st Est.
  split; [done|]. split; [apply process_files_length|].
  assert (Hfin : Forall (fun d => forall k x, d !! k = Some (VNum x)
                                              -> exists q, x = Fin q /\ 0 <= q)
                   (fst (process_files files w))).
  { apply (process_files_Forall _ fair); [|done].
    intros f w0 Hw0. split; [|by apply processDocument_fair].
    intros k x. by apply processDocument_finite. }
  destruct (esg_input_in_range _ Hfin) as (He & Hwa & _ & _).
  split; [|by split].
  unfold esg_input. cbn [wasteReduction].
  rewrite reduce_sum_absent.
  - unfold num, Nsub, Nneg, Nadd, Math_max. rewrite bool_decide_eq_true_2 by by vm_compute.
    f_equal; try qc_closed.
  - apply (process_files_Forall _ (fun _ => True)); [|done].
    intros f w0 _. split; [apply processDocument_no_waste|done].
Qed.

Lemma upload_esg_input_witness :
  let st := fst (@handleFileUpload silent_calculator [mseb_file; receipt_file]
                   (mkApp [] [] None) sample_world) in
  uploadedFiles st = [mseb_file; receipt_file] /\
  length (extractedData st) = length [mseb_file; receipt_file] /\
  wasteReduction (@esg_input silent_calculator (extractedData st)) = num 100 /\
  (exists e, energyEfficiency (@esg_input silent_calculator (extractedData st)) = Fin e
             /\ 0 <= e /\ e <= ESG.hundred) /\
  (exists e, waterEfficiency (@esg_input silent_calculator (extractedData st)) = Fin e
             /\ 0 <= e /\ e <= ESG.hundred).
Proof.
  apply (@upload_esg_input silent_calculator [mseb_file; receipt_file] (mkApp [] [] None)
           sample_world).
  intros n; split; vm_compute; [discriminate|reflexivity].
Defined.

(* ===================================================================== *)
(** * Properties of the badges *)
(* ===================================================================== *)

Lemma map_M_cons {A B} (f : A -> M B) (x : A) (l : list A) (w : World) :
  map_M f (x :: l) w
  = let (y, w1) := f x w in let (ys, w2) := map_M f l w1 in (y :: ys, w2).
Proof.
  cbn [map_M]. unfold mbind, M_bind, mret, M_ret.
  destruct (f x w) as [y w1]. by destruct (map_M f l w1).
Qed.

(** What the callback guarantees of every element, given an invariant of
    the world, holds of the whole array. *)
Lemma map_M_Forall2 {A B} (f : A -> M B) (R : A -> B -> Prop) (I : World -> Prop) :
  (forall x w, I w -> R x (fst (f x w)) /\ I (snd (f x w))) ->
  forall l w, I w -> Forall2 R l (fst (map_M f l w)) /\ I (snd (map_M f l w)).
Proof.
  intros Hf l. induction l as [|x l IH]; intros w Hw; [by split; [constructor|]|].
  rewrite map_M_cons. destruct (Hf x w Hw) as [HR HI].
  destruct (f x w) as [y w1]. cbn [fst snd] in *.
  destruct (IH w1 HI) as [HRs HIs]. destruct (map_M f l w1) as [ys w2].
  split; [by constructor|done].
Qed.

(** A callback that returns its argument and leaves the world alone on
    every element of an array returns the array. *)
Lemma map_M_fixed {A} (f : A -> M A) (l : list A) (w : World) :
  Forall (fun x => forall w, f x w = (x, w)) l -> map_M f l w = (l, w).
Proof.
  intros H. revert w. induction H as [|x l Hx _ IH]; intros w; [done|].
  by rewrite map_M_cons, Hx, IH.
Qed.

Lemma fair_drawn (w : World) (n : nat) :
  fair w -> fair (mkWorld (draws w) n (readings w) (read w)).
Proof. done. Qed.

(** X10: the badges start unearned, each with the identity of its template and
    a whole-number progress in [[0,59]], in a world whose draws lie in
    [[0,1)]. *)
Theorem initial_badges_unearned `{GamificationEngine} (w : World) :
  fair w ->
  Forall2 (fun t b =>
             badge_id b = badge_id t /\ badge_name b = badge_name t /\
             badge_type b = badge_type t /\ earned b = false /\
             exists n : Z, progress b = Some (num n) /\ (0 <= n <= 59)%Z)
    AVAILABLE_BADGES (fst (initial_badges w)).
Proof.
  intros Hw. unfold initial_badges.
  eapply (map_M_Forall2 _ _ fair); [|exact Hw].
  intros t w0 Hw0. run_world. split; [|exact Hw0].
  repeat split. unfold Nmul, num at 1, Math_floor.
  eexists. split; [reflexivity|].
  destruct (Hw0 (drawn w0)) as [H0 H1].
  pose proof (floor_draw _ 60 ltac:(lia) H0 H1). lia.
Qed.

Lemma initial_badges_unearned_witness :
  Forall2 (fun t b =>
             badge_id b = badge_id t /\ badge_name b = badge_name t /\
             badge_type b = badge_type t /\ earned b = false /\
             exists n : Z, progress b = Some (num n) /\ (0 <= n <= 59)%Z)
    (@AVAILABLE_BADGES sample_engine) (fst (@initial_badges sample_engine sample_world)).
Proof.
  apply (@initial_badges_unearned sample_engine sample_world).
  intros n; split; vm_compute; [discriminate|reflexivity].
Defined.

(** X11: an upload never takes a badge away and never touches an earned one:
    after the update every badge has the identity and the progress it
    had, a badge that was earned is unchanged, earned date included, and a
    badge is earned exactly when it was earned before or is eligible now. *)
Theorem update_badges_keeps `{GamificationEngine}
    (metrics : SustainabilityMetrics) (userStats : UserStats)
    (prev : list Badge) (w : World) :
  Forall2 (fun b b' =>
             badge_id b' = badge_id b /\ badge_name b' = badge_name b /\
             badge_type b' = badge_type b /\ progress b' = progress b /\
             (earned b = true -> b' = b) /\
             earned b' = earned b || checkBadgeEligibility (badge_id b) metrics userStats)
    prev (fst (update_badges metrics userStats prev w)).
Proof.
  unfold update_badges.
  eapply (map_M_Forall2 _ _ (fun _ => True)); [|done].
  intros b w0 _. split; [|done].
  destruct (earned b) eqn:Eb, (checkBadgeEligibility _ _ _); cbn [negb andb orb];
    run_world; cbn [badge_id badge_name badge_type progress earned]; by rewrite ?Eb.
Qed.

(** X12: running the update again with the same metrics and statistics changes
    no badge and reads no clock: a badge keeps the date at which it was
    first earned. *)
Theorem update_badges_again `{GamificationEngine}
    (metrics : SustainabilityMetrics) (userStats : UserStats)
    (prev : list Badge) (w w' : World) :
  update_badges metrics userStats (fst (update_badges metrics userStats prev w)) w'
  = (fst (update_badges metrics userStats prev w), w').
Proof.
  unfold update_badges.
  set (f := fun badge : Badge => _).
  apply map_M_fixed. clear w'. revert w.
  induction prev as [|b prev IH]; intros w; [constructor|].
  rewrite map_M_cons.
  assert (Hb : forall w0, f (fst (f b w)) w0 = (fst (f b w), w0)).
  { intros w0. subst f. cbn beta.
    destruct (earned b) eqn:Eb, (checkBadgeEligibility (badge_id b) metrics userStats) eqn:Ec;
      cbn [negb andb]; run_world; cbn [earned badge_id negb andb]; by rewrite ?Eb, ?Ec. }
  destruct (f b w) as [b' w1]. cbn [fst] in Hb.
  specialize (IH w1). destruct (map_M f prev w1) as [bs w2]. by constructor.
Qed.

(* ===================================================================== *)
(** * Properties of the pledges *)
(* ===================================================================== *)

Lemma js_inj (s t : string) : js s = js t -> s = t.
Proof.
  revert t. induction s as [|a s IH]; intros [|b t] H; try done.
  cbn in H. injection H as Ha H. f_equal; [|by apply IH].
  rewrite <- (ascii_N_embedding a), <- (ascii_N_embedding b). by rewrite Ha.
Qed.

Lemma Number_toString_inj (n m : N) : Number_toString n = Number_toString m -> n = m.
Proof. intros H. by apply js_inj, pretty.pretty_N_inj in H. Qed.

(** X13: [handleCreatePledge] adds one pledge at the end and leaves the
    earlier ones as they were, in their order; the new pledge carries the
    data handed in, starts at [current = 0] and [status = 'active'], and
    takes its id from the clock alone: two pledges get the same id
    exactly when they are created in the same millisecond. *)
Theorem handleCreatePledge_appends (now now' : N) (pledgeData pledgeData' : PledgeData)
    (prev : list Pledge) :
  exists p p' : Pledge,
    handleCreatePledge now pledgeData prev = prev ++ [p] /\
    handleCreatePledge now' pledgeData' (handleCreatePledge now pledgeData prev)
      = prev ++ [p; p'] /\
    pledge_title p = data_title pledgeData /\
    pledge_target p = data_target pledgeData /\
    pledge_deadline p = data_deadline pledgeData /\
    pledge_current p = num 0 /\ pledge_status p = active /\
    (pledge_id p = pledge_id p' <-> now = now').
Proof.
  unfold handleCreatePledge. do 2 eexists. split; [reflexivity|].
  split; [by rewrite <- app_assoc|]. cbn [pledge_title pledge_target pledge_deadline
    pledge_current pledge_status pledge_id].
  repeat split; [apply Number_toString_inj|by intros ->].
Qed.

(* ===================================================================== *)
(** * Properties of the panels *)
(* ===================================================================== *)

Lemma is_tab_js (t t' : string) : is_tab (js t) t' = bool_decide (t = t').
Proof.
  unfold is_tab. apply bool_decide_ext. split; [apply js_inj|by intros ->].
Qed.

Lemma is_tab_other (activeTab : jstring) (t : string) :
  activeTab <> js t -> is_tab activeTab t = false.
Proof. intros H. by apply bool_decide_eq_false_2. Qed.

(** X14: the main area shows at most one panel, except on the gamification tab
    before any analysis, where it shows the gamification panel and the
    no-data notice together; the dashboard and the reports are shown only
    on their own tab and only with the stored analysis; and a tab name
    other than the five known ones shows nothing. *)
Theorem main_panels_shown (activeTab : jstring) (analysisData : option SustainabilityMetrics) :
  (activeTab = js "gamification" -> analysisData = None ->
   main_panels activeTab analysisData = [Gamification; NoData]) /\
  (~ (activeTab = js "gamification" /\ analysisData = None) ->
   (length (main_panels activeTab analysisData) <= 1)%nat) /\
  (forall data,
      EnhancedDashboard data ∈ main_panels activeTab analysisData ->
      activeTab = js "dashboard" /\ analysisData = Some data) /\
  (forall data,
      Reports data ∈ main_panels activeTab analysisData ->
      activeTab = js "reports" /\ analysisData = Some data) /\
  (activeTab ∉ [js "home"; js "upload"; js "dashboard"; js "reports"; js "gamification"] ->
   main_panels activeTab analysisData = []).
Proof.
  unfold main_panels, shown.
  destruct (decide (activeTab = js "home")) as [->|N1];
    [|destruct (decide (activeTab = js "upload")) as [->|N2];
      [|destruct (decide (activeTab = js "dashboard")) as [->|N3];
        [|destruct (decide (activeTab = js "reports")) as [->|N4];
          [|destruct (decide (activeTab = js "gamification")) as [->|N5]]]]].
  all: rewrite ?is_tab_js, ?is_tab_other by done.
  all: destruct analysisData as [d|]; cbn [bool_decide decide_rel app negb andb orb].
  all: rewrite ?bool_decide_eq_true_2, ?bool_decide_eq_false_2 by (done || by eexists).
  all: cbn [bool_decide decide_rel app negb andb orb length].
  all: split; [|split; [|split; [|split]]].
  all: try solve [intros E1 E2; first [done | by apply js_inj in E1]].
  all: try solve [intros Hn; first [cbn; lia | exfalso; by apply Hn]].
  all: try solve [intros data Hin;
                  repeat (apply elem_of_cons in Hin as [Hin|Hin]; try discriminate);
                  first [by apply elem_of_nil in Hin | by injection Hin as <-]].
  all: intros Hout; first [done | exfalso; apply Hout];
    repeat first [by left | right].
Qed.

(* ===================================================================== *)
(** * Properties of the chatbot *)
(* ===================================================================== *)

Lemma drop_while_nil_iff (p : N -> bool) (s : jstring) :
  drop_while p s = [] <-> forallb p s = true.
Proof.
  induction s as [|c s IH]; cbn; [done|].
  destruct (p c); cbn; [done|]. split; discriminate.
Qed.

(** A text trims to nothing exactly when it is white space throughout. *)
Lemma trim_nil_iff (s : jstring) : trim s = [] <-> forallb is_space s = true.
Proof.
  unfold trim. rewrite <- drop_while_nil_iff. split.
  - intros H. apply (f_equal reverse) in H. rewrite reverse_involutive in H. cbn in H.
    apply drop_while_nil_iff in H.
    destruct (drop_while is_space s) as [|c t] eqn:E; [done|].
    pose proof (drop_while_stops is_space s) as Hs. rewrite E in Hs. cbn in Hs.
    rewrite reverse_cons, forallb_app in H. cbn in H. rewrite Hs in H.
    by rewrite andb_false_r in H.
  - by intros ->.
Qed.

(** X15: [handleSendMessage] sends nothing when the input is empty or white
    space throughout, and leaves the state as it is; otherwise it appends
    one message of the user with the input as typed, untrimmed, without
    metrics or suggestions, empties the input and shows the typing mark. *)
Theorem handleSendMessage_blank (now : N) (date : jstring) (st : ChatState) :
  handleSendMessage now date st
  = if forallb is_space (inputText st) then st
    else {| messages :=
              messages st
              ++ [{| message_id := Number_toString now;
                     message_text := Typed (inputText st);
                     isBot := false;
                     timestamp := date;
                     message_metrics := None;
                     suggestions := None |}];
            inputText := [];
            isTyping := true |}.
Proof.
  unfold handleSendMessage. pose proof (trim_nil_iff (inputText st)) as H.
  destruct (trim (inputText st)) as [|c t].
  - by rewrite (proj1 H eq_refl).
  - destruct (forallb is_space (inputText st)); [|done].
    pose proof (proj2 H eq_refl). discriminate.
Qed.

Lemma or_number_same (d : number) : or_number (Some d) d = d.
Proof. unfold or_number. by destruct (truthy d). Qed.

Lemma or_number_falsy (x d : number) : truthy x = false -> or_number (Some x) d = d.
Proof. unfold or_number. by intros ->. Qed.

(** X16: whatever was uploaded, the chatbot answers as it does before any
    upload on every topic but two: the energy, carbon, cost, water,
    benchmark and help replies built from the metrics of an upload are the
    replies built without data, figures included.  Only the ESG reply and
    the general reply can differ, and only by the score. *)
Theorem reply_ignores_upload `{EmissionCalculator}
    (Number_toFixed1 : number -> jstring) (batch : list object)
    (now : N) (date : jstring) (userMessage : jstring) :
  let reply :=
    generateAdvancedResponse Number_toFixed1 (Some (metrics_of batch)) now date userMessage in
  let fresh := generateAdvancedResponse Number_toFixed1 None now date userMessage in
  let score := or_number (Some (calculateESGScore (esg_input batch))) (num 72) in
  match message_text fresh with
  | Template topic_esg _ =>
      message_text reply = Template topic_esg [PNumber (Some score)] /\
      metric_value <$> message_metrics reply = Some (Some score)
  | Template topic_other _ =>
      message_text reply
      = Template topic_other [PNumber (Some score); PNumber (Some (dec 2.4))]
  | _ => reply = fresh
  end.
Proof.
  unfold generateAdvancedResponse. cbn [metrics_of trends trends_energy].
  repeat match goal with
    | |- context [at_index ?l ?i] =>
        let v := eval vm_compute in (at_index l i) in change (at_index l i) with v
    end.
  repeat case_match; try discriminate;
    repeat match goal with
      | E : mkMessage _ _ _ _ _ _ = _ |- _ => clear E
      | E : message_text _ = _ |- _ => cbn [message_text] in E; injection E as <- <-
      end;
    cbn [message_text message_metrics metric_value fmap option_fmap option_map
         carbonFootprint waterConsumption esgScore metrics_of];
    rewrite ?or_number_same; try done.
Qed.

(** X17: a score that is zero or not a number is never shown: the chatbot then
    answers every message as it does before any upload, with 72. *)
Theorem reply_falsy_score `{EmissionCalculator}
    (Number_toFixed1 : number -> jstring) (batch : list object)
    (now : N) (date : jstring) (userMessage : jstring) :
  truthy (calculateESGScore (esg_input batch)) = false ->
  generateAdvancedResponse Number_toFixed1 (Some (metrics_of batch)) now date userMessage
  = generateAdvancedResponse Number_toFixed1 None now date userMessage.
Proof.
  intros Hs. unfold generateAdvancedResponse. cbn [metrics_of trends trends_energy].
  repeat match goal with
    | |- context [at_index ?l ?i] =>
        let v := eval vm_compute in (at_index l i) in change (at_index l i) with v
    end.
  repeat case_match;
    cbn [fmap option_fmap option_map carbonFootprint waterConsumption esgScore metrics_of];
    rewrite ?or_number_same, ?(or_number_falsy _ _ Hs); done.
Qed.

Lemma reply_falsy_score_witness :
  @generateAdvancedResponse sample_toFixed1
    (Some (@metrics_of silent_calculator [electricity_doc])) 1731663000000
    (js "2024-11-15T09:30:00.000Z") (js "Explain my ESG score")
  = generateAdvancedResponse sample_toFixed1 None 1731663000000
      (js "2024-11-15T09:30:00.000Z") (js "Explain my ESG score").
Proof.
  apply (@reply_falsy_score silent_calculator sample_toFixed1 [electricity_doc]).
  vm_compute. reflexivity.
Defined.

(** X18: every reply to a message, built without data or from the metrics
    of an upload, is a bot message that carries the id made from
    [Date.now()], exactly three suggestions, and metrics exactly on the
    energy, carbon, water and ESG topics; the value of the metrics, on
    which the message list calls [toLocaleString], is then never
    [undefined]. *)
Theorem reply_well_formed `{EmissionCalculator}
    (Number_toFixed1 : number -> jstring) (batch : list object)
    (now : N) (date : jstring) (userMessage : jstring)
    (analysisData : option SustainabilityMetrics) :
  analysisData = None \/ analysisData = Some (metrics_of batch) ->
  let reply := generateAdvancedResponse Number_toFixed1 analysisData now date userMessage in
  isBot reply = true /\
  message_id reply = Number_toString now /\
  timestamp reply = date /\
  (exists a b c, suggestions reply = Some [a; b; c]) /\
  (exists t pieces,
      message_text reply = Template t pieces /\
      (is_Some (message_metrics reply)
       <-> t ∈ [topic_energy; topic_carbon; topic_water; topic_esg])) /\
  (forall m, message_metrics reply = Some m -> is_Some (metric_value m)).
Proof.
  intros Hdata reply. subst reply. unfold generateAdvancedResponse.
  destruct Hdata as [-> | ->]; cbn [metrics_of trends trends_energy];
    repeat match goal with
      | |- context [at_index ?l ?i] =>
          let v := eval vm_compute in (at_index l i) in change (at_index l i) with v
      end.
  all: repeat case_match;
    cbn [isBot message_id timestamp suggestions message_text message_metrics map].
  all: (split; [done|]); (split; [done|]); (split; [done|]); (split; [by eauto|]).
  all: split;
    [do 2 eexists; split; [reflexivity|]; split;
       [intros [m Hm]; first [discriminate Hm | repeat first [by left | right]]
       |intros Hin; first [by eexists |
          exfalso; repeat (apply elem_of_cons in Hin as [Hin|Hin]; try discriminate);
          by apply elem_of_nil in Hin]]
    |intros m [= <-]; by eexists].
Qed.

Lemma reply_well_formed_witness :
  let reply :=
    generateAdvancedResponse sample_toFixed1 None 1731663000000
      (js "2024-11-15T09:30:00.000Z") (js "Analyze my energy trends") in
  isBot reply = true /\
  message_id reply = Number_toString 1731663000000 /\
  timestamp reply = js "2024-11-15T09:30:00.000Z" /\
  (exists a b c, suggestions reply = Some [a; b; c]) /\
  (exists t pieces,
      message_text reply = Template t pieces /\
      (is_Some (message_metrics reply)
       <-> t ∈ [topic_energy; topic_carbon; topic_water; topic_esg])) /\
  (forall m, message_metrics reply = Some m -> is_Some (metric_value m)).
Proof.
  apply (@reply_well_formed silent_calculator sample_toFixed1 [] 1731663000000
           (js "2024-11-15T09:30:00.000Z") (js "Analyze my energy trends") None).
  left. reflexivity.
Defined.

(** With stored metrics whose energy trend is empty, which no upload
    produces, the value of the energy reply is [undefined]. *)
Example reply_undefined_value :
  metric_value
    <$> message_metrics
          (generateAdvancedResponse sample_toFixed1
             (Some (mkMetrics (num 0) (num 0) (num 0) (num 0) (num 0) (mkTrends [] [] [] [])))
             0 [] (js "energy usage"))
  = Some None.
Proof. reflexivity. Qed.
